(** * git-annex-remote-b2: the B2 special remote, embedded and verified

    A shallow embedding of [main.go] and of [progress.go].  The sources hold
    more than one revision of [main.go]; the embedding follows the one with
    the existence cache ([B2Ext.lastList]) and keeps [Store] of the revision
    before it as [Uncached.Store].  The adapter's methods are state-passing
    functions over the receiver [*B2Ext], an abstract outside world (control
    channel, process environment, the go-backblaze client, the local file
    system, the clock) and a log of the calls made to that world.  Library
    calls whose code is not part of this repository are methods of the
    [World] class; nothing is assumed about what they answer.  [Retrieve] and
    the command loop are not embedded. *)

From Stdlib Require Import ZArith List String Ascii Bool Lia Sorted.
From Stdlib.Strings Require Import Byte.
Import ListNotations.

Local Open Scope string_scope.
Local Open Scope list_scope.
Local Open Scope Z_scope.

Set Implicit Arguments.
Set Warnings "-register-all".

(** ** Go values used by the program *)

(** A Go [error] value.  [fmt_Errorf] keeps the format string of the source
    and its arguments ([inl] a string argument, [inr] a wrapped error), so the
    text the user reads stays attached to every failure.  [None : option
    error] is Go's [nil]. *)
Inductive error : Type :=
| ErrUnsupportedRequest
| errors_New (msg : string)
| fmt_Errorf (format : string) (args : list (string + error)).

(** [int64] arithmetic wraps around. *)
Definition minInt64 : Z := - 2 ^ 63.
Definition maxInt64 : Z := 2 ^ 63 - 1.
Definition wrap64 (z : Z) : Z := (z + 2 ^ 63) mod 2 ^ 64 - 2 ^ 63.

(** ** progress.go *)

Module Progress.

(** [const progressByteLimit = 256 * 1024] *)
Definition progressByteLimit : Z := 256 * 1024.

(** An [io.Reader]: [io_Read r len] is [r.Read(p)] with [len = len(p)]; it
    answers the bytes it put at the front of [p] (their number is Go's [n]),
    the error, and the reader afterwards. *)
Class Reader (R : Type) : Type :=
  { io_Read : R -> nat -> (list byte * option error) * R }.

(** What has been written to, and flushed from, the [*bufio.Writer]: one entry
    per [fmt.Fprintf(pr.progress, "PROGRESS %d\n", pr.n)]. *)
Inductive Line : Type :=
| PROGRESS (bytesSoFar : Z).

Definition total_of (l : Line) : Z :=
  match l with PROGRESS t => t end.

(** [type ProgressReader struct { r; progress; n; lastPrint }]; the fields
    carry the prefix [pr_]. *)
Record ProgressReader (R : Type) : Type := mkPR
  { pr_r : R;
    pr_progress : list Line;
    pr_n : Z;
    pr_lastPrint : Z }.

Definition NewProgressReader {R} (r : R) (progress : list Line) : ProgressReader R :=
  {| pr_r := r; pr_progress := progress; pr_n := 0; pr_lastPrint := 0 |}.

(** [func (pr *ProgressReader) Read(p []byte) (int, error)] *)
Definition Read {R} `{Reader R} (pr : ProgressReader R) (len_p : nat)
  : (list byte * option error) * ProgressReader R :=
  let '(data, err, r') := io_Read (pr_r pr) len_p in
  let n' := wrap64 (pr_n pr + Z.of_nat (List.length data)) in
  if wrap64 (n' - pr_lastPrint pr) >? progressByteLimit then
    ((data, err),
     {| pr_r := r';
        pr_progress := pr_progress pr ++ [PROGRESS n'];
        pr_n := n';
        pr_lastPrint := n' |})
  else
    ((data, err),
     {| pr_r := r';
        pr_progress := pr_progress pr;
        pr_n := n';
        pr_lastPrint := pr_lastPrint pr |}).

(** A transfer: the consumer calls [Read] once per entry of [sizes], the
    buffer lengths it offers.  [reads] goes through the wrapper, [reads_raw]
    asks the wrapped reader directly. *)
Fixpoint reads {R} `{Reader R} (pr : ProgressReader R) (sizes : list nat)
  : list (list byte * option error) * ProgressReader R :=
  match sizes with
  | [] => ([], pr)
  | len_p :: rest =>
      let '(out, pr') := Read pr len_p in
      let '(outs, pr'') := reads pr' rest in
      (out :: outs, pr'')
  end.

Fixpoint reads_raw {R} `{Reader R} (r : R) (sizes : list nat)
  : list (list byte * option error) * R :=
  match sizes with
  | [] => ([], r)
  | len_p :: rest =>
      let '(out, r') := io_Read r len_p in
      let '(outs, r'') := reads_raw r' rest in
      (out :: outs, r'')
  end.

(** The bytes that went through, in order, and their number [N]. *)
Definition bytes_of (outs : list (list byte * option error)) : list byte :=
  List.concat (map fst outs).

Definition transferred (outs : list (list byte * option error)) : Z :=
  Z.of_nat (List.length (bytes_of outs)).

(** The notification rule in the words of the design, not of the code, and
    over unbounded integers: as chunks flow through, accumulate a running
    total; whenever the total since the last emitted notification exceeds the
    threshold, emit the running total and reset the baseline to it. *)
Fixpoint spec_notifications (total baseline : Z) (chunks : list Z) : list Z :=
  match chunks with
  | [] => []
  | c :: rest =>
      let total' := total + c in
      if total' - baseline >? progressByteLimit
      then total' :: spec_notifications total' total' rest
      else spec_notifications total' baseline rest
  end.

Definition chunk_sizes (outs : list (list byte * option error)) : list Z :=
  map (fun o => Z.of_nat (List.length (fst o))) outs.

Definition sum (chunks : list Z) : Z := fold_right Z.add 0 chunks.

(** A reader for concrete runs: it hands out the chunks it holds, one per
    call, whatever the buffer length, and reports [io.EOF]-like exhaustion as
    an error once empty. *)
Definition ChunkReader : Type := list (list byte).

#[global] Instance ChunkReader_Reader : Reader ChunkReader :=
  {| io_Read := fun r _ =>
       match r with
       | [] => (([], Some (errors_New "EOF")), [])
       | c :: rest => ((c, None), rest)
       end |}.

(** Three reads of 200000, 100000 and 10 bytes, into buffers of 4096. *)
Definition three_chunks : ChunkReader :=
  [ repeat x00 (N.to_nat 200000); repeat x61 (N.to_nat 100000); repeat x62 (N.to_nat 10) ].

Definition three_calls : list nat := [4096; 4096; 4096]%nat.

End Progress.

(** ** Library functions with a fixed meaning *)

(** *** package time

    A [time.Time] is the number of nanoseconds since Go's zero time (January
    1, year 1, 00:00 UTC), which is what [time.Time{}] denotes; a
    [time.Duration] is an [int64] count of nanoseconds, and [Time.Sub]
    saturates at its bounds.  There is one clock, read by [time_Now] below:
    [time.Since(t)] is [time.Now().Sub(t)]. *)
Definition Time : Type := Z.
Definition Duration : Type := Z.

Definition zeroTime : Time := 0.
Definition time_Second : Duration := 1000000000.

Definition time_Sub (t u : Time) : Duration :=
  let d := t - u in
  if d <? minInt64 then minInt64
  else if d >? maxInt64 then maxInt64
  else d.

(** *** package strings *)
Definition strings_HasSuffix (s suffix : string) : bool :=
  (String.length suffix <=? String.length s)%nat
  && (substring (String.length s - String.length suffix) (String.length suffix) s
      =? suffix)%string.

(** *** package encoding/hex and bytes *)
Definition hex_ErrLength : error :=
  errors_New "encoding/hex: odd length hex string".
Definition hex_InvalidByteError (c : ascii) : error :=
  fmt_Errorf "encoding/hex: invalid byte: %#U" [inl (String c EmptyString)].

Definition fromHexChar (c : ascii) : option N :=
  let n := N_of_ascii c in
  if ((48 <=? n) && (n <=? 57))%N then Some (n - 48)%N
  else if ((97 <=? n) && (n <=? 102))%N then Some (n - 97 + 10)%N
  else if ((65 <=? n) && (n <=? 70))%N then Some (n - 65 + 10)%N
  else None.

Definition byte_of_N (n : N) : byte :=
  match Byte.of_N n with
  | Some b => b
  | None => x00
  end.

(** [hex.DecodeString]: the bytes decoded before the first problem, and the
    error ([None] when the whole string was decoded). *)
Fixpoint hex_DecodeString (s : string) : list byte * option error :=
  match s with
  | EmptyString => ([], None)
  | String p EmptyString =>
      match fromHexChar p with
      | None => ([], Some (hex_InvalidByteError p))
      | Some _ => ([], Some hex_ErrLength)
      end
  | String p (String q rest) =>
      match fromHexChar p, fromHexChar q with
      | None, _ => ([], Some (hex_InvalidByteError p))
      | Some _, None => ([], Some (hex_InvalidByteError q))
      | Some a, Some b =>
          let '(bs, err) := hex_DecodeString rest in
          (byte_of_N (a * 16 + b) :: bs, err)
      end
  end.

Definition hexDigit (n : N) : ascii :=
  if (n <? 10)%N then ascii_of_N (48 + n) else ascii_of_N (97 + (n - 10)).

(** [hex.EncodeToString] *)
Fixpoint hex_EncodeToString (src : list byte) : string :=
  match src with
  | [] => EmptyString
  | b :: rest =>
      let n := Byte.to_N b in
      String (hexDigit (n / 16)) (String (hexDigit (n mod 16)) (hex_EncodeToString rest))
  end.

(** [bytes.Equal]; a nil slice and an empty one are both [[]]. *)
Fixpoint bytes_Equal (a b : list byte) : bool :=
  match a, b with
  | [], [] => true
  | x :: a', y :: b' => Byte.eqb x y && bytes_Equal a' b'
  | _, _ => false
  end.

Definition is_nil (err : option error) : bool :=
  match err with
  | None => true
  | Some _ => false
  end.

(** ** The outside world of main.go *)

(** Values of go-backblaze and of the external-remote library.  Only the
    fields the program reads are kept. *)
Record Credentials : Type :=
  { AccountID : string; ApplicationKey : string }.

(** [*backblaze.B2] and [*backblaze.Bucket]: handles the client gives out. *)
Record B2 : Type := { b2_account : string }.
Record Bucket : Type := { BucketName : string; BucketID : string }.

Inductive BucketType : Type := AllPublic | AllPrivate.

(** An entry of [ListFilesResponse.Files]. *)
Record FileStatus : Type := { Name : string; ID : string }.
Record ListFilesResponse : Type := { Files : list FileStatus }.

(** [*backblaze.File], the answer of [GetFileInfo]. *)
Record File : Type := { File_ID : string; ContentSha1 : string }.

(** [*os.File] *)
Record osFile : Type := { fd : Z }.

Inductive Availability : Type := AvailabilityGlobal | AvailabilityLocal.

(** The calls the adapter makes, in the order it makes them. *)
Inductive Event : Type :=
| EvGetConfig (name : string)
| EvNewB2 (c : Credentials)
| EvBucket (bucketName : string)
| EvStderr (format : string) (args : list string)
| EvCreateBucket (bucketName : string) (bucketType : BucketType)
| EvOpen (file : string)
| EvClose (fh : osFile)
| EvCopySha1 (fh : osFile)
| EvSeek (fh : osFile) (offset : Z) (whence : Z)
| EvListFileNames (b : Bucket) (startFileName : string) (maxFileCount : Z)
| EvGetFileInfo (b : Bucket) (fileID : string)
| EvDeleteFileVersion (b : Bucket) (fileName fileID : string)
| EvUploadHashedFile (b : Bucket) (name : string) (fh : osFile)
    (sha1Hash : string) (contentLength : Z).

(** What the world answers.  A Go result [(x, err)] is a pair; a pointer
    result is an [option] ([None] is [nil]).  Every call may change the world,
    and with it the clock. *)
Class World (W : Type) : Type :=
  { (* e.GetConfig(name) on the control channel, os.Getenv(name) *)
    external_GetConfig : string -> W -> (string * option error) * W;
    os_Getenv : string -> W -> string;
    (* go-backblaze *)
    backblaze_NewB2 : Credentials -> W -> (option B2 * option error) * W;
    b2_Bucket : B2 -> string -> W -> (option Bucket * option error) * W;
    b2_CreateBucket :
      B2 -> string -> BucketType -> W -> (option Bucket * option error) * W;
    bucket_ListFileNames :
      Bucket -> string -> Z -> W -> (option ListFilesResponse * option error) * W;
    bucket_GetFileInfo : Bucket -> string -> W -> (option File * option error) * W;
    bucket_DeleteFileVersion : Bucket -> string -> string -> W -> option error * W;
    bucket_UploadHashedFile :
      Bucket -> string -> osFile -> string -> Z -> W -> option error * W;
    (* the local file: os.Open, fh.Close, fh.Seek, and io.Copy(sha, fh), which
       answers the number of bytes copied, the digest sha.Sum(nil) then gives,
       and the error *)
    os_Open : string -> W -> (osFile + error) * W;
    file_Close : osFile -> W -> W;
    file_Seek : osFile -> Z -> Z -> W -> option error * W;
    io_Copy_sha1 : osFile -> W -> (Z * list byte * option error) * W;
    (* time.Now() *)
    time_Now : W -> Time }.

(** A world that answers every call the same way and never changes; used to
    run the adapter on concrete inputs. *)
Record Fake : Type :=
  { fk_now : Time;
    fk_config : string -> string * option error;
    fk_env : string -> string;
    fk_newb2 : option B2 * option error;
    fk_bucket : option Bucket * option error;
    fk_create : option Bucket * option error;
    fk_list : option ListFilesResponse * option error;
    fk_info : option File * option error;
    fk_delete : option error;
    fk_upload : option error;
    fk_open : osFile + error;
    fk_seek : option error;
    fk_copy : Z * list byte * option error }.

#[global] Instance Fake_World : World Fake :=
  {| external_GetConfig := fun name w => (fk_config w name, w);
     os_Getenv := fun name w => fk_env w name;
     backblaze_NewB2 := fun _ w => (fk_newb2 w, w);
     b2_Bucket := fun _ _ w => (fk_bucket w, w);
     b2_CreateBucket := fun _ _ _ w => (fk_create w, w);
     bucket_ListFileNames := fun _ _ _ w => (fk_list w, w);
     bucket_GetFileInfo := fun _ _ w => (fk_info w, w);
     bucket_DeleteFileVersion := fun _ _ _ w => (fk_delete w, w);
     bucket_UploadHashedFile := fun _ _ _ _ _ w => (fk_upload w, w);
     os_Open := fun _ w => (fk_open w, w);
     file_Close := fun _ w => w;
     file_Seek := fun _ _ _ w => (fk_seek w, w);
     io_Copy_sha1 := fun _ w => (fk_copy w, w);
     time_Now := fk_now |}.

(** ** main.go *)

(** [type B2Ext struct { bucket; prefix; lastList struct { setAt; file; found; id } }];
    the fields of [lastList] carry the prefix [ll_]. *)
Record lastListT : Type :=
  { ll_setAt : Time; ll_file : string; ll_found : bool; ll_id : string }.

Record B2Ext : Type :=
  { bucket : option Bucket; prefix : string; lastList : lastListT }.

(** [&B2Ext{}], the receiver [main] starts with. *)
Definition B2Ext_zero : B2Ext :=
  {| bucket := None;
     prefix := "";
     lastList :=
       {| ll_setAt := zeroTime; ll_file := ""; ll_found := false; ll_id := "" |} |}.

(** The variables the hashing goroutine of [Store] writes and the main path
    reads after [<-shaReady]. *)
Record shaVars : Type :=
  { haveSHA : list byte; contentLength : Z; shaError : option error }.

Section Adapter.

Context {W : Type} `{World W}.

(** The state a method runs in, and how it can end: by returning, or by the
    run-time panic of calling through a nil pointer. *)
Record St : Type := mkSt { be : B2Ext; world : W; log : list Event }.

Inductive Res (A : Type) : Type :=
| Done (a : A) (s : St)
| Panic (s : St).
Arguments Panic {A} s.

Definition M (A : Type) : Type := St -> Res A.

Definition ret {A} (a : A) : M A := fun s => Done a s.

Definition bind {A B} (m : M A) (k : A -> M B) : M B :=
  fun s =>
    match m s with
    | Done a s' => k a s'
    | Panic s' => Panic s'
    end.

Definition panic {A} : M A := fun s => Panic s.

(** An outside call: logged, answered by the world. *)
Definition call {A} (ev : Event) (f : W -> A * W) : M A :=
  fun s =>
    let '(a, w') := f (world s) in
    Done a {| be := be s; world := w'; log := log s ++ [ev] |}.

Definition effect (ev : Event) (f : W -> W) : M unit :=
  call ev (fun w => (tt, f w)).

(** Reading the process environment or the clock. *)
Definition ask {A} (f : W -> A) : M A := fun s => Done (f (world s)) s.

Definition getBe : M B2Ext := fun s => Done (be s) s.

Definition setBe (b : B2Ext) : M unit :=
  fun s => Done tt {| be := b; world := world s; log := log s |}.

(** [defer cleanup]: the cleanup runs when the body is left, also by panic. *)
Definition defer {A} (cleanup : M unit) (body : M A) : M A :=
  fun s =>
    match body s with
    | Done a s' =>
        match cleanup s' with
        | Done _ s'' => Done a s''
        | Panic s'' => Panic s''
        end
    | Panic s' =>
        match cleanup s' with
        | Done _ s'' => Panic s''
        | Panic s'' => Panic s''
        end
    end.

End Adapter.

Arguments Panic {W A} s.
Arguments St W : clear implicits.
Arguments M W A : clear implicits.
Arguments Res W A : clear implicits.

Declare Scope go_scope.
Delimit Scope go_scope with go.
Notation "x <- c ;; k" := (bind c (fun x => k))
  (at level 61, c at next level, right associativity) : go_scope.
Notation "' pat <- c ;; k" := (bind c (fun x => match x with pat => k end))
  (at level 61, pat pattern, c at next level, right associativity) : go_scope.
Notation "c ;; k" := (bind c (fun _ => k))
  (at level 61, right associativity) : go_scope.

Section Methods.

Context {W : Type} `{World W}.

Local Open Scope go_scope.

(** [be.bucket.Method(...)]: the receiver must not be nil. *)
Definition the_bucket : M W Bucket :=
  b <- getBe ;;
  match bucket b with
  | Some bk => ret bk
  | None => panic
  end.

Definition GetConfig (name : string) : M W (string * option error) :=
  call (EvGetConfig name) (external_GetConfig name).

(** [func authenticate(e *external.External)], returning a [*backblaze.B2] and an error *)
Definition authenticate : M W (option B2 * option error) :=
  '(accountID, err) <- GetConfig "accountid" ;;
  match err with
  | Some e => ret (None, Some e)
  | None =>
  accountID <- (if (accountID =? "")%string
                then ask (os_Getenv "B2_ACCOUNT_ID") else ret accountID) ;;
  if (accountID =? "")%string
  then ret (None, Some (errors_New "You must set accountid to the backblaze account id"))
  else
  '(appKey, err) <- GetConfig "appkey" ;;
  match err with
  | Some e => ret (None, Some e)
  | None =>
  appKey <- (if (appKey =? "")%string
             then ask (os_Getenv "B2_APP_KEY") else ret appKey) ;;
  if (appKey =? "")%string
  then ret (None, Some (errors_New "You must set appkey to the backblaze application key"))
  else
  let creds := {| AccountID := accountID; ApplicationKey := appKey |} in
  '(b2, err) <- call (EvNewB2 creds) (backblaze_NewB2 creds) ;;
  match err with
  | Some e => ret (None, Some (fmt_Errorf "Couldn't authorize: %v" [inr e]))
  | None => ret (b2, None)
  end
  end
  end.

(** [func getBucketConfig(e *external.External) (bucket string, prefix string, err error)] *)
Definition getBucketConfig : M W (string * string * option error) :=
  '(bucket, err) <- GetConfig "bucket" ;;
  match err with
  | Some e => ret ("", "", Some e)
  | None =>
  if (bucket =? "")%string
  then ret ("", "", Some (errors_New "You must set bucket to the bucket name"))
  else
  '(prefix, err) <- GetConfig "prefix" ;;
  (* prefix == "" is ok. *)
  let prefix :=
    if negb (prefix =? "")%string && negb (strings_HasSuffix prefix "/")
    then (prefix ++ "/")%string else prefix in
  ret (bucket, prefix, None)
  end.

(** [func (be *B2Ext) listFileCached(file string) (found bool, fileID string, err error)] *)
Definition listFileCached (file : string) : M W (bool * string * option error) :=
  b <- getBe ;;
  now <- ask time_Now ;;
  if negb (ll_file (lastList b) =? file)%string
     || (time_Sub now (ll_setAt (lastList b)) >? time_Second * 15)
  then
    bk <- the_bucket ;;
    '(res, err) <- call (EvListFileNames bk file 1) (bucket_ListFileNames bk file 1) ;;
    match err with
    | Some e => ret (false, "", Some e)
    | None =>
    match res with
    | None => panic
    | Some res =>
    now <- ask time_Now ;;
    b <- getBe ;;
    let slot :=
      match Files res with
      | [] =>
          {| ll_setAt := now; ll_file := file; ll_found := false; ll_id := "" |}
      | f :: _ =>
          if negb (Name f =? file)%string
          then {| ll_setAt := now; ll_file := file; ll_found := false; ll_id := "" |}
          else {| ll_setAt := now; ll_file := file; ll_found := true; ll_id := ID f |}
      end in
    setBe {| bucket := bucket b; prefix := prefix b; lastList := slot |} ;;
    ret (ll_found slot, ll_id slot, None)
    end
    end
  else
    ret (ll_found (lastList b), ll_id (lastList b), None).

(** [func (be *B2Ext) clearListFileCache()] *)
Definition clearListFileCache : M W unit :=
  b <- getBe ;;
  setBe {| bucket := bucket b;
           prefix := prefix b;
           lastList :=
             {| ll_setAt := zeroTime; ll_file := ""; ll_found := false; ll_id := "" |} |}.

(** [func (be *B2Ext) setup(e *external.External, canCreateBucket bool) error] *)
Definition setup (canCreateBucket : bool) : M W (option error) :=
  b <- getBe ;;
  match bucket b with
  | Some _ =>
      (* already done! *)
      ret None
  | None =>
  '(b2, err) <- authenticate ;;
  match err with
  | Some e => ret (Some e)
  | None =>
  '(bucketName, prefix, err) <- getBucketConfig ;;
  match err with
  | Some e => ret (Some e)
  | None =>
  match b2 with
  | None => panic
  | Some b2 =>
  '(bucket, err) <- call (EvBucket bucketName) (b2_Bucket b2 bucketName) ;;
  match err with
  | Some e =>
      ret (Some (fmt_Errorf "couldn't open bucket %#v: %v" [inl bucketName; inr e]))
  | None =>
  r <- match bucket with
       | Some bk => ret (inl (Some bk))
       | None =>
           if negb canCreateBucket
           then ret (inr (fmt_Errorf "bucket %#v does not exist anymore" [inl bucketName]))
           else
             call (EvStderr "Creating private B2 bucket %#v\n" [bucketName])
                  (fun w => (tt, w)) ;;
             '(bucket, err) <- call (EvCreateBucket bucketName AllPrivate)
                                    (b2_CreateBucket b2 bucketName AllPrivate) ;;
             match err with
             | Some e =>
                 ret (inr (fmt_Errorf "couldn't create bucket %#v: %v"
                                      [inl bucketName; inr e]))
             | None => ret (inl bucket)
             end
       end ;;
  match r with
  | inr e => ret (Some e)
  | inl bucket =>
      b <- getBe ;;
      setBe {| bucket := bucket; prefix := prefix; lastList := lastList b |} ;;
      ret None
  end
  end
  end
  end
  end
  end.

(** [func (be *B2Ext) InitRemote(e *external.External) error] *)
Definition InitRemote : M W (option error) := setup true.

(** [func (be *B2Ext) Prepare(e *external.External) error] *)
Definition Prepare : M W (option error) := setup false.

(** The function literal [Store] starts with [go]: it hashes the open file and
    rewinds it.  Its variables are read by the main path only after
    [<-shaReady], so the embedding runs it to completion where it is
    started. *)
Definition hashTask (fh : osFile) : M W shaVars :=
  '(n, digest, err) <- call (EvCopySha1 fh) (io_Copy_sha1 fh) ;;
  match err with
  | Some e => ret {| haveSHA := []; contentLength := n; shaError := Some e |}
  | None =>
      serr <- call (EvSeek fh 0 0) (file_Seek fh 0 0) ;;
      ret {| haveSHA := digest; contentLength := n; shaError := serr |}
  end.

(** [func (be *B2Ext) Store(e *external.External, key, file string) error] *)
Definition Store (key file : string) : M W (option error) :=
  opened <- call (EvOpen file) (os_Open file) ;;
  match opened with
  | inr err => ret (Some err)
  | inl fh =>
  defer (effect (EvClose fh) (file_Close fh)) (
  sha <- hashTask fh ;;
  (* from [<-shaReady] before the upload to the end of the function *)
  let upload : M W (option error) :=
    match shaError sha with
    | Some e =>
        ret (Some (fmt_Errorf "couldn't hash local file %v: %v" [inl file; inr e]))
    | None =>
        b <- getBe ;;
        bk <- the_bucket ;;
        err <- call (EvUploadHashedFile bk (prefix b ++ key)%string fh
                       (hex_EncodeToString (haveSHA sha)) (contentLength sha))
                    (bucket_UploadHashedFile bk (prefix b ++ key)%string fh
                       (hex_EncodeToString (haveSHA sha)) (contentLength sha)) ;;
        clearListFileCache ;;
        match err with
        | Some e => ret (Some (fmt_Errorf "couldn't upload file: %v" [inr e]))
        | None => ret None
        end
    end in
  b <- getBe ;;
  '(found, fileID, err) <- listFileCached (prefix b ++ key)%string ;;
  match err with
  | Some e => ret (Some (fmt_Errorf "couldn't list filenames: %v" [inr e]))
  | None =>
  if found then
    (* file probably already stored; make sure using the SHA1 *)
    bk <- the_bucket ;;
    '(b2file, err) <- call (EvGetFileInfo bk fileID) (bucket_GetFileInfo bk fileID) ;;
    match err with
    | Some e =>
        ret (Some (fmt_Errorf "couldn't get file info for %#v: %v" [inl fileID; inr e]))
    | None =>
    match b2file with
    | None => upload
    | Some b2file =>
        let '(wantSHA, err) := hex_DecodeString (ContentSha1 b2file) in
        if is_nil err && bytes_Equal (haveSHA sha) wantSHA then
          (* File already exists with correct data. *)
          ret None
        else
          (* File exists but is the incorrect data. Delete the old version
             first; B2 will keep the old version around otherwise. *)
          b <- getBe ;;
          bk <- the_bucket ;;
          err <- call (EvDeleteFileVersion bk (prefix b ++ key)%string (File_ID b2file))
                      (bucket_DeleteFileVersion bk (prefix b ++ key)%string
                         (File_ID b2file)) ;;
          match err with
          | Some e =>
              ret (Some (fmt_Errorf "couldn't delete old file version: %v" [inr e]))
          | None => upload
          end
    end
    end
  else upload
  end)
  end.

(** [func (be *B2Ext) CheckPresent(e *external.External, key string) (bool, error)] *)
Definition CheckPresent (key : string) : M W (bool * option error) :=
  b <- getBe ;;
  '(found, _, err) <- listFileCached (prefix b ++ key)%string ;;
  match err with
  | Some e => ret (false, Some (fmt_Errorf "couldn't list filenames: %v" [inr e]))
  | None => ret (found, None)
  end.

(** [func (be *B2Ext) Remove(e *external.External, key string) error] *)
Definition Remove (key : string) : M W (option error) :=
  b <- getBe ;;
  '(found, fileID, err) <- listFileCached (prefix b ++ key)%string ;;
  match err with
  | Some e => ret (Some (fmt_Errorf "couldn't list filenames: %v" [inr e]))
  | None =>
  if negb found then
    (* File already non-existent, nothing to remove *)
    ret None
  else
    b <- getBe ;;
    bk <- the_bucket ;;
    err <- call (EvDeleteFileVersion bk (prefix b ++ key)%string fileID)
                (bucket_DeleteFileVersion bk (prefix b ++ key)%string fileID) ;;
    clearListFileCache ;;
    match err with
    | Some e => ret (Some (fmt_Errorf "couldn't delete file version: %v" [inr e]))
    | None => ret None
    end
  end.

(** [func (be *B2Ext) GetCost(e *external.External) (int, error)] *)
Definition GetCost : M W (Z * option error) :=
  ret (0, Some ErrUnsupportedRequest).

(** [func (be *B2Ext) GetAvailability(e *external.External) (external.Availability, error)] *)
Definition GetAvailability : M W (Availability * option error) :=
  ret (AvailabilityGlobal, None).

(** [func (be *B2Ext) WhereIs(e *external.External, key string) (string, error)] *)
Definition WhereIs (key : string) : M W (string * option error) :=
  ret ("", Some ErrUnsupportedRequest).

End Methods.

(** ** main.go before the cache

    The revision of [main.go] without [lastList]: [Store], [CheckPresent] and
    [Remove] list the file names themselves; [authenticate],
    [getBucketConfig], [setup], [InitRemote], [Prepare], [GetCost],
    [GetAvailability] and [WhereIs] read as above. *)
Module Uncached.

Section Methods.

Context {W : Type} `{World W}.

Local Open Scope go_scope.

(** [func (be *B2Ext) Store(e *external.External, key, file string) error] *)
Definition Store (key file : string) : M W (option error) :=
  opened <- call (EvOpen file) (os_Open file) ;;
  match opened with
  | inr err => ret (Some err)
  | inl fh =>
  defer (effect (EvClose fh) (file_Close fh)) (
  sha <- hashTask fh ;;
  let upload : M W (option error) :=
    match shaError sha with
    | Some e =>
        ret (Some (fmt_Errorf "couldn't hash local file %v: %v" [inl file; inr e]))
    | None =>
        b <- getBe ;;
        bk <- the_bucket ;;
        err <- call (EvUploadHashedFile bk (prefix b ++ key)%string fh
                       (hex_EncodeToString (haveSHA sha)) (contentLength sha))
                    (bucket_UploadHashedFile bk (prefix b ++ key)%string fh
                       (hex_EncodeToString (haveSHA sha)) (contentLength sha)) ;;
        match err with
        | Some e => ret (Some (fmt_Errorf "couldn't upload file: %v" [inr e]))
        | None => ret None
        end
    end in
  b <- getBe ;;
  bk <- the_bucket ;;
  '(res, err) <- call (EvListFileNames bk (prefix b ++ key)%string 1)
                      (bucket_ListFileNames bk (prefix b ++ key)%string 1) ;;
  match err with
  | Some e => ret (Some (fmt_Errorf "couldn't list filenames: %v" [inr e]))
  | None =>
  match res with
  | None => panic
  | Some res =>
  match Files res with
  | [] => upload
  | f :: _ =>
  if (Name f =? prefix b ++ key)%string then
    (* file probably already stored; make sure using the SHA1 *)
    bk <- the_bucket ;;
    '(b2file, err) <- call (EvGetFileInfo bk (ID f)) (bucket_GetFileInfo bk (ID f)) ;;
    match err with
    | Some e =>
        ret (Some (fmt_Errorf "couldn't get file info for %#v: %v" [inl (ID f); inr e]))
    | None =>
    match b2file with
    | None => upload
    | Some b2file =>
        let '(wantSHA, err) := hex_DecodeString (ContentSha1 b2file) in
        if is_nil err && bytes_Equal (haveSHA sha) wantSHA then
          ret None
        else
          b <- getBe ;;
          bk <- the_bucket ;;
          err <- call (EvDeleteFileVersion bk (prefix b ++ key)%string (File_ID b2file))
                      (bucket_DeleteFileVersion bk (prefix b ++ key)%string
                         (File_ID b2file)) ;;
          match err with
          | Some e =>
              ret (Some (fmt_Errorf "couldn't delete old file version: %v" [inr e]))
          | None => upload
          end
    end
    end
  else upload
  end
  end
  end)
  end.


(** [func (be *B2Ext) CheckPresent(e *external.External, key string) (bool, error)] *)
Definition CheckPresent (key : string) : M W (bool * option error) :=
  b <- getBe ;;
  bk <- the_bucket ;;
  '(res, err) <- call (EvListFileNames bk (prefix b ++ key)%string 1)
                      (bucket_ListFileNames bk (prefix b ++ key)%string 1) ;;
  match err with
  | Some e => ret (false, Some (fmt_Errorf "couldn't list filenames: %v" [inr e]))
  | None =>
  match res with
  | None => panic
  | Some res =>
  match Files res with
  | [] => ret (false, None)
  | f :: _ =>
      if negb (Name f =? prefix b ++ key)%string
      then ret (false, None)
      else ret (true, None)
  end
  end
  end.

(** [func (be *B2Ext) Remove(e *external.External, key string) error] *)
Definition Remove (key : string) : M W (option error) :=
  b <- getBe ;;
  bk <- the_bucket ;;
  '(res, err) <- call (EvListFileNames bk (prefix b ++ key)%string 1)
                      (bucket_ListFileNames bk (prefix b ++ key)%string 1) ;;
  match err with
  | Some e => ret (Some (fmt_Errorf "couldn't list filenames: %v" [inr e]))
  | None =>
  match res with
  | None => panic
  | Some res =>
  match Files res with
  | [] =>
      (* File already non-existent, nothing to remove *)
      ret None
  | f :: _ =>
      if negb (Name f =? prefix b ++ key)%string
      then ret None
      else
        bk <- the_bucket ;;
        err <- call (EvDeleteFileVersion bk (Name f) (ID f))
                    (bucket_DeleteFileVersion bk (Name f) (ID f)) ;;
        match err with
        | Some e => ret (Some (fmt_Errorf "couldn't delete file version: %v" [inr e]))
        | None => ret None
        end
  end
  end
  end.

End Methods.

End Uncached.

(** ** Observing a run *)

Section Observing.

Context {W : Type} `{World W}.

Definition state_of {A} (r : Res W A) : St W :=
  match r with
  | Done _ s => s
  | Panic s => s
  end.

Definition result_of {A} (r : Res W A) : option A :=
  match r with
  | Done a _ => Some a
  | Panic _ => None
  end.

(** A method called on receiver [b] in world [w], with an empty log. *)
Definition run {A} (m : M W A) (b : B2Ext) (w : W) : Res W A :=
  m {| be := b; world := w; log := [] |}.

End Observing.

Definition is_upload (e : Event) : bool :=
  match e with
  | EvUploadHashedFile _ _ _ _ _ => true
  | _ => false
  end.

Definition is_delete (e : Event) : bool :=
  match e with
  | EvDeleteFileVersion _ _ _ => true
  | _ => false
  end.

Definition is_lookup (e : Event) : bool :=
  match e with
  | EvListFileNames _ _ _ => true
  | _ => false
  end.

(** Configuration queries, authentication, bucket open and create. *)
Definition is_setup_call (e : Event) : bool :=
  match e with
  | EvGetConfig _ | EvNewB2 _ | EvBucket _ | EvCreateBucket _ _ => true
  | _ => false
  end.

Definition count (p : Event -> bool) (tr : list Event) : nat :=
  List.length (filter p tr).

(** The empty slot [clearListFileCache] leaves. *)
Definition cleared : lastListT :=
  {| ll_setAt := zeroTime; ll_file := ""; ll_found := false; ll_id := "" |}.

(** ** Concrete inputs *)

Definition mydata : Bucket := {| BucketName := "mydata"; BucketID := "4a48fe8875c6214145260818" |}.

(** SHA-1 of the empty file, and of the file holding the one byte [a]. *)
Definition sha_empty_hex : string := "da39a3ee5e6b4b0d3255bfef95601890afd80709".
Definition sha_a_hex : string := "86f7e437faa5a7fce15d1ddcb9eaeaea377667b8".
Definition sha_empty : list byte := fst (hex_DecodeString sha_empty_hex).

Definition boom : error := errors_New "connection reset by peer".

(** Some instant in 2016, in nanoseconds since year 1. *)
Definition t2016 : Time := 63600000000 * time_Second.

(** A configured adapter with prefix [raw/], a world in which everything
    works: the key [KEY1] is stored remotely as version [v1] with the content
    of the (empty) local file. *)
Definition be_ready : B2Ext :=
  {| bucket := Some mydata; prefix := "raw/"; lastList := cleared |}.

Definition fake_ok : Fake :=
  {| fk_now := t2016;
     fk_config := fun name =>
       if (name =? "bucket")%string then ("mydata", None)
       else if (name =? "prefix")%string then ("raw", None)
       else if (name =? "accountid")%string then ("0123456789ab", None)
       else ("K001secret", None);
     fk_env := fun _ => "";
     fk_newb2 := (Some {| b2_account := "0123456789ab" |}, None);
     fk_bucket := (Some mydata, None);
     fk_create := (Some mydata, None);
     fk_list := (Some {| Files := [ {| Name := "raw/KEY1"; ID := "v1" |} ] |}, None);
     fk_info := (Some {| File_ID := "v1"; ContentSha1 := sha_empty_hex |}, None);
     fk_delete := None;
     fk_upload := None;
     fk_open := inl {| fd := 3 |};
     fk_seek := None;
     fk_copy := (0, sha_empty, None) |}.

(** ** Vocabulary of the statements *)

(** The slot [listFileCached] records for the answer [res] to a listing of
    [file] read at time [now]. *)
Definition slot_of (now : Time) (file : string) (res : ListFilesResponse) : lastListT :=
  match Files res with
  | [] => {| ll_setAt := now; ll_file := file; ll_found := false; ll_id := "" |}
  | f :: _ =>
      if (Name f =? file)%string
      then {| ll_setAt := now; ll_file := file; ll_found := true; ll_id := ID f |}
      else {| ll_setAt := now; ll_file := file; ll_found := false; ll_id := "" |}
  end.

(** The time elapsed since the slot of [b] was set, read at [now]. *)
Definition elapsed (b : B2Ext) (now : Time) : Duration :=
  time_Sub now (ll_setAt (lastList b)).

(** The hash the remote side stores for [f] is, byte for byte, [h]. *)
Definition stored_hash_is (f : File) (h : list byte) : Prop :=
  hex_DecodeString (ContentSha1 f) = (h, None).

(** A result that signals "not supported". *)
Definition signals_unsupported {W A} (r : Res W (A * option error)) : Prop :=
  exists a s, r = Done (a, Some ErrUnsupportedRequest) s.

(** Setup calls one after the other; [true] is [InitRemote], [false] is
    [Prepare]. *)
Fixpoint setup_all {W} `{World W} (modes : list bool) : M W (list (option error)) :=
  match modes with
  | [] => ret []
  | canCreateBucket :: rest =>
      bind (setup canCreateBucket) (fun r =>
      bind (setup_all rest) (fun rs => ret (r :: rs)))
  end.

(** ** More concrete inputs *)

(** The adapter of [be_ready] right after a listing found [raw/KEY1]. *)
Definition be_cached : B2Ext :=
  {| bucket := Some mydata;
     prefix := "raw/";
     lastList :=
       {| ll_setAt := t2016; ll_file := "raw/KEY1"; ll_found := true; ll_id := "v1" |} |}.

Definition later (d : Duration) (w : Fake) : Fake :=
  {| fk_now := fk_now w + d;
     fk_config := fk_config w; fk_env := fk_env w; fk_newb2 := fk_newb2 w;
     fk_bucket := fk_bucket w; fk_create := fk_create w; fk_list := fk_list w;
     fk_info := fk_info w; fk_delete := fk_delete w; fk_upload := fk_upload w;
     fk_open := fk_open w; fk_seek := fk_seek w; fk_copy := fk_copy w |}.

(** The remote version holds other content than the local file. *)
Definition fake_differs : Fake :=
  {| fk_now := t2016;
     fk_config := fk_config fake_ok; fk_env := fk_env fake_ok;
     fk_newb2 := fk_newb2 fake_ok; fk_bucket := fk_bucket fake_ok;
     fk_create := fk_create fake_ok; fk_list := fk_list fake_ok;
     fk_info := (Some {| File_ID := "v1"; ContentSha1 := sha_a_hex |}, None);
     fk_delete := None; fk_upload := None;
     fk_open := fk_open fake_ok; fk_seek := None; fk_copy := fk_copy fake_ok |}.

(** ... and deleting that version fails. *)
Definition fake_delete_fails : Fake :=
  {| fk_now := t2016;
     fk_config := fk_config fake_ok; fk_env := fk_env fake_ok;
     fk_newb2 := fk_newb2 fake_ok; fk_bucket := fk_bucket fake_ok;
     fk_create := fk_create fake_ok; fk_list := fk_list fake_ok;
     fk_info := fk_info fake_differs;
     fk_delete := Some boom; fk_upload := None;
     fk_open := fk_open fake_ok; fk_seek := None; fk_copy := fk_copy fake_ok |}.

(** The upload fails; nothing of that name is stored yet. *)
Definition fake_upload_fails : Fake :=
  {| fk_now := t2016;
     fk_config := fk_config fake_ok; fk_env := fk_env fake_ok;
     fk_newb2 := fk_newb2 fake_ok; fk_bucket := fk_bucket fake_ok;
     fk_create := fk_create fake_ok;
     fk_list := (Some {| Files := [] |}, None);
     fk_info := (None, None);
     fk_delete := None; fk_upload := Some boom;
     fk_open := fk_open fake_ok; fk_seek := None; fk_copy := fk_copy fake_ok |}.

(** Reading the local file fails while it is hashed, and the remote version
    carries no hash. *)
Definition fake_hash_fails : Fake :=
  {| fk_now := t2016;
     fk_config := fk_config fake_ok; fk_env := fk_env fake_ok;
     fk_newb2 := fk_newb2 fake_ok; fk_bucket := fk_bucket fake_ok;
     fk_create := fk_create fake_ok; fk_list := fk_list fake_ok;
     fk_info := (Some {| File_ID := "v1"; ContentSha1 := "" |}, None);
     fk_delete := None; fk_upload := None;
     fk_open := fk_open fake_ok; fk_seek := None;
     fk_copy := (0, [], Some (errors_New "read /tmp/f: input/output error")) |}.

(** Reading fails as above, and the remote version carries a hash. *)
Definition fake_hash_fails_stored : Fake :=
  {| fk_now := t2016;
     fk_config := fk_config fake_ok; fk_env := fk_env fake_ok;
     fk_newb2 := fk_newb2 fake_ok; fk_bucket := fk_bucket fake_ok;
     fk_create := fk_create fake_ok; fk_list := fk_list fake_ok;
     fk_info := fk_info fake_ok;
     fk_delete := None; fk_upload := None;
     fk_open := fk_open fake_ok; fk_seek := None;
     fk_copy := fk_copy fake_hash_fails |}.

(** The file is read and hashed, but rewinding it fails; the remote version
    holds the same content. *)
Definition fake_seek_fails : Fake :=
  {| fk_now := t2016;
     fk_config := fk_config fake_ok; fk_env := fk_env fake_ok;
     fk_newb2 := fk_newb2 fake_ok; fk_bucket := fk_bucket fake_ok;
     fk_create := fk_create fake_ok; fk_list := fk_list fake_ok;
     fk_info := fk_info fake_ok;
     fk_delete := None; fk_upload := None;
     fk_open := fk_open fake_ok;
     fk_seek := Some (errors_New "seek /tmp/f: illegal seek");
     fk_copy := fk_copy fake_ok |}.

(** The bucket does not exist (yet). *)
Definition fake_no_bucket : Fake :=
  {| fk_now := t2016;
     fk_config := fk_config fake_ok; fk_env := fk_env fake_ok;
     fk_newb2 := fk_newb2 fake_ok; fk_bucket := (None, None);
     fk_create := fk_create fake_ok; fk_list := fk_list fake_ok;
     fk_info := fk_info fake_ok;
     fk_delete := None; fk_upload := None;
     fk_open := fk_open fake_ok; fk_seek := None; fk_copy := fk_copy fake_ok |}.

(** The control channel breaks while the prefix is asked for: the three
    other settings arrive, the fourth query answers an error. *)
Definition fake_prefix_error : Fake :=
  {| fk_now := t2016;
     fk_config := fun name =>
       if (name =? "prefix")%string then ("", Some boom) else fk_config fake_ok name;
     fk_env := fk_env fake_ok;
     fk_newb2 := fk_newb2 fake_ok; fk_bucket := fk_bucket fake_ok;
     fk_create := fk_create fake_ok; fk_list := fk_list fake_ok;
     fk_info := fk_info fake_ok;
     fk_delete := None; fk_upload := None;
     fk_open := fk_open fake_ok; fk_seek := None; fk_copy := fk_copy fake_ok |}.

(** ** Proof steps *)

(** Unfold [Store] up to the answer of the existence lookup. *)
Ltac store_to_lookup Hopen Hhash Hbes2 Hlookup :=
  unfold Store, bind; rewrite Hopen; unfold defer, bind; rewrite Hhash;
  unfold getBe at 1; rewrite Hbes2, Hlookup; cbn iota beta.

(** Case analysis on the answer of the next call to the world, or on the
    next test the code makes on an answer, followed by the reduction of the
    code up to the call after that. *)
Ltac next_answer :=
  match goal with
  | |- context [time_Sub ?a ?b >? ?c] => destruct (time_Sub a b >? c)
  | |- context [(?a =? ?b)%string] => destruct (a =? b)%string eqn:?
  | |- context [os_Open ?a ?w] => destruct (os_Open a w) as [[?|?] ?]
  | |- context [io_Copy_sha1 ?a ?w] => destruct (io_Copy_sha1 a w) as [[[? ?] [?|]] ?]
  | |- context [file_Seek ?a ?b ?c ?w] => destruct (file_Seek a b c w) as [[?|] ?]
  | |- context [bucket_ListFileNames ?a ?b ?c ?w] =>
      destruct (bucket_ListFileNames a b c w) as [[[?|] [?|]] ?]
  | |- context [bucket_GetFileInfo ?a ?b ?w] =>
      destruct (bucket_GetFileInfo a b w) as [[[?|] [?|]] ?]
  | |- context [bucket_DeleteFileVersion ?a ?b ?c ?w] =>
      destruct (bucket_DeleteFileVersion a b c w) as [[?|] ?]
  | |- context [bucket_UploadHashedFile ?a ?b ?c ?d ?e ?w] =>
      destruct (bucket_UploadHashedFile a b c d e w) as [[?|] ?]
  | |- context [Files ?r] => destruct (Files r) as [|? ?]
  | |- context [hex_DecodeString ?x] => destruct (hex_DecodeString x) as [? [?|]]
  | |- context [bytes_Equal ?a ?b] => destruct (bytes_Equal a b)
  | |- context [negb ?x] => is_var x; destruct x
  | |- context [match ?x with _ => _ end] => is_var x; destruct x
  end.

Ltac run_step :=
  next_answer;
  cbn [be world log state_of result_of app existsb is_upload is_delete is_lookup
       negb orb andb is_nil bucket prefix lastList fst snd
       ll_setAt ll_file ll_found ll_id haveSHA contentLength shaError].

(** Start of a proof by cases over a whole run: name the fields of the
    receiver, unfold the method and the steps it is made of. *)
Ltac run_cases b :=
  destruct b as [[?bk|] ?pfx [?t0 ?f0 ?fnd0 ?id0]];
  unfold run, Uncached.Store, Store, Remove, CheckPresent, hashTask, listFileCached,
    clearListFileCache, the_bucket, defer, effect, bind, call, ask, getBe, setBe,
    ret, panic;
  cbn [be world log state_of result_of app existsb is_upload is_delete is_lookup
       negb orb andb is_nil bucket prefix lastList fst snd
       ll_setAt ll_file ll_found ll_id haveSHA contentLength shaError];
  repeat run_step.

(** ** Vocabulary of the further properties *)

Definition is_create (e : Event) : bool :=
  match e with
  | EvCreateBucket _ _ => true
  | _ => false
  end.

(** A call on the bucket that names an object names [name], and a listing
    asks for one entry. *)
Definition names_only (name : string) (e : Event) : bool :=
  match e with
  | EvListFileNames _ n m => (n =? name)%string && (m =? 1)
  | EvDeleteFileVersion _ n _ => (n =? name)%string
  | EvUploadHashedFile _ n _ _ _ => (n =? name)%string
  | _ => true
  end.

(** No delete call comes after an upload call. *)
Fixpoint no_delete_after_upload (tr : list Event) : bool :=
  match tr with
  | [] => true
  | e :: rest =>
      (if is_upload e then negb (existsb is_delete rest) else true)
      && no_delete_after_upload rest
  end.


(** The calls of one [Store]: they name [name] only, at most one listing,
    one delete and one upload, and no delete after the upload. *)
Definition store_discipline (name : string) (tr : list Event) : bool :=
  forallb (names_only name) tr
  && (count is_lookup tr <=? 1)%nat
  && (count is_delete tr <=? 1)%nat
  && (count is_upload tr <=? 1)%nat
  && no_delete_after_upload tr.

(** Case analysis on the answer of the next call [setup] makes. *)
Ltac setup_answer :=
  match goal with
  | |- context [(?a =? ?b)%string] => destruct (a =? b)%string eqn:?
  | |- context [strings_HasSuffix ?a ?b] => destruct (strings_HasSuffix a b) eqn:?
  | |- context [external_GetConfig ?n ?w] =>
      destruct (external_GetConfig n w) as [[? [?|]] ?] eqn:?
  | |- context [backblaze_NewB2 ?c ?w] =>
      destruct (backblaze_NewB2 c w) as [[[?|] [?|]] ?] eqn:?
  | |- context [b2_Bucket ?a ?n ?w] =>
      destruct (b2_Bucket a n w) as [[[?|] [?|]] ?] eqn:?
  | |- context [b2_CreateBucket ?a ?n ?t ?w] =>
      destruct (b2_CreateBucket a n t w) as [[[?|] [?|]] ?] eqn:?
  | |- context [match ?x with _ => _ end] => is_var x; destruct x
  end.

Ltac setup_cases :=
  unfold run, InitRemote, Prepare, setup, authenticate, getBucketConfig, GetConfig,
    bind, call, ask, getBe, setBe, ret, panic;
  cbn [be world log state_of result_of app negb andb orb bucket prefix lastList
       fst snd];
  repeat (setup_answer;
          cbn [be world log state_of result_of app negb andb orb bucket prefix
               lastList fst snd]).

(** As [next_answer], keeping what the local file answered. *)
Ltac next_answer_eq :=
  match goal with
  | |- context [os_Open ?a ?w] => destruct (os_Open a w) as [[?|?] ?] eqn:?
  | |- context [io_Copy_sha1 ?a ?w] =>
      destruct (io_Copy_sha1 a w) as [[[? ?] [?|]] ?] eqn:?
  | |- context [file_Seek ?a ?b ?c ?w] =>
      destruct (file_Seek a b c w) as [[?|] ?] eqn:?
  | _ => next_answer
  end.

Ltac run_cases_eq b :=
  destruct b as [[?bk|] ?pfx [?t0 ?f0 ?fnd0 ?id0]];
  unfold run, Store, hashTask, listFileCached,
    clearListFileCache, the_bucket, defer, effect, bind, call, ask, getBe, setBe,
    ret, panic;
  cbn [be world log state_of result_of app existsb is_upload is_delete is_lookup
       negb orb andb is_nil bucket prefix lastList fst snd
       ll_setAt ll_file ll_found ll_id haveSHA contentLength shaError];
  repeat (next_answer_eq;
          cbn [be world log state_of result_of app existsb is_upload is_delete
               is_lookup negb orb andb is_nil bucket prefix lastList fst snd
               ll_setAt ll_file ll_found ll_id haveSHA contentLength shaError]).



(** ** main.go: Retrieve

    [Retrieve] reads the receiver and never writes it; it is the same text in
    both revisions.  Its calls to the world are of their own kind, so it has
    its own log, in which a call that hands out a handle is logged with its
    answer.  [None] as a result is a run-time panic. *)
Module Retrieval.

(** The [io.ReadCloser] a download hands out. *)
Record Body : Type := { body_id : Z }.

Inductive Event : Type :=
| EvCreate (file : string) (answer : osFile + error)
| EvCloseFile (fh : osFile)
| EvDownloadFileByName (b : Bucket) (fileName : string) (rc : option Body)
    (err : option error)
| EvCloseBody (rc : Body)
| EvCopy (fh : osFile) (rc : Body).

(** [os.Create], [bucket.DownloadFileByName] (its first result is dropped by
    the code), [rc.Close], and [io.Copy(fh, external.NewProgressReader(rc, e))],
    which answers the bytes written and the error. *)
Class Downloads (W : Type) : Type :=
  { os_Create : string -> W -> (osFile + error) * W;
    bucket_DownloadFileByName :
      Bucket -> string -> W -> (option Body * option error) * W;
    body_Close : Body -> W -> W;
    io_Copy_progress : osFile -> Body -> W -> (Z * option error) * W }.

(** [func (be *B2Ext) Retrieve(e *external.External, key, file string) error];
    the deferred [rc.Close()] runs before the deferred [fh.Close()]. *)
Definition Retrieve {W : Type} `{World W} `{Downloads W}
  (b : B2Ext) (key file : string) (w : W)
  : option (option error) * W * list Event :=
  match os_Create file w with
  | (inr err, w1) =>
      (Some (Some (fmt_Errorf "couldn't open %v for writing: %v" [inl file; inr err])),
       w1, [EvCreate file (inr err)])
  | (inl fh, w1) =>
      match bucket b with
      | None => (None, file_Close fh w1, [EvCreate file (inl fh); EvCloseFile fh])
      | Some bk =>
          let '((rc, err), w2) :=
            bucket_DownloadFileByName bk (prefix b ++ key)%string w1 in
          let download := EvDownloadFileByName bk (prefix b ++ key)%string rc err in
          match rc, err with
          | Some rc, Some e =>
              (Some (Some e), file_Close fh (body_Close rc w2),
               [EvCreate file (inl fh); download; EvCloseBody rc; EvCloseFile fh])
          | None, Some e =>
              (Some (Some e), file_Close fh w2,
               [EvCreate file (inl fh); download; EvCloseFile fh])
          | None, None =>
              (None, file_Close fh w2,
               [EvCreate file (inl fh); download; EvCloseFile fh])
          | Some rc, None =>
              let '((_, cerr), w3) := io_Copy_progress fh rc w2 in
              (Some cerr, file_Close fh (body_Close rc w3),
               [EvCreate file (inl fh); download; EvCopy fh rc; EvCloseBody rc;
                EvCloseFile fh])
          end
      end
  end.

(** What is open, last opened first. *)
Inductive Handle : Type :=
| HFile (fh : osFile)
| HBody (rc : Body).

Definition same_handle (a b : Handle) : bool :=
  match a, b with
  | HFile x, HFile y => fd x =? fd y
  | HBody x, HBody y => body_id x =? body_id y
  | _, _ => false
  end.

(** A log is balanced from the stack [opened] when every handle handed out is
    closed later, last opened first, a copy uses open handles only, and in the
    end nothing is open. *)
Fixpoint balanced (opened : list Handle) (tr : list Event) : bool :=
  match tr with
  | [] => match opened with [] => true | _ :: _ => false end
  | EvCreate _ (inl fh) :: rest => balanced (HFile fh :: opened) rest
  | EvCreate _ (inr _) :: rest => balanced opened rest
  | EvDownloadFileByName _ _ (Some rc) _ :: rest => balanced (HBody rc :: opened) rest
  | EvDownloadFileByName _ _ None _ :: rest => balanced opened rest
  | EvCopy fh rc :: rest =>
      existsb (same_handle (HFile fh)) opened
      && existsb (same_handle (HBody rc)) opened
      && balanced opened rest
  | EvCloseFile fh :: rest =>
      match opened with
      | h :: opened' => same_handle h (HFile fh) && balanced opened' rest
      | [] => false
      end
  | EvCloseBody rc :: rest =>
      match opened with
      | h :: opened' => same_handle h (HBody rc) && balanced opened' rest
      | [] => false
      end
  end.

Definition is_download (e : Event) : bool :=
  match e with
  | EvDownloadFileByName _ _ _ _ => true
  | _ => false
  end.

(** A world for concrete runs: the download works, the copy to the
    destination fails. *)
Record FakeDownloads : Type :=
  { fd_create : osFile + error;
    fd_download : option Body * option error;
    fd_copy : Z * option error }.

#[global] Instance FakeDownloads_World : World FakeDownloads :=
  {| external_GetConfig := fun _ w => (("", None), w);
     os_Getenv := fun _ _ => "";
     backblaze_NewB2 := fun _ w => ((None, None), w);
     b2_Bucket := fun _ _ w => ((None, None), w);
     b2_CreateBucket := fun _ _ _ w => ((None, None), w);
     bucket_ListFileNames := fun _ _ _ w => ((None, None), w);
     bucket_GetFileInfo := fun _ _ w => ((None, None), w);
     bucket_DeleteFileVersion := fun _ _ _ w => (None, w);
     bucket_UploadHashedFile := fun _ _ _ _ _ w => (None, w);
     os_Open := fun _ w => (inr (errors_New "not used"), w);
     file_Close := fun _ w => w;
     file_Seek := fun _ _ _ w => (None, w);
     io_Copy_sha1 := fun _ w => ((0, [], None), w);
     time_Now := fun _ => 0 |}.

#[global] Instance FakeDownloads_Downloads : Downloads FakeDownloads :=
  {| os_Create := fun _ w => (fd_create w, w);
     bucket_DownloadFileByName := fun _ _ w => (fd_download w, w);
     body_Close := fun _ w => w;
     io_Copy_progress := fun _ _ w => (fd_copy w, w) |}.

Definition disk_full : FakeDownloads :=
  {| fd_create := inl {| fd := 4 |};
     fd_download := (Some {| body_id := 9 |}, None);
     fd_copy := (262144, Some (errors_New "write /tmp/g: no space left on device")) |}.

Definition download_fails : FakeDownloads :=
  {| fd_create := inl {| fd := 4 |};
     fd_download := (None, Some (errors_New "404 not_found"));
     fd_copy := (0, None) |}.

End Retrieval.

(** ** main.go, the first revision

    The revision of [main.go] in which the protocol is spoken by the program
    itself: package-level variables [in], [out], [bucket] and [prefix], the
    functions [getConfig], [prepare], [prepareInternal], [store], [retrieve],
    [checkPresent], [remove], and the command loop in [main].  It is the
    revision [progress.go] belongs to. *)

(** *** package strings, one-byte separators *)

Definition strings_HasPrefix (s p : string) : bool :=
  (String.length p <=? String.length s)%nat
  && (substring 0 (String.length p) s =? p)%string.

Fixpoint drop (n : nat) (s : string) : string :=
  match n, s with
  | O, _ => s
  | S _, EmptyString => EmptyString
  | S n', String _ s' => drop n' s'
  end.

Definition strings_TrimPrefix (s p : string) : string :=
  if strings_HasPrefix s p then drop (String.length p) s else s.

Definition strings_TrimSuffix (s suffix : string) : string :=
  if strings_HasSuffix s suffix
  then substring 0 (String.length s - String.length suffix) s
  else s.

(** [cut c s] is [s[:m]] and [s[m+1:]] for the first index [m] at which [s]
    holds the byte [c]. *)
Fixpoint cut (c : ascii) (s : string) : option (string * string) :=
  match s with
  | EmptyString => None
  | String a rest =>
      if (a =? c)%char then Some (EmptyString, rest)
      else match cut c rest with
           | Some (x, y) => Some (String a x, y)
           | None => None
           end
  end.

(** [strings.SplitN(s, sep, n)] for a separator of one byte. *)
Fixpoint strings_SplitN (s : string) (sep : ascii) (n : nat) : list string :=
  match n with
  | O => []
  | S O => [s]
  | S n' =>
      match cut sep s with
      | Some (x, rest) => x :: strings_SplitN rest sep n'
      | None => [s]
      end
  end.

Definition newline : ascii := "010".
Definition nl : string := String newline EmptyString.

Module Legacy.

(** What is written to [out]: the argument of a [WriteString], the text of
    an error ([err.Error()]), or the line [fmt.Fprintf(.., "PROGRESS %d\n", n)]
    of the progress reader. *)
Inductive Tok : Type :=
| Str (s : string)
| ErrorText (e : error)
| ProgressLine (n : Z).

(** Standard input: the bytes not read yet, and the error that reading past
    them answers ([io.EOF] unless the channel breaks). *)
Record Stdin : Type := { unread : string; at_end : error }.

Definition io_EOF : error := errors_New "EOF".

Definition is_EOF (e : error) : bool :=
  match e with
  | errors_New m => (m =? "EOF")%string
  | _ => false
  end.

(** [in.ReadString('\n')]: up to and with the first newline; without one,
    what is left and the error. *)
Definition bufio_ReadString (i : Stdin) : (string * option error) * Stdin :=
  match cut newline (unread i) with
  | Some (line, rest) => (((line ++ nl)%string, None), {| unread := rest; at_end := at_end i |})
  | None => ((unread i, Some (at_end i)), {| unread := ""; at_end := at_end i |})
  end.

(** The answers the wrapped reader gave, [Read] after [Read], while a
    transfer ran. *)
Definition Script : Type := list (list byte * option error).

#[global] Instance Script_Reader : Progress.Reader Script :=
  {| Progress.io_Read := fun r _ =>
       match r with
       | [] => (([], Some io_EOF), [])
       | answer :: rest => (answer, rest)
       end |}.

(** The reads made through a [ProgressReader] by the two calls that are
    handed one, the upload of the client library and [io.Copy], as the world
    in which the call starts determines them. *)
Class Reads (W : Type) : Type :=
  { upload_reads : Bucket -> string -> osFile -> string -> Z -> W -> Script;
    copy_reads : osFile -> Retrieval.Body -> W -> Script }.

Definition AnyEvent : Type := (Event + Retrieval.Event)%type.

Section Program.

Context {W : Type} `{World W} `{Retrieval.Downloads W} `{Reads W}.

(** The package-level variables, the two streams, and what the program did to
    the world: its calls, and what it logged to standard error.  Of [out],
    [g_pending] is what was written and not flushed yet and [g_stdout] what
    was flushed by the program; that a [bufio.Writer] also flushes by itself
    once 4096 bytes are pending is left out, so that [g_stdout] is what has
    reached standard output at the least. *)
Record G : Type :=
  { g_in : Stdin;
    g_pending : list Tok;
    g_stdout : list Tok;
    g_bucket : option Bucket;
    g_prefix : string;
    g_world : W;
    g_calls : list AnyEvent;
    g_logged : list error }.

(** How a function can end: by returning, by [log.Fatal] (exit), by a
    panic. *)
Inductive LRes (A : Type) : Type :=
| Ok (a : A) (g : G)
| Fatal (g : G)
| Crash (g : G).
Arguments Fatal {A} g.
Arguments Crash {A} g.

Definition LM (A : Type) : Type := G -> LRes A.

Definition lret {A} (a : A) : LM A := fun g => Ok a g.

Definition lbind {A B} (m : LM A) (k : A -> LM B) : LM B :=
  fun g =>
    match m g with
    | Ok a g' => k a g'
    | Fatal g' => Fatal g'
    | Crash g' => Crash g'
    end.

Definition crash {A} : LM A := fun g => Crash g.

(** The package-level [prefix]. *)
Definition prefix_var : LM string := fun g => Ok (g_prefix g) g.

(** [out.WriteString], [out.Flush], [in.ReadString('\n')] *)
Definition out_Write (ts : list Tok) : LM unit :=
  fun g => Ok tt {| g_in := g_in g; g_pending := g_pending g ++ ts;
                    g_stdout := g_stdout g; g_bucket := g_bucket g;
                    g_prefix := g_prefix g; g_world := g_world g;
                    g_calls := g_calls g; g_logged := g_logged g |}.

Definition out_WriteString (s : string) : LM unit := out_Write [Str s].

Definition out_Flush : LM unit :=
  fun g => Ok tt {| g_in := g_in g; g_pending := [];
                    g_stdout := g_stdout g ++ g_pending g; g_bucket := g_bucket g;
                    g_prefix := g_prefix g; g_world := g_world g;
                    g_calls := g_calls g; g_logged := g_logged g |}.

Definition in_ReadString : LM (string * option error) :=
  fun g =>
    let '(answer, i) := bufio_ReadString (g_in g) in
    Ok answer {| g_in := i; g_pending := g_pending g;
                 g_stdout := g_stdout g; g_bucket := g_bucket g;
                 g_prefix := g_prefix g; g_world := g_world g;
                 g_calls := g_calls g; g_logged := g_logged g |}.

(** [log.Printf] and [log.Fatalf] *)
Definition log_Printf (format : string) (args : list (string + error)) : LM unit :=
  fun g => Ok tt {| g_in := g_in g; g_pending := g_pending g;
                    g_stdout := g_stdout g; g_bucket := g_bucket g;
                    g_prefix := g_prefix g; g_world := g_world g;
                    g_calls := g_calls g;
                    g_logged := g_logged g ++ [fmt_Errorf format args] |}.

Definition log_Fatalf {A} (format : string) (args : list (string + error)) : LM A :=
  fun g => Fatal {| g_in := g_in g; g_pending := g_pending g;
                    g_stdout := g_stdout g; g_bucket := g_bucket g;
                    g_prefix := g_prefix g; g_world := g_world g;
                    g_calls := g_calls g;
                    g_logged := g_logged g ++ [fmt_Errorf format args] |}.

(** A call to the world, logged. *)
Definition wcall {A} (ev : AnyEvent) (f : W -> A * W) : LM A :=
  fun g =>
    let '(a, w') := f (g_world g) in
    Ok a {| g_in := g_in g; g_pending := g_pending g;
            g_stdout := g_stdout g; g_bucket := g_bucket g;
            g_prefix := g_prefix g; g_world := w';
            g_calls := g_calls g ++ [ev]; g_logged := g_logged g |}.

Definition wask {A} (f : W -> A) : LM A := fun g => Ok (f (g_world g)) g.

Definition set_prefix (p : string) : LM unit :=
  fun g => Ok tt {| g_in := g_in g; g_pending := g_pending g;
                    g_stdout := g_stdout g; g_bucket := g_bucket g;
                    g_prefix := p; g_world := g_world g;
                    g_calls := g_calls g; g_logged := g_logged g |}.

Definition set_bucket (b : option Bucket) : LM unit :=
  fun g => Ok tt {| g_in := g_in g; g_pending := g_pending g;
                    g_stdout := g_stdout g; g_bucket := b;
                    g_prefix := g_prefix g; g_world := g_world g;
                    g_calls := g_calls g; g_logged := g_logged g |}.

(** [bucket.Method(...)] on the package-level [bucket]. *)
Definition bucket_var : LM Bucket :=
  fun g =>
    match g_bucket g with
    | Some bk => Ok bk g
    | None => Crash g
    end.

(** A deferred call: it runs when the body returns or panics, not on exit.
    The deferred function of [store] and its like reads a variable the body
    sets last; [dflt] is that variable's value while the body has not
    returned. *)
Definition deferred {A} (dflt : A) (cleanup : A -> LM unit) (body : LM A) : LM A :=
  fun g =>
    match body g with
    | Ok a g' =>
        match cleanup a g' with
        | Ok _ g'' => Ok a g''
        | Fatal g'' => Fatal g''
        | Crash g'' => Crash g''
        end
    | Fatal g' => Fatal g'
    | Crash g' =>
        match cleanup dflt g' with
        | Ok _ g'' => Crash g''
        | Fatal g'' => Fatal g''
        | Crash g'' => Crash g''
        end
    end.

End Program.

Arguments G W : clear implicits.
Arguments LM W A : clear implicits.
Arguments LRes W A : clear implicits.
Arguments Fatal {W A} g.
Arguments Crash {W A} g.

Declare Scope legacy_scope.
Delimit Scope legacy_scope with legacy.
Notation "x <- c ;; k" := (lbind c (fun x => k))
  (at level 61, c at next level, right associativity) : legacy_scope.
Notation "' pat <- c ;; k" := (lbind c (fun x => match x with pat => k end))
  (at level 61, pat pattern, c at next level, right associativity) : legacy_scope.
Notation "c ;; k" := (lbind c (fun _ => k))
  (at level 61, right associativity) : legacy_scope.

Section Functions.

Context {W : Type} `{World W} `{Retrieval.Downloads W} `{Reads W}.

Local Open Scope legacy_scope.

(** A call to the world whose log entry holds its answer. *)
Definition wcall_answer {A} (ev : A -> AnyEvent) (f : W -> A * W) : LM W A :=
  fun g =>
    let '(a, w') := f (g_world g) in
    Ok a {| g_in := g_in g; g_pending := g_pending g;
            g_stdout := g_stdout g; g_bucket := g_bucket g;
            g_prefix := g_prefix g; g_world := w';
            g_calls := g_calls g ++ [ev a]; g_logged := g_logged g |}.

(** [func getConfig(name string) string] *)
Definition getConfig (name : string) : LM W string :=
  out_WriteString "GETCONFIG " ;;
  out_WriteString name ;;
  out_WriteString nl ;;
  out_Flush ;;
  '(line, err) <- in_ReadString ;;
  match err with
  | Some e => log_Fatalf "Couldn't get config variable %s: %v" [inl name; inr e]
  | None =>
      let line := strings_TrimSuffix line nl in
      if strings_HasPrefix line "VALUE "
      then lret (strings_TrimPrefix line "VALUE ")
      else lret ""
  end.

(** The part of [prepareInternal] from [backblaze.NewB2] on. *)
Definition connect (accountID appKey bucketName : string) : LM W (option error) :=
  let creds := {| AccountID := accountID; ApplicationKey := appKey |} in
  '(b2, err) <- wcall (inl (EvNewB2 creds)) (backblaze_NewB2 creds) ;;
  match err with
  | Some e => lret (Some (fmt_Errorf "Couldn't authorize: %v" [inr e]))
  | None =>
  match b2 with
  | None => crash
  | Some b2 =>
  '(bk, err) <- wcall (inl (EvBucket bucketName)) (b2_Bucket b2 bucketName) ;;
  set_bucket bk ;;
  match err with
  | Some e =>
      lret (Some (fmt_Errorf "Couldn't open bucket %#v: %v" [inl bucketName; inr e]))
  | None =>
  match bk with
  | Some _ => lret None
  | None =>
      wcall (inl (EvStderr "Creating private B2 bucket %#v\n" [bucketName]))
            (fun w => (tt, w)) ;;
      '(bk, err) <- wcall (inl (EvCreateBucket bucketName AllPrivate))
                          (b2_CreateBucket b2 bucketName AllPrivate) ;;
      set_bucket bk ;;
      match err with
      | Some e =>
          lret (Some (fmt_Errorf "Couldn't create bucket %#v: %v"
                                 [inl bucketName; inr e]))
      | None => lret None
      end
  end
  end
  end
  end.

(** [func prepareInternal() error] *)
Definition prepareInternal : LM W (option error) :=
  accountID <- getConfig "accountid" ;;
  accountID <- (if (accountID =? "")%string
                then wask (os_Getenv "B2_ACCOUNT_ID") else lret accountID) ;;
  if (accountID =? "")%string
  then lret (Some (errors_New "You must set accountid to the backblaze account id"))
  else
  appKey <- getConfig "appkey" ;;
  appKey <- (if (appKey =? "")%string
             then wask (os_Getenv "B2_APP_KEY") else lret appKey) ;;
  if (appKey =? "")%string
  then lret (Some (errors_New "You must set appkey to the backblaze application key"))
  else
  bucketName <- getConfig "bucket" ;;
  if (bucketName =? "")%string
  then lret (Some (errors_New "You must set bucket to the bucket name"))
  else
  p <- getConfig "prefix" ;;
  set_prefix p ;;
  (* prefix == "" is ok. *)
  (if negb (p =? "")%string && negb (strings_HasSuffix p "/")
   then set_prefix (p ++ "/")%string else lret tt) ;;
  connect accountID appKey bucketName.

(** [func prepare(mode string)] *)
Definition prepare (mode : string) : LM W unit :=
  err <- prepareInternal ;;
  match err with
  | Some e => out_Write [Str (mode ++ "-FAILURE ")%string; ErrorText e; Str nl]
  | None => out_WriteString (mode ++ "-SUCCESS" ++ nl)%string
  end.

(** The function literal [store] starts with [go]; as for [Store], it is run
    where it is started.  Here [haveSHA] is set only when the copy and the
    rewind both succeeded, [contentLength] when the copy did. *)
Definition hashing (fh : osFile) : LM W shaVars :=
  '(n, digest, err) <- wcall (inl (EvCopySha1 fh)) (io_Copy_sha1 fh) ;;
  match err with
  | Some e => lret {| haveSHA := []; contentLength := 0; shaError := Some e |}
  | None =>
      serr <- wcall (inl (EvSeek fh 0 0)) (file_Seek fh 0 0) ;;
      match serr with
      | Some e => lret {| haveSHA := []; contentLength := n; shaError := Some e |}
      | None => lret {| haveSHA := digest; contentLength := n; shaError := None |}
      end
  end.

(** What [NewProgressReader(r, out)] does to [out] while a transfer reads
    [r]: the lines [ProgressReader.Read] writes over the reads of the script,
    each flushed as it is written. *)
Fixpoint write_lines (lines : list Progress.Line) : LM W unit :=
  match lines with
  | [] => lret tt
  | Progress.PROGRESS n :: rest =>
      out_Write [ProgressLine n] ;; out_Flush ;; write_lines rest
  end.

Definition lines_of (script : Script) : list Progress.Line :=
  Progress.pr_progress
    (snd (Progress.reads (Progress.NewProgressReader script [])
                         (map (fun _ => 0%nat) script))).

Definition progress_out (script : Script) : LM W unit :=
  write_lines (lines_of script).

(** The deferred function of [store] and of [retrieve]. *)
Definition transfer_response (verb : string) (key : string) (ok : bool) : LM W unit :=
  (if ok
   then out_WriteString ("TRANSFER-SUCCESS " ++ verb ++ " ")%string
   else out_WriteString ("TRANSFER-FAILURE " ++ verb ++ " ")%string) ;;
  out_WriteString key ;;
  out_WriteString nl.

(** [func store(key, file string)] *)
Definition store (key file : string) : LM W unit :=
  (deferred false (transfer_response "STORE" key) (
  opened <- wcall (inl (EvOpen file)) (os_Open file) ;;
  match opened with
  | inr err =>
      log_Printf "Couldn't open %v for reading: %v" [inl file; inr err] ;;
      lret false
  | inl fh =>
  deferred false (fun _ => wcall (inl (EvClose fh)) (fun w => (tt, file_Close fh w))) (
  sha <- hashing fh ;;
  (* from [<-shaReady] before the upload to the end of the function *)
  let upload : LM W bool :=
    match shaError sha with
    | Some e =>
        log_Printf "Couldn't hash local file %v: %v" [inl file; inr e] ;;
        lret false
    | None =>
        pfx <- prefix_var ;;
        bk <- bucket_var ;;
        script <- wask (upload_reads bk (pfx ++ key)%string fh
                          (hex_EncodeToString (haveSHA sha)) (contentLength sha)) ;;
        err <- wcall (inl (EvUploadHashedFile bk (pfx ++ key)%string fh
                             (hex_EncodeToString (haveSHA sha)) (contentLength sha)))
                     (bucket_UploadHashedFile bk (pfx ++ key)%string fh
                        (hex_EncodeToString (haveSHA sha)) (contentLength sha)) ;;
        progress_out script ;;
        match err with
        | Some e => log_Printf "Couldn't upload file: %v" [inr e] ;; lret false
        | None => lret true
        end
    end in
  pfx <- prefix_var ;;
  bk <- bucket_var ;;
  '(res, err) <- wcall (inl (EvListFileNames bk (pfx ++ key)%string 1))
                       (bucket_ListFileNames bk (pfx ++ key)%string 1) ;;
  match err with
  | Some e => log_Printf "Couldn't list filenames: %v" [inr e] ;; lret false
  | None =>
  match res with
  | None => crash
  | Some res =>
  match Files res with
  | [] => upload
  | f :: _ =>
  if (Name f =? pfx ++ key)%string then
    (* file probably already stored; make sure using the SHA1 *)
    bk <- bucket_var ;;
    '(b2file, err) <- wcall (inl (EvGetFileInfo bk (ID f)))
                            (bucket_GetFileInfo bk (ID f)) ;;
    match err with
    | Some e =>
        log_Printf "Couldn't get file info for %v: %v" [inl (ID f); inr e] ;;
        lret false
    | None =>
    match b2file with
    | None => upload
    | Some b2file =>
        let '(wantSHA, err) := hex_DecodeString (ContentSha1 b2file) in
        if is_nil err && bytes_Equal (haveSHA sha) wantSHA then
          lret true
        else
          (* File exists but is the incorrect data. Delete the old version
             first. *)
          pfx <- prefix_var ;;
          bk <- bucket_var ;;
          err <- wcall (inl (EvDeleteFileVersion bk (pfx ++ key)%string
                               (File_ID b2file)))
                       (bucket_DeleteFileVersion bk (pfx ++ key)%string
                          (File_ID b2file)) ;;
          match err with
          | Some e =>
              log_Printf "Couldn't delete old file version: %v" [inr e] ;;
              lret false
          | None => upload
          end
    end
    end
  else upload
  end
  end
  end)
  end)) ;;
  lret tt.

(** [func retrieve(key, file string)] *)
Definition retrieve (key file : string) : LM W unit :=
  (deferred false (transfer_response "RETRIEVE" key) (
  pfx <- prefix_var ;;
  bk <- bucket_var ;;
  '(rc, err) <-
    wcall_answer
      (fun a => inr (Retrieval.EvDownloadFileByName bk (pfx ++ key)%string
                       (fst a) (snd a)))
      (Retrieval.bucket_DownloadFileByName bk (pfx ++ key)%string) ;;
  deferred false
    (fun _ =>
       match rc with
       | Some rc => wcall (inr (Retrieval.EvCloseBody rc))
                          (fun w => (tt, Retrieval.body_Close rc w))
       | None => lret tt
       end) (
  match err with
  | Some e => log_Printf "Couldn't download file: %v" [inr e] ;; lret false
  | None =>
  created <- wcall_answer (fun a => inr (Retrieval.EvCreate file a))
                          (Retrieval.os_Create file) ;;
  match created with
  | inr e =>
      log_Printf "Couldn't open %v for writing: %v" [inl file; inr e] ;;
      lret false
  | inl fh =>
  deferred false
    (fun _ => wcall (inr (Retrieval.EvCloseFile fh)) (fun w => (tt, file_Close fh w))) (
  match rc with
  | None => crash
  | Some rc =>
      script <- wask (copy_reads fh rc) ;;
      '(_, err) <- wcall (inr (Retrieval.EvCopy fh rc))
                         (Retrieval.io_Copy_progress fh rc) ;;
      progress_out script ;;
      match err with
      | Some e => log_Printf "Couldn't download file: %v" [inr e] ;; lret false
      | None => lret true
      end
  end)
  end
  end))) ;;
  lret tt.

(** [func checkPresent(key string)] *)
Definition checkPresent (key : string) : LM W unit :=
  (deferred "UNKNOWN"
     (fun ret => out_WriteString ("CHECKPRESENT-" ++ ret ++ " " ++ key ++ nl)%string) (
  pfx <- prefix_var ;;
  bk <- bucket_var ;;
  '(res, err) <- wcall (inl (EvListFileNames bk (pfx ++ key)%string 1))
                       (bucket_ListFileNames bk (pfx ++ key)%string 1) ;;
  match err with
  | Some e => log_Printf "Couldn't list filenames: %v" [inr e] ;; lret "UNKNOWN"
  | None =>
  match res with
  | None => crash
  | Some res =>
  match Files res with
  | [] => lret "FAILURE"
  | f :: _ =>
      if negb (Name f =? pfx ++ key)%string
      then lret "FAILURE"
      else lret "SUCCESS"
  end
  end
  end)) ;;
  lret tt.

(** [func remove(key string)] *)
Definition remove (key : string) : LM W unit :=
  (deferred "FAILURE"
     (fun ret => out_WriteString ("REMOVE-" ++ ret ++ " " ++ key ++ nl)%string) (
  pfx <- prefix_var ;;
  bk <- bucket_var ;;
  '(res, err) <- wcall (inl (EvListFileNames bk (pfx ++ key)%string 1))
                       (bucket_ListFileNames bk (pfx ++ key)%string 1) ;;
  match err with
  | Some e => log_Printf "Couldn't list filenames: %v" [inr e] ;; lret "FAILURE"
  | None =>
  match res with
  | None => crash
  | Some res =>
  match Files res with
  | [] =>
      (* File already non-existent *)
      lret "SUCCESS"
  | f :: _ =>
      if negb (Name f =? pfx ++ key)%string
      then lret "SUCCESS"
      else
        bk <- bucket_var ;;
        err <- wcall (inl (EvDeleteFileVersion bk (Name f) (ID f)))
                     (bucket_DeleteFileVersion bk (Name f) (ID f)) ;;
        match err with
        | Some e => log_Printf "Couldn't delete file version: %v" [inr e] ;; lret "FAILURE"
        | None => lret "SUCCESS"
        end
  end
  end
  end)) ;;
  lret tt.

(** [fields] after [for len(fields) < 3 { fields = append(fields, "") }]. *)
Definition pad3 (fields : list string) : string * string * string :=
  match fields with
  | [] => ("", "", "")
  | [a] => (a, "", "")
  | [a; b] => (a, b, "")
  | a :: b :: c :: _ => (a, b, c)
  end.

(** The [switch] of [main], for one line without its newline. *)
Definition dispatch (line : string) : LM W unit :=
  if strings_HasPrefix line "INITREMOTE" then prepare "INITREMOTE"
  else if strings_HasPrefix line "PREPARE" then prepare "PREPARE"
  else if strings_HasPrefix line "TRANSFER " then
    let line := strings_TrimPrefix line "TRANSFER " in
    let '(verb, key, file) := pad3 (strings_SplitN line " "%char 3) in
    if (verb =? "STORE")%string then store key file
    else if (verb =? "RETRIEVE")%string then retrieve key file
    else out_WriteString ("UNSUPPORTED-REQUEST" ++ nl)%string
  else if strings_HasPrefix line "CHECKPRESENT " then
    checkPresent (strings_TrimPrefix line "CHECKPRESENT ")
  else if strings_HasPrefix line "REMOVE " then
    remove (strings_TrimPrefix line "REMOVE ")
  else out_WriteString ("UNSUPPORTED-REQUEST" ++ nl)%string.

(** The [for] loop of [main]; [None] when [fuel] rounds did not reach the
    end of the input. *)
Fixpoint loop (fuel : nat) (g : G W) : option (LRes W unit) :=
  match fuel with
  | O => None
  | S fuel' =>
      match (out_Flush ;; in_ReadString) g with
      | Ok (line, Some e) g1 =>
          if is_EOF e then Some (Ok tt g1)
          else Some (log_Fatalf "%v" [inr e] g1)
      | Ok (line, None) g1 =>
          match dispatch (strings_TrimSuffix line nl) g1 with
          | Ok _ g2 => loop fuel' g2
          | Fatal g2 => Some (Fatal g2)
          | Crash g2 => Some (Crash g2)
          end
      | Fatal g1 => Some (Fatal g1)
      | Crash g1 => Some (Crash g1)
      end
  end.

(** [func main()] *)
Definition main (fuel : nat) (g : G W) : option (LRes W unit) :=
  match out_WriteString ("VERSION 1" ++ nl)%string g with
  | Ok _ g1 => loop fuel g1
  | Fatal g1 => Some (Fatal g1)
  | Crash g1 => Some (Crash g1)
  end.

End Functions.

(** The process as it starts: nothing written, nothing bound. *)
Definition start {W : Type} (input : Stdin) (w : W) : G W :=
  {| g_in := input; g_pending := []; g_stdout := [];
     g_bucket := None; g_prefix := ""; g_world := w;
     g_calls := []; g_logged := [] |}.

Definition final {W A} (r : LRes W A) : G W :=
  match r with
  | Ok _ g => g
  | Fatal g => g
  | Crash g => g
  end.

(** All that was written to [out], flushed or not. *)
Definition written {W} (g : G W) : list Tok := g_stdout g ++ g_pending g.

(** ** Comparing the revisions

    The receiver a method of the later revisions has where the first
    revision has its package-level variables. *)
Definition receiver {W} (g : G W) : B2Ext :=
  {| bucket := g_bucket g; prefix := g_prefix g; lastList := lastList B2Ext_zero |}.

(** What the helper library answers on the control channel for the result
    of a method; a panic answers nothing, it is the value the deferred
    function of the first revision finds. *)
Definition checkPresent_reply (r : option (bool * option error)) : string :=
  match r with
  | Some (true, None) => "SUCCESS"
  | Some (false, None) => "FAILURE"
  | _ => "UNKNOWN"
  end.

Definition remove_reply (r : option (option error)) : string :=
  match r with
  | Some None => "SUCCESS"
  | _ => "FAILURE"
  end.

Definition transfer_reply (verb : string) (r : option (option error)) : string :=
  match r with
  | Some None => ("TRANSFER-SUCCESS " ++ verb ++ " ")%string
  | _ => ("TRANSFER-FAILURE " ++ verb ++ " ")%string
  end.

Definition same_ending {W A B} (l : LRes W A) (r : Res W B) : bool :=
  match l, r with
  | Ok _ _, Done _ _ => true
  | Crash _, Panic _ => true
  | _, _ => false
  end.

(** The run [l] of the first revision from [g] ends as the run [r] of a
    method does, after the same calls, in the same world, and reads no
    input. *)
Definition same_run {W A B} (g : G W) (l : LRes W A) (r : Res W B) : Prop :=
  same_ending l r = true /\
  g_calls (final l) = g_calls g ++ map inl (log (state_of r)) /\
  g_world (final l) = world (state_of r) /\
  g_in (final l) = g_in g.

(** Whether the local file opens, is read to its end, and then cannot be
    rewound. *)
Definition rewind_fails {W} `{World W} (file : string) (w : W) : bool :=
  match os_Open file w with
  | (inl fh, w1) =>
      match io_Copy_sha1 fh w1 with
      | ((_, _, None), w2) =>
          match file_Seek fh 0 0 w2 with
          | (Some _, _) => true
          | (None, _) => false
          end
      | ((_, _, Some _), _) => false
      end
  | (inr _, _) => false
  end.

Definition line_tok (l : Progress.Line) : Tok :=
  match l with
  | Progress.PROGRESS n => ProgressLine n
  end.

(** The calls of a log that concern the download and the destination
    file, and whether there are no others. *)
Fixpoint local_calls (cs : list AnyEvent) : list Retrieval.Event :=
  match cs with
  | [] => []
  | inr e :: rest => e :: local_calls rest
  | inl _ :: rest => local_calls rest
  end.

Definition is_local (e : AnyEvent) : bool :=
  match e with
  | inr _ => true
  | inl _ => false
  end.

(** The calls of [retrieve]: the download of [name] from the bucket bound,
    first and once; after a download that failed only the body, if one was
    handed out, is closed; otherwise the destination [file] is created
    next. *)
Definition downloads_first (bound : option Bucket) (name file : string)
  (tr : list Retrieval.Event) : Prop :=
  match tr with
  | [] => bound = None
  | Retrieval.EvDownloadFileByName bk n rc err :: rest =>
      bound = Some bk /\ n = name /\
      existsb Retrieval.is_download rest = false /\
      match err with
      | Some _ =>
          rest = match rc with
                 | Some rc => [Retrieval.EvCloseBody rc]
                 | None => []
                 end
      | None => exists answer rest', rest = Retrieval.EvCreate file answer :: rest'
      end
  | _ :: _ => False
  end.

(** The two calls that read through a progress reader. *)
Definition is_transfer (e : AnyEvent) : bool :=
  match e with
  | inl (EvUploadHashedFile _ _ _ _ _) => true
  | inr (Retrieval.EvCopy _ _) => true
  | _ => false
  end.

(** The three writes of the deferred function of [store] and [retrieve]. *)
Definition transfer_tokens (verb : string) (ok : bool) (key : string) : list Tok :=
  [Str (if ok then "TRANSFER-SUCCESS " ++ verb ++ " "
        else "TRANSFER-FAILURE " ++ verb ++ " ")%string;
   Str key; Str nl].

(** What a run of [store] or [retrieve] from [g] leaves on [out]: the
    progress lines [ns], flushed with all that was pending before them, then
    the reply; lines only if the transfer was reached; no input read; no
    exit; a panic only after the reply of a failure. *)
Definition transfer_output {W} (verb key : string) (g : G W) (l : LRes W unit)
  (cs : list AnyEvent) (ns : list Progress.Line) (ok : bool) : Prop :=
  g_calls (final l) = g_calls g ++ cs /\
  written (final l) = written g ++ map line_tok ns ++ transfer_tokens verb ok key /\
  (ns <> [] -> exists rest, g_stdout (final l) = written g ++ map line_tok ns ++ rest) /\
  (existsb is_transfer cs = false -> ns = []) /\
  g_in (final l) = g_in g /\
  match l with
  | Ok _ _ => True
  | Fatal _ => False
  | Crash _ => ok = false
  end.

(** [out] after the progress lines [ls] were written and flushed one by
    one. *)
Definition with_lines {W} (ls : list Progress.Line) (g : G W) : G W :=
  match ls with
  | [] => g
  | _ :: _ =>
      {| g_in := g_in g; g_pending := [];
         g_stdout := g_stdout g ++ g_pending g ++ map line_tok ls;
         g_bucket := g_bucket g; g_prefix := g_prefix g; g_world := g_world g;
         g_calls := g_calls g; g_logged := g_logged g |}
  end.

(** ** The dialogue of [prepare]

    The process after [getConfig name] was answered, [rest] being the input
    after the answer. *)
Definition answered {W} (name rest : string) (g : G W) : G W :=
  {| g_in := {| unread := rest; at_end := at_end (g_in g) |};
     g_pending := [];
     g_stdout := g_stdout g ++ g_pending g ++ [Str "GETCONFIG "; Str name; Str nl];
     g_bucket := g_bucket g; g_prefix := g_prefix g; g_world := g_world g;
     g_calls := g_calls g; g_logged := g_logged g |}.

(** The process after the four requests of [prepareInternal] were answered,
    the last with the prefix [p]. *)
Definition configured {W} (p rest : string) (g : G W) : G W :=
  {| g_in := {| unread := rest; at_end := at_end (g_in g) |};
     g_pending := [];
     g_stdout := g_stdout g ++ g_pending g
                 ++ [Str "GETCONFIG "; Str "accountid"; Str nl;
                     Str "GETCONFIG "; Str "appkey"; Str nl;
                     Str "GETCONFIG "; Str "bucket"; Str nl;
                     Str "GETCONFIG "; Str "prefix"; Str nl];
     g_bucket := g_bucket g;
     g_prefix := if negb (p =? "")%string && negb (strings_HasSuffix p "/")
                 then (p ++ "/")%string else p;
     g_world := g_world g; g_calls := g_calls g; g_logged := g_logged g |}.

Definition prepare_requests : list Tok :=
  [Str "GETCONFIG "; Str "accountid"; Str nl;
   Str "GETCONFIG "; Str "appkey"; Str nl;
   Str "GETCONFIG "; Str "bucket"; Str nl;
   Str "GETCONFIG "; Str "prefix"; Str nl].

(** The calls that resolve or create the bucket named [b]. *)
Definition binds_bucket (b : string) (e : AnyEvent) : bool :=
  match e with
  | inl (EvBucket n) => (n =? b)%string
  | inl (EvStderr _ [n]) => (n =? b)%string
  | inl (EvCreateBucket n AllPrivate) => (n =? b)%string
  | _ => false
  end.

(** ** The program as a whole *)

(** A step is tidy when it adds nothing to the input that is left, and
    exits only with everything written flushed. *)
Definition tidy {W A} (m : LM W A) : Prop :=
  forall g,
    (String.length (unread (g_in (final (m g)))) <= String.length (unread (g_in g)))%nat
    /\ match m g with
       | Fatal g' => g_pending g' = []
       | _ => True
       end.

(** A step that never exits. *)
Definition returns {W A} (m : LM W A) : Prop :=
  forall g, match m g with Fatal _ => False | _ => True end.

(** ** A last line without its newline

    The process [g] with the input [i] in place of its own, and a result
    with it. *)
Definition with_input {W} (i : Stdin) (g : G W) : G W :=
  {| g_in := i; g_pending := g_pending g; g_stdout := g_stdout g;
     g_bucket := g_bucket g; g_prefix := g_prefix g; g_world := g_world g;
     g_calls := g_calls g; g_logged := g_logged g |}.

Definition lift_input {W A} (i : Stdin) (r : LRes W A) : LRes W A :=
  match r with
  | Ok a g => Ok a (with_input i g)
  | Fatal g => Fatal (with_input i g)
  | Crash g => Crash (with_input i g)
  end.

(** Whether [u] is made of whole lines: it is empty or its last byte is a
    newline. *)
Fixpoint ends_lines (u : string) : bool :=
  match u with
  | EmptyString => true
  | String c EmptyString => (c =? newline)%char
  | String _ rest => ends_lines rest
  end.

(** A step that neither reads the input nor looks at it. *)
Definition blind {W A} (m : LM W A) : Prop :=
  forall i g, m (with_input i g) = lift_input i (m g).

(** [g1] is [g2] but for the input left, which is the same, or that of
    [g2], whole lines, followed by [last]. *)
Definition tail_of {W} (last : string) (g1 g2 : G W) : Prop :=
  exists u1,
    g1 = with_input {| unread := u1; at_end := at_end (g_in g2) |} g2 /\
    (u1 = unread (g_in g2)
     \/ (u1 = (unread (g_in g2) ++ last)%string
         /\ ends_lines (unread (g_in g2)) = true)).

Definition tail_res {W A} (last : string) (r1 r2 : LRes W A) : Prop :=
  match r1, r2 with
  | Ok a g1, Ok b g2 => a = b /\ tail_of last g1 g2
  | Fatal g1, Fatal g2 => tail_of last g1 g2
  | Crash g1, Crash g2 => tail_of last g1 g2
  | _, _ => False
  end.

(** A step on which the two processes stay so related. *)
Definition tailed {W A} (last : string) (m : LM W A) : Prop :=
  forall g1 g2, tail_of last g1 g2 -> tail_res last (m g1) (m g2).

(** A world for concrete runs: a remote, a destination file and a download,
    and the reads the two transfers make. *)
Record Sim : Type :=
  { sim_remote : Fake;
    sim_local : Retrieval.FakeDownloads;
    sim_upload : Script;
    sim_copy : Script }.

#[global] Instance Sim_World : World Sim :=
  {| external_GetConfig := fun name w => (fk_config (sim_remote w) name, w);
     os_Getenv := fun name w => fk_env (sim_remote w) name;
     backblaze_NewB2 := fun _ w => (fk_newb2 (sim_remote w), w);
     b2_Bucket := fun _ _ w => (fk_bucket (sim_remote w), w);
     b2_CreateBucket := fun _ _ _ w => (fk_create (sim_remote w), w);
     bucket_ListFileNames := fun _ _ _ w => (fk_list (sim_remote w), w);
     bucket_GetFileInfo := fun _ _ w => (fk_info (sim_remote w), w);
     bucket_DeleteFileVersion := fun _ _ _ w => (fk_delete (sim_remote w), w);
     bucket_UploadHashedFile := fun _ _ _ _ _ w => (fk_upload (sim_remote w), w);
     os_Open := fun _ w => (fk_open (sim_remote w), w);
     file_Close := fun _ w => w;
     file_Seek := fun _ _ _ w => (fk_seek (sim_remote w), w);
     io_Copy_sha1 := fun _ w => (fk_copy (sim_remote w), w);
     time_Now := fun w => fk_now (sim_remote w) |}.

#[global] Instance Sim_Downloads : Retrieval.Downloads Sim :=
  {| Retrieval.os_Create := fun _ w => (Retrieval.fd_create (sim_local w), w);
     Retrieval.bucket_DownloadFileByName :=
       fun _ _ w => (Retrieval.fd_download (sim_local w), w);
     Retrieval.body_Close := fun _ w => w;
     Retrieval.io_Copy_progress := fun _ _ w => (Retrieval.fd_copy (sim_local w), w) |}.

#[global] Instance Sim_Reads : Reads Sim :=
  {| upload_reads := fun _ _ _ _ _ w => sim_upload w;
     copy_reads := fun _ _ w => sim_copy w |}.

(** Three reads of 200000, 100000 and 10 bytes, then the end. *)
Definition script3 : Script :=
  map (fun chunk => (chunk, None)) Progress.three_chunks ++ [([], Some io_EOF)].

Definition sim (remote : Fake) : Sim :=
  {| sim_remote := remote; sim_local := Retrieval.disk_full;
     sim_upload := []; sim_copy := [] |}.

Definition sim_reading (remote : Fake) : Sim :=
  {| sim_remote := remote; sim_local := Retrieval.disk_full;
     sim_upload := script3; sim_copy := script3 |}.

(** The answers to the four requests of [PREPARE], and a command. *)
Definition session_input : Stdin :=
  {| unread := "VALUE 0123456789ab" ++ nl ++ "VALUE K001secret" ++ nl
               ++ "VALUE mydata" ++ nl ++ "VALUE raw" ++ nl
               ++ "CHECKPRESENT KEY1" ++ nl;
     at_end := io_EOF |}.

(** The process after a successful [PREPARE], with [input] still to read. *)
Definition prepared {W} (input : string) (w : W) : G W :=
  {| g_in := {| unread := input; at_end := io_EOF |};
     g_pending := []; g_stdout := [Str ("VERSION 1" ++ nl)%string];
     g_bucket := Some mydata; g_prefix := "raw/"; g_world := w;
     g_calls := []; g_logged := [] |}.

End Legacy.

(** Case analysis over a run of a function of the first revision, the
    package-level variables named first. *)
Ltac legacy_simpl :=
  cbv beta iota zeta delta
    [Legacy.g_in Legacy.g_pending Legacy.g_stdout Legacy.g_bucket Legacy.g_prefix
     Legacy.g_world Legacy.g_calls Legacy.g_logged Legacy.final Legacy.written
     Legacy.receiver Legacy.same_ending
     be world log state_of result_of negb orb andb is_nil
     bucket prefix lastList fst snd haveSHA contentLength shaError].

(** The end of a case: the lists are compared. *)
Ltac legacy_lists :=
  cbn [app map Legacy.line_tok Legacy.transfer_reply Legacy.checkPresent_reply
       Legacy.remove_reply Legacy.transfer_tokens];
  rewrite <- ?app_assoc; cbn [app];
  first [reflexivity | rewrite ?app_nil_r; reflexivity].

Ltac legacy_answer_with lines :=
  match goal with
  | |- context [Retrieval.os_Create ?a ?w] =>
      destruct (Retrieval.os_Create a w) as [[?|?] ?]
  | |- context [Retrieval.bucket_DownloadFileByName ?a ?b ?w] =>
      destruct (Retrieval.bucket_DownloadFileByName a b w) as [[[?|] [?|]] ?]
  | |- context [Retrieval.io_Copy_progress ?a ?b ?w] =>
      destruct (Retrieval.io_Copy_progress a b w) as [[? [?|]] ?]
  | |- context [Legacy.write_lines _ _] => lines
  | |- context [Legacy.with_lines (Legacy.lines_of ?s) _] =>
      destruct (Legacy.lines_of s) as [|? ?]; cbv beta iota delta [Legacy.with_lines]
  | _ => next_answer
  end.

Ltac legacy_answer := legacy_answer_with fail.

Ltac legacy_cases g :=
  destruct g as [?gin ?pend ?sout [?bk|] ?pfx ?w ?calls ?logged];
  unfold run, Uncached.Store, Uncached.CheckPresent, Uncached.Remove, hashTask,
    the_bucket, defer, effect, bind, call, ask, getBe, setBe, ret, panic,
    Legacy.store, Legacy.retrieve, Legacy.checkPresent, Legacy.remove,
    Legacy.hashing, Legacy.transfer_response, Legacy.deferred, Legacy.bucket_var,
    Legacy.prefix_var, Legacy.lbind, Legacy.lret, Legacy.crash, Legacy.wcall,
    Legacy.wcall_answer, Legacy.wask, Legacy.log_Printf, Legacy.out_WriteString,
    Legacy.out_Write, Legacy.progress_out;
  legacy_simpl;
  repeat (legacy_answer; legacy_simpl).

(** The end of a case of a transfer, with the progress lines [ns] and the
    outcome [ok]. *)
Ltac transfer_case ns ok :=
  exists ns; exists ok; unfold Legacy.transfer_output; legacy_simpl;
  repeat split;
  first [ legacy_lists
        | cbn [existsb Legacy.is_transfer orb app]; intros;
          first [reflexivity | discriminate | exact I]
        | let Hn := fresh "Hn" in
          intros Hn;
          first [ exfalso; apply Hn; reflexivity
                | exists (@nil Legacy.Tok); legacy_lists ] ].

Ltac transfer_cases :=
  eexists;
  first [ transfer_case (@nil Progress.Line) true
        | transfer_case (@nil Progress.Line) false
        | match goal with
          | l : Progress.Line, ls : list Progress.Line |- _ =>
              first [transfer_case (l :: ls) true | transfer_case (l :: ls) false]
          end ].

(** One step through the code of a function, towards the steps it is made
    of; [leaf] closes those. *)
Ltac walk_step bind_rule deferred_rule leaf :=
  lazymatch goal with
  | |- _ (Legacy.lbind _ _) => apply bind_rule; [|intros]
  | |- _ (Legacy.deferred _ _ _) => apply deferred_rule; [|intros]
  | |- _ (let _ := _ in _) => cbv zeta
  | |- _ (match ?x with _ => _ end) => destruct x
  | |- _ => leaf
  end.

(** * Properties *)

Unset Implicit Arguments.


Lemma wrap64_small z : minInt64 <= z <= maxInt64 -> wrap64 z = z.
Proof.
  unfold wrap64, minInt64, maxInt64. intros Hz.
  rewrite Z.mod_small; lia.
Qed.

(** ** The progress reader *)

Module ProgressFacts.
Import Progress.

Lemma transferred_cons out outs :
  transferred (out :: outs) = Z.of_nat (List.length (fst out)) + transferred outs.
Proof.
  unfold transferred, bytes_of. cbn [map List.concat].
  rewrite length_app. lia.
Qed.

Lemma transferred_nonneg outs : 0 <= transferred outs.
Proof. unfold transferred. lia. Qed.

Lemma sum_chunk_sizes outs : sum (chunk_sizes outs) = transferred outs.
Proof.
  induction outs as [|out outs IH]; [reflexivity|].
  rewrite transferred_cons, <- IH. reflexivity.
Qed.

Lemma chunk_sizes_nonneg outs : Forall (fun c => 0 <= c) (chunk_sizes outs).
Proof.
  induction outs; constructor; [lia | assumption].
Qed.

Lemma sum_cons c rest : sum (c :: rest) = c + sum rest.
Proof. reflexivity. Qed.

Lemma sum_nonneg chunks : Forall (fun c => 0 <= c) chunks -> 0 <= sum chunks.
Proof.
  induction 1 as [|c rest Hc _ IH]; [cbv; discriminate|].
  rewrite sum_cons. lia.
Qed.

(** Every notified total lies more than the limit above the baseline the walk
    starts with, and is at most the final running total. *)
Lemma spec_notifications_bounds chunks :
  forall total baseline,
    Forall (fun c => 0 <= c) chunks ->
    baseline <= total ->
    Forall (fun t => baseline + progressByteLimit < t <= total + sum chunks)
           (spec_notifications total baseline chunks).
Proof.
  induction chunks as [|c rest IH]; intros total baseline Hpos Hle;
    cbn [spec_notifications].
  - constructor.
  - inversion Hpos as [|? ? Hc Hrest]; subst.
    pose proof (sum_nonneg rest Hrest) as Hsum.
    rewrite sum_cons.
    destruct (total + c - baseline >? progressByteLimit) eqn:Hcmp.
    + apply Z.gtb_lt in Hcmp.
      constructor; [lia|].
      specialize (IH (total + c) (total + c) Hrest (Z.le_refl _)).
      eapply Forall_impl; [|exact IH].
      cbv beta. intros t Ht. lia.
    + specialize (IH (total + c) baseline Hrest ltac:(lia)).
      eapply Forall_impl; [|exact IH].
      cbv beta. intros t Ht. lia.
Qed.

Lemma spec_notifications_increasing chunks :
  forall total baseline,
    Forall (fun c => 0 <= c) chunks ->
    baseline <= total ->
    StronglySorted Z.lt (spec_notifications total baseline chunks).
Proof.
  induction chunks as [|c rest IH]; intros total baseline Hpos Hle;
    cbn [spec_notifications].
  - constructor.
  - inversion Hpos as [|? ? Hc Hrest]; subst.
    destruct (total + c - baseline >? progressByteLimit) eqn:Hcmp.
    + constructor.
      * apply IH; [assumption | lia].
      * pose proof (spec_notifications_bounds rest (total + c) (total + c) Hrest (Z.le_refl _)) as Hb.
        eapply Forall_impl; [|exact Hb].
        cbv beta. unfold progressByteLimit. intros t Ht. lia.
    + apply IH; [assumption | lia].
Qed.

Lemma increasing_nondecreasing l : StronglySorted Z.lt l -> StronglySorted Z.le l.
Proof.
  induction 1 as [|t l Hs IH Hall]; constructor; [exact IH|].
  eapply Forall_impl; [|exact Hall]. cbv beta. intros; lia.
Qed.

Section WithReader.

Context {R : Type} `{Reader R}.

(** [Read] hands on what the wrapped reader answered, and leaves the wrapped
    reader where a direct call would. *)
Lemma Read_passthrough (pr : ProgressReader R) len_p :
  fst (Read pr len_p) = fst (io_Read (pr_r pr) len_p)
  /\ pr_r (snd (Read pr len_p)) = snd (io_Read (pr_r pr) len_p).
Proof.
  unfold Read.
  destruct (io_Read (pr_r pr) len_p) as [[data err] r'].
  destruct (wrap64 _ >? progressByteLimit); split; reflexivity.
Qed.

Lemma reads_passthrough sizes :
  forall (pr : ProgressReader R),
    fst (reads pr sizes) = fst (reads_raw (pr_r pr) sizes)
    /\ pr_r (snd (reads pr sizes)) = snd (reads_raw (pr_r pr) sizes).
Proof.
  induction sizes as [|len_p rest IH]; intros pr; cbn.
  - split; reflexivity.
  - destruct (Read_passthrough pr len_p) as [Hout Hr].
    destruct (Read pr len_p) as [out pr1].
    destruct (io_Read (pr_r pr) len_p) as [out' r1].
    cbn in Hout, Hr. subst out' r1.
    destruct (IH pr1) as [Houts Hr'].
    destruct (reads pr1 rest) as [outs pr2].
    destruct (reads_raw (pr_r pr1) rest) as [outs' r2].
    cbn in *. subst. split; reflexivity.
Qed.

(** One [Read] without overflow: the counter grows by the bytes read; a line
    is written exactly when the counter is more than the limit above
    [lastPrint], and [lastPrint] then becomes the counter. *)
Lemma Read_step (pr : ProgressReader R) len_p out pr1 :
  Read pr len_p = (out, pr1) ->
  0 <= pr_lastPrint pr <= pr_n pr ->
  pr_n pr + Z.of_nat (List.length (fst out)) <= maxInt64 ->
  pr_n pr1 = pr_n pr + Z.of_nat (List.length (fst out))
  /\ (if pr_n pr1 - pr_lastPrint pr >? progressByteLimit
      then pr_progress pr1 = pr_progress pr ++ [PROGRESS (pr_n pr1)]
           /\ pr_lastPrint pr1 = pr_n pr1
      else pr_progress pr1 = pr_progress pr
           /\ pr_lastPrint pr1 = pr_lastPrint pr).
Proof.
  unfold Read. intros HRead Hinv Hmax.
  destruct (io_Read (pr_r pr) len_p) as [[data err] r'].
  assert (Hfit : wrap64 (pr_n pr + Z.of_nat (List.length data))
                 = pr_n pr + Z.of_nat (List.length data)).
  { destruct (wrap64 _ >? _); inversion HRead; subst; cbn in Hmax;
      apply wrap64_small; unfold minInt64, maxInt64 in *; lia. }
  rewrite Hfit in HRead.
  assert (Hdiff : wrap64 (pr_n pr + Z.of_nat (List.length data) - pr_lastPrint pr)
                  = pr_n pr + Z.of_nat (List.length data) - pr_lastPrint pr).
  { destruct (wrap64 _ >? _); inversion HRead; subst; cbn in Hmax;
      apply wrap64_small; unfold minInt64, maxInt64 in *; lia. }
  rewrite Hdiff in HRead.
  destruct (pr_n pr + Z.of_nat (List.length data) - pr_lastPrint pr >? progressByteLimit)
    eqn:Hcmp; inversion HRead; subst;
    cbn [pr_n pr_progress pr_lastPrint fst]; rewrite Hcmp; auto.
Qed.

Lemma reads_spec sizes :
  forall (pr : ProgressReader R) outs pr',
    reads pr sizes = (outs, pr') ->
    0 <= pr_lastPrint pr <= pr_n pr ->
    pr_n pr + transferred outs <= maxInt64 ->
    pr_n pr' = pr_n pr + transferred outs
    /\ pr_progress pr'
       = pr_progress pr
         ++ map PROGRESS (spec_notifications (pr_n pr) (pr_lastPrint pr) (chunk_sizes outs)).
Proof.
  induction sizes as [|len_p rest IH]; intros pr outs pr' Hreads Hinv Hmax; cbn in Hreads.
  - inversion Hreads; subst. cbn. rewrite app_nil_r.
    unfold transferred; cbn. split; [lia | reflexivity].
  - destruct (Read pr len_p) as [out pr1] eqn:HRead.
    destruct (reads pr1 rest) as [outs1 pr2] eqn:Hrest.
    inversion Hreads; subst; clear Hreads.
    rewrite transferred_cons in Hmax |- *.
    pose proof (transferred_nonneg outs1) as Hnn.
    destruct (Read_step pr len_p out pr1 HRead Hinv ltac:(lia)) as [Hn Hemit].
    cbn [chunk_sizes map spec_notifications].
    rewrite <- Hn.
    destruct (pr_n pr1 - pr_lastPrint pr >? progressByteLimit) eqn:Hcmp;
      destruct Hemit as [Hprog Hlast].
    + destruct (IH pr1 outs1 pr' Hrest ltac:(lia) ltac:(lia)) as [Hn' Hprog'].
      split; [lia|].
      rewrite Hprog', Hprog, Hlast, <- app_assoc. reflexivity.
    + destruct (IH pr1 outs1 pr' Hrest ltac:(lia) ltac:(lia)) as [Hn' Hprog'].
      split; [lia|].
      rewrite Hprog', Hprog, Hlast. reflexivity.
Qed.

End WithReader.

End ProgressFacts.

(** C9.  During a transfer through the progress reader in which N bytes pass
    (N fitting the [int64] counter): the bytes and errors handed to the
    consumer are those of the wrapped reader, unaltered; a PROGRESS line with
    the cumulative total is written exactly when that total is more than
    256 KiB above the total of the last line written (zero at the start),
    which then becomes the new baseline; the totals written are
    non-decreasing and none exceeds N. *)
Theorem C9_progress_reader :
  forall (R : Type) (HR : Progress.Reader R) (r0 : R) (sizes : list nat),
    let outs := fst (Progress.reads (Progress.NewProgressReader r0 []) sizes) in
    let pr' := snd (Progress.reads (Progress.NewProgressReader r0 []) sizes) in
    let totals := map Progress.total_of (Progress.pr_progress pr') in
    Progress.transferred outs <= maxInt64 ->
    outs = fst (Progress.reads_raw r0 sizes)
    /\ Progress.pr_r pr' = snd (Progress.reads_raw r0 sizes)
    /\ totals = Progress.spec_notifications 0 0 (Progress.chunk_sizes outs)
    /\ StronglySorted Z.le totals
    /\ Forall (fun t => t <= Progress.transferred outs) totals.
Proof.
  intros R HR r0 sizes outs pr' totals Hfit.
  destruct (ProgressFacts.reads_passthrough sizes (Progress.NewProgressReader r0 []))
    as [Hout Hr].
  fold outs in Hout. fold pr' in Hr. cbn in Hout, Hr.
  assert (Hreads : Progress.reads (Progress.NewProgressReader r0 []) sizes = (outs, pr')).
  { subst outs pr'. apply surjective_pairing. }
  destruct (ProgressFacts.reads_spec sizes _ _ _ Hreads) as [_ Hprog].
  { cbn. lia. }
  { cbn. exact Hfit. }
  cbn in Hprog.
  assert (Htot : totals = Progress.spec_notifications 0 0 (Progress.chunk_sizes outs)).
  { subst totals. rewrite Hprog, map_map. cbn. apply map_id. }
  pose proof (ProgressFacts.chunk_sizes_nonneg outs) as Hnn.
  repeat split; try assumption.
  - rewrite Htot.
    apply ProgressFacts.increasing_nondecreasing.
    exact (ProgressFacts.spec_notifications_increasing _ 0 0 Hnn (Z.le_refl 0)).
  - rewrite Htot.
    pose proof (ProgressFacts.spec_notifications_bounds _ 0 0 Hnn (Z.le_refl 0)) as Hb.
    rewrite ProgressFacts.sum_chunk_sizes in Hb.
    eapply Forall_impl; [|exact Hb]. cbv beta. intros; lia.
Qed.

Example three_chunks_progress :
  map Progress.total_of
      (Progress.pr_progress
         (snd (Progress.reads (Progress.NewProgressReader Progress.three_chunks [])
                              Progress.three_calls)))
  = [300000].
Proof. vm_compute. reflexivity. Qed.

Lemma C9_progress_reader_witness :
  Progress.transferred
    (fst (Progress.reads (Progress.NewProgressReader Progress.three_chunks []) Progress.three_calls))
  <= maxInt64
  /\ map Progress.total_of
       (Progress.pr_progress
          (snd (Progress.reads (Progress.NewProgressReader Progress.three_chunks [])
                               Progress.three_calls)))
     = Progress.spec_notifications 0 0
         (Progress.chunk_sizes
            (fst (Progress.reads (Progress.NewProgressReader Progress.three_chunks [])
                                 Progress.three_calls))).
Proof.
  assert (Hfit :
    Progress.transferred
      (fst (Progress.reads (Progress.NewProgressReader Progress.three_chunks [])
                           Progress.three_calls))
    <= maxInt64).
  { apply Z.leb_le. vm_compute. reflexivity. }
  split; [exact Hfit|].
  exact (proj1 (proj2 (proj2
    (C9_progress_reader _ _ Progress.three_chunks Progress.three_calls Hfit)))).
Defined.

(** ** The adapter *)

Lemma bytes_Equal_eq a : forall b, bytes_Equal a b = true <-> a = b.
Proof.
  induction a as [|x a IH]; intros [|y b]; cbn; split; intros Heq;
    try reflexivity; try discriminate.
  - apply andb_true_iff in Heq. destruct Heq as [Hxy Hab].
    apply Byte.byte_dec_bl in Hxy. apply IH in Hab. congruence.
  - inversion Heq; subst. apply andb_true_iff. split.
    + apply Byte.byte_dec_lb. reflexivity.
    + apply IH. reflexivity.
Qed.

(** The two hex functions fit together: what [hex.EncodeToString] writes,
    [hex.DecodeString] reads back without error. *)
Lemma hex_digits_of_byte (b : byte) :
  fromHexChar (hexDigit (Byte.to_N b / 16)) = Some (Byte.to_N b / 16)%N
  /\ fromHexChar (hexDigit (Byte.to_N b mod 16)) = Some (Byte.to_N b mod 16)%N
  /\ byte_of_N (Byte.to_N b / 16 * 16 + Byte.to_N b mod 16) = b.
Proof.
  destruct b; vm_compute; repeat split.
Qed.

Lemma hex_roundtrip (bs : list byte) :
  hex_DecodeString (hex_EncodeToString bs) = (bs, None).
Proof.
  induction bs as [|b bs IH]; [reflexivity|].
  cbn [hex_EncodeToString hex_DecodeString].
  destruct (hex_digits_of_byte b) as [Hhi [Hlo Hb]].
  rewrite Hhi, Hlo, IH, Hb. reflexivity.
Qed.

Example hex_DecodeString_cases :
  hex_DecodeString "AbfF" = ([xab; xff], None)
  /\ hex_DecodeString "abc" = ([xab], Some hex_ErrLength)
  /\ hex_DecodeString "0G" = ([], Some (hex_InvalidByteError "G"))
  /\ hex_DecodeString "" = ([], None).
Proof. repeat split. Qed.

Example strings_HasSuffix_cases :
  strings_HasSuffix "raw/" "/" = true
  /\ strings_HasSuffix "raw" "/" = false
  /\ strings_HasSuffix "" "/" = false.
Proof. repeat split. Qed.

Example time_Sub_cases :
  time_Sub t2016 zeroTime = maxInt64
  /\ time_Sub (t2016 + 15 * time_Second) t2016 = 15 * time_Second
  /\ time_Sub zeroTime t2016 = minInt64.
Proof. repeat split. Qed.

(** The comparison [Store] makes, [err == nil && bytes.Equal(haveSHA, wantSHA)],
    holds exactly when the stored hash decodes, without error, to [have]. *)
Lemma compare_stored_hash (f : File) (have : list byte) :
  (let '(want, err) := hex_DecodeString (ContentSha1 f) in
   is_nil err && bytes_Equal have want) = true
  <-> stored_hash_is f have.
Proof.
  unfold stored_hash_is.
  destruct (hex_DecodeString (ContentSha1 f)) as [want [e|]]; cbn.
  - split; [discriminate | intros Heq; inversion Heq].
  - rewrite bytes_Equal_eq. split; intros Heq; [subst | inversion Heq]; reflexivity.
Qed.

(** Read against the zero [Time], any clock later than 15 s into year 1 is
    more than 15 s away. *)
Lemma since_zeroTime now :
  time_Second * 15 < now -> (time_Sub now zeroTime >? time_Second * 15) = true.
Proof.
  intros Hnow. unfold time_Sub, zeroTime, minInt64, maxInt64, time_Second in *.
  rewrite Z.sub_0_r.
  destruct (now <? - 2 ^ 63) eqn:Hlo; [apply Z.ltb_lt in Hlo; lia|].
  destruct (now >? 2 ^ 63 - 1) eqn:Hhi; [reflexivity|].
  apply Z.gtb_lt. lia.
Qed.

Section AdapterFacts.

Context {W : Type} `{World W}.

(** A hit: the slot is for [name] and not older than 15 s.  Nothing is asked
    of the world and nothing changes. *)
Lemma listFileCached_hit (s : St W) (name : string) :
  ll_file (lastList (be s)) = name ->
  elapsed (be s) (time_Now (world s)) <= time_Second * 15 ->
  listFileCached name s
  = Done (ll_found (lastList (be s)), ll_id (lastList (be s)), None) s.
Proof.
  intros Hname Hage. unfold listFileCached, bind, getBe, ask, elapsed in *.
  apply String.eqb_eq in Hname. rewrite Hname. cbn [negb orb].
  destruct (time_Sub _ _ >? _) eqn:Hcmp; [apply Z.gtb_lt in Hcmp; lia|].
  reflexivity.
Qed.

(** A miss: the slot is for another name, or older than 15 s.  The bucket is
    asked for a listing of exactly [name], at most one entry; an answer
    replaces the slot, an error leaves it. *)
Lemma listFileCached_miss (s : St W) (name : string) (bk : Bucket) :
  ll_file (lastList (be s)) <> name
  \/ time_Second * 15 < elapsed (be s) (time_Now (world s)) ->
  bucket (be s) = Some bk ->
  listFileCached name s
  = match bucket_ListFileNames bk name 1 (world s) with
    | ((_, Some e), w') =>
        Done (false, "", Some e)
             {| be := be s; world := w'; log := log s ++ [EvListFileNames bk name 1] |}
    | ((None, None), w') =>
        Panic {| be := be s; world := w'; log := log s ++ [EvListFileNames bk name 1] |}
    | ((Some res, None), w') =>
        let slot := slot_of (time_Now w') name res in
        Done (ll_found slot, ll_id slot, None)
             {| be := {| bucket := bucket (be s); prefix := prefix (be s); lastList := slot |};
                world := w';
                log := log s ++ [EvListFileNames bk name 1] |}
    end.
Proof.
  intros Hmiss Hbk. unfold listFileCached, bind, getBe, ask, elapsed in *.
  assert (Hguard :
    negb (ll_file (lastList (be s)) =? name)%string
    || (time_Sub (time_Now (world s)) (ll_setAt (lastList (be s))) >? time_Second * 15)
    = true).
  { destruct Hmiss as [Hne | Hold].
    - apply String.eqb_neq in Hne. rewrite Hne. reflexivity.
    - apply orb_true_iff. right. apply Z.gtb_lt. exact Hold. }
  rewrite Hguard.
  unfold the_bucket, bind, getBe, call. rewrite Hbk. cbn [ret].
  destruct (bucket_ListFileNames bk name 1 (world s)) as [[[res|] [e|]] w'];
    cbn; try reflexivity.
  unfold slot_of, setBe, ret.
  destruct (Files res) as [|f fs]; [rewrite ?Hbk; reflexivity|].
  destruct (Name f =? name)%string; rewrite ?Hbk; reflexivity.
Qed.

End AdapterFacts.

(** *** Setup *)

Section SetupFacts.

Context {W : Type} `{World W}.

(** Neither [authenticate] nor [getBucketConfig] touches the receiver. *)
Lemma authenticate_be (s : St W) :
  be (state_of (authenticate s)) = be s.
Proof.
  unfold authenticate, GetConfig, bind, call, ask, ret.
  destruct (external_GetConfig "accountid" (world s)) as [[a [e|]] w1]; cbn; [reflexivity|].
  destruct (a =? "")%string; cbn.
  - destruct (os_Getenv "B2_ACCOUNT_ID" w1 =? "")%string; cbn; [reflexivity|].
    destruct (external_GetConfig "appkey" w1) as [[k [e|]] w2]; cbn; [reflexivity|].
    destruct (k =? "")%string; cbn.
    + destruct (os_Getenv "B2_APP_KEY" w2 =? "")%string; cbn; [reflexivity|].
      destruct (backblaze_NewB2 _ w2) as [[b [e|]] w3]; reflexivity.
    + destruct (k =? "")%string; cbn; [reflexivity|].
      destruct (backblaze_NewB2 _ w2) as [[b [e|]] w3]; reflexivity.
  - destruct (a =? "")%string; cbn; [reflexivity|].
    destruct (external_GetConfig "appkey" w1) as [[k [e|]] w2]; cbn; [reflexivity|].
    destruct (k =? "")%string; cbn.
    + destruct (os_Getenv "B2_APP_KEY" w2 =? "")%string; cbn; [reflexivity|].
      destruct (backblaze_NewB2 _ w2) as [[b [e|]] w3]; reflexivity.
    + destruct (k =? "")%string; cbn; [reflexivity|].
      destruct (backblaze_NewB2 _ w2) as [[b [e|]] w3]; reflexivity.
Qed.

Lemma getBucketConfig_be (s : St W) :
  be (state_of (getBucketConfig s)) = be s.
Proof.
  unfold getBucketConfig, GetConfig, bind, call, ret.
  destruct (external_GetConfig "bucket" (world s)) as [[b [e|]] w1]; cbn; [reflexivity|].
  destruct (b =? "")%string; cbn; [reflexivity|].
  destruct (external_GetConfig "prefix" w1) as [[p err] w2]; reflexivity.
Qed.

(** With a bucket bound, [setup] returns at once. *)
Lemma setup_bound (s : St W) (canCreateBucket : bool) :
  bucket (be s) <> None -> setup canCreateBucket s = Done None s.
Proof.
  intros Hbound. unfold setup, bind, getBe.
  destruct (bucket (be s)); [reflexivity | contradiction].
Qed.

(** What [getBucketConfig] answers once the bucket name has arrived: the
    error of the prefix query does not reach the result. *)
Lemma getBucketConfig_prefix (s : St W) bucketName w1 p err w2 :
  external_GetConfig "bucket" (world s) = ((bucketName, None), w1) ->
  bucketName <> "" ->
  external_GetConfig "prefix" w1 = ((p, err), w2) ->
  exists pfx,
    getBucketConfig s
    = Done (bucketName, pfx, None)
           {| be := be s; world := w2;
              log := (log s ++ [EvGetConfig "bucket"]) ++ [EvGetConfig "prefix"] |}.
Proof.
  intros Hb Hne Hp. unfold getBucketConfig, GetConfig, bind, call, ret.
  rewrite Hb. cbn. apply String.eqb_neq in Hne. rewrite Hne. cbn. rewrite Hp.
  eexists. reflexivity.
Qed.

(** No method other than [setup] writes [be.bucket] or [be.prefix]. *)
Lemma CheckPresent_keeps_binding (key : string) (s : St W) :
  bucket (be (state_of (CheckPresent key s))) = bucket (be s)
  /\ prefix (be (state_of (CheckPresent key s))) = prefix (be s).
Proof.
  destruct s as [b w l]. run_cases b; split; reflexivity.
Qed.

Lemma Remove_keeps_binding (key : string) (s : St W) :
  bucket (be (state_of (Remove key s))) = bucket (be s)
  /\ prefix (be (state_of (Remove key s))) = prefix (be s).
Proof.
  destruct s as [b w l]. run_cases b; split; reflexivity.
Qed.

Lemma Store_keeps_binding (key file : string) (s : St W) :
  bucket (be (state_of (Store key file s))) = bucket (be s)
  /\ prefix (be (state_of (Store key file s))) = prefix (be s).
Proof.
  destruct s as [b w l]. run_cases b; split; reflexivity.
Qed.

End SetupFacts.

(** C5 (as the code has it).  [GetCost] and [WhereIs] signal "not supported"
    for every input; [GetAvailability] does not: it answers
    [AvailabilityGlobal] with a nil error. *)
Theorem C5_unsupported_operations :
  forall (W : Type) (HW : World W) (s : St W) (key : string),
    GetCost s = Done (0, Some ErrUnsupportedRequest) s
    /\ WhereIs key s = Done ("", Some ErrUnsupportedRequest) s
    /\ GetAvailability s = Done (AvailabilityGlobal, None) s.
Proof.
  intros W HW s key. repeat split.
Qed.

(** C5 as stated fails: [GetAvailability] does not signal "not supported". *)
Lemma C5_GetAvailability_answers :
  ~ signals_unsupported (run GetAvailability be_ready fake_ok).
Proof.
  intros [a [s Heq]]. cbv in Heq. discriminate Heq.
Qed.

(** C6.  Once the adapter holds a bucket, as it does after a setup call that
    succeeded in binding one, every later setup call, of either kind and
    however many, returns success and leaves receiver, world and log as they
    were: no configuration query, no authentication, no bucket open or
    create.  The binding is kept by [Store], [CheckPresent] and [Remove], so
    this holds at every later point of the process. *)
Theorem C6_setup_idempotent :
  forall (W : Type) (HW : World W) (s0 s : St W) (first : bool),
    setup first s0 = Done None s ->
    bucket (be s) <> None ->
    (forall modes : list bool,
        setup_all modes s = Done (map (fun _ => None) modes) s)
    /\ (forall canCreateBucket : bool, setup canCreateBucket s = Done None s)
    /\ (forall key file : string, bucket (be (state_of (Store key file s))) <> None)
    /\ (forall key : string, bucket (be (state_of (CheckPresent key s))) <> None)
    /\ (forall key : string, bucket (be (state_of (Remove key s))) <> None).
Proof.
  intros W HW s0 s first _ Hbound.
  split; [|split; [|split; [|split]]].
  - induction modes as [|m rest IH]; cbn [setup_all map].
    + reflexivity.
    + unfold bind. rewrite (setup_bound s m Hbound), IH. reflexivity.
  - intros c. apply setup_bound. exact Hbound.
  - intros key file. rewrite (proj1 (Store_keeps_binding key file s)). exact Hbound.
  - intros key. rewrite (proj1 (CheckPresent_keeps_binding key s)). exact Hbound.
  - intros key. rewrite (proj1 (Remove_keeps_binding key s)). exact Hbound.
Qed.

Lemma C6_setup_idempotent_witness :
  setup_all [false; true; false]
            {| be := be_ready; world := fake_ok;
               log := [EvGetConfig "accountid"; EvGetConfig "appkey";
                       EvNewB2 {| AccountID := "0123456789ab"; ApplicationKey := "K001secret" |};
                       EvGetConfig "bucket"; EvGetConfig "prefix"; EvBucket "mydata"] |}
  = Done [None; None; None]
         {| be := be_ready; world := fake_ok;
            log := [EvGetConfig "accountid"; EvGetConfig "appkey";
                    EvNewB2 {| AccountID := "0123456789ab"; ApplicationKey := "K001secret" |};
                    EvGetConfig "bucket"; EvGetConfig "prefix"; EvBucket "mydata"] |}.
Proof.
  refine (proj1 (C6_setup_idempotent Fake Fake_World
                   {| be := B2Ext_zero; world := fake_ok; log := [] |} _ true
                   _ _) [false; true; false]).
  - vm_compute. reflexivity.
  - cbn. discriminate.
Defined.

(** C7.  On an unconfigured adapter, when authentication and the resolution
    of bucket name and prefix have succeeded and the client reports that no
    bucket of that name exists: [Prepare] fails with the error "bucket ...
    does not exist anymore", makes no create call and leaves the receiver as
    it was (unconfigured); [InitRemote] asks for the bucket to be created with
    type [AllPrivate] and, when that call reports no error, succeeds and binds
    the bucket and prefix. *)
Theorem C7_missing_bucket :
  forall (W : Type) (HW : World W) (s s1 s2 : St W) (b2 : B2)
         (bucketName pfx : string) (w3 : W),
    bucket (be s) = None ->
    authenticate s = Done (Some b2, None) s1 ->
    getBucketConfig s1 = Done (bucketName, pfx, None) s2 ->
    b2_Bucket b2 bucketName (world s2) = ((None, None), w3) ->
    Prepare s
    = Done (Some (fmt_Errorf "bucket %#v does not exist anymore" [inl bucketName]))
           {| be := be s; world := w3; log := log s2 ++ [EvBucket bucketName] |}
    /\ forall (created : option Bucket) (w4 : W),
         b2_CreateBucket b2 bucketName AllPrivate w3 = ((created, None), w4) ->
         InitRemote s
         = Done None
                {| be := {| bucket := created; prefix := pfx; lastList := lastList (be s) |};
                   world := w4;
                   log := log s2
                          ++ [EvBucket bucketName;
                              EvStderr "Creating private B2 bucket %#v\n" [bucketName];
                              EvCreateBucket bucketName AllPrivate] |}.
Proof.
  intros W HW s s1 s2 b2 bucketName pfx w3 Hnone Hauth Hcfg Hopen.
  assert (Hbe : be s2 = be s).
  { pose proof (authenticate_be s) as H1. rewrite Hauth in H1.
    pose proof (getBucketConfig_be s1) as H2. rewrite Hcfg in H2.
    cbn in H1, H2. congruence. }
  split.
  - unfold Prepare, setup, bind, getBe. rewrite Hnone, Hauth, Hcfg.
    unfold call. rewrite Hopen. cbn. rewrite Hbe. reflexivity.
  - intros created w4 Hcreate.
    unfold InitRemote, setup, bind, getBe. rewrite Hnone, Hauth, Hcfg.
    unfold call. rewrite Hopen. cbn. rewrite Hcreate. cbn.
    rewrite Hbe, <- !app_assoc. reflexivity.
Qed.

Lemma C7_missing_bucket_witness :
  result_of (run Prepare B2Ext_zero fake_no_bucket)
  = Some (Some (fmt_Errorf "bucket %#v does not exist anymore" [inl "mydata"]))
  /\ be (state_of (run Prepare B2Ext_zero fake_no_bucket)) = B2Ext_zero
  /\ result_of (run InitRemote B2Ext_zero fake_no_bucket) = Some None
  /\ bucket (be (state_of (run InitRemote B2Ext_zero fake_no_bucket))) = Some mydata.
Proof.
  pose (s := {| be := B2Ext_zero; world := fake_no_bucket; log := [] |}).
  pose (creds := {| AccountID := "0123456789ab"; ApplicationKey := "K001secret" |}).
  pose (s1 := {| be := B2Ext_zero; world := fake_no_bucket;
                 log := [EvGetConfig "accountid"; EvGetConfig "appkey"; EvNewB2 creds] |}).
  pose (s2 := {| be := B2Ext_zero; world := fake_no_bucket;
                 log := [EvGetConfig "accountid"; EvGetConfig "appkey"; EvNewB2 creds;
                         EvGetConfig "bucket"; EvGetConfig "prefix"] |}).
  assert (Hnone : bucket (be s) = None) by reflexivity.
  assert (Hauth : authenticate s = Done (Some {| b2_account := "0123456789ab" |}, None) s1)
    by (vm_compute; reflexivity).
  assert (Hcfg : getBucketConfig s1 = Done ("mydata", "raw/", None) s2)
    by (vm_compute; reflexivity).
  assert (Hopen : b2_Bucket {| b2_account := "0123456789ab" |} "mydata" (world s2)
                  = ((None, None), fake_no_bucket)) by reflexivity.
  destruct (C7_missing_bucket Fake Fake_World s s1 s2 _ _ _ _ Hnone Hauth Hcfg Hopen)
    as [HPrepare HInit].
  specialize (HInit (Some mydata) fake_no_bucket eq_refl).
  unfold run. fold s. rewrite HPrepare, HInit. cbn. repeat split.
Defined.

(** C8, evaluated where it fails: the query for [prefix] answers an error,
    and [InitRemote] reports success, with an empty prefix bound; the error
    appears nowhere in the result. *)
Theorem C8_prefix_error_is_dropped :
  external_GetConfig "prefix" fake_prefix_error = (("", Some boom), fake_prefix_error)
  /\ result_of (run InitRemote B2Ext_zero fake_prefix_error) = Some None
  /\ be (state_of (run InitRemote B2Ext_zero fake_prefix_error))
     = {| bucket := Some mydata; prefix := ""; lastList := cleared |}.
Proof.
  repeat split.
Qed.

(** The sibling paths: the errors of the other three queries do reach the
    caller of [setup]. *)
Lemma setup_reports_accountid_error
  (W : Type) (HW : World W) (s : St W) (c : bool) v e w1 :
  bucket (be s) = None ->
  external_GetConfig "accountid" (world s) = ((v, Some e), w1) ->
  setup c s
  = Done (Some e) {| be := be s; world := w1; log := log s ++ [EvGetConfig "accountid"] |}.
Proof.
  intros Hnone Hq.
  unfold setup, bind, getBe. rewrite Hnone.
  unfold authenticate, GetConfig, bind, call. rewrite Hq. reflexivity.
Qed.

Lemma getBucketConfig_reports_bucket_error
  (W : Type) (HW : World W) (s : St W) v e w1 :
  external_GetConfig "bucket" (world s) = ((v, Some e), w1) ->
  getBucketConfig s
  = Done ("", "", Some e)
         {| be := be s; world := w1; log := log s ++ [EvGetConfig "bucket"] |}.
Proof.
  intros Hq. unfold getBucketConfig, GetConfig, bind, call. rewrite Hq. reflexivity.
Qed.

(** *** Remove *)

(** C4 (as the code has it).  When the existence lookup of [Remove] reports
    the object present and the delete of that version then fails, [Remove]
    reports a failure that wraps the delete error, and the cache slot is
    cleared: [clearListFileCache] runs as soon as the delete call has
    returned, before its error is looked at. *)
Theorem C4_remove_failed_delete :
  forall (W : Type) (HW : World W) (s s1 : St W) (key fileID : string)
         (bk : Bucket) (e : error) (w2 : W),
    listFileCached (prefix (be s) ++ key)%string s = Done (true, fileID, None) s1 ->
    bucket (be s1) = Some bk ->
    bucket_DeleteFileVersion bk (prefix (be s1) ++ key)%string fileID (world s1)
    = (Some e, w2) ->
    Remove key s
    = Done (Some (fmt_Errorf "couldn't delete file version: %v" [inr e]))
           {| be := {| bucket := bucket (be s1); prefix := prefix (be s1);
                       lastList := cleared |};
              world := w2;
              log := log s1
                     ++ [EvDeleteFileVersion bk (prefix (be s1) ++ key)%string fileID] |}.
Proof.
  intros W HW s s1 key fileID bk e w2 Hlookup Hbk Hdel.
  unfold Remove, bind, getBe. rewrite Hlookup. cbn.
  unfold the_bucket, bind, getBe. rewrite Hbk. cbn.
  unfold call. rewrite Hdel. cbn. rewrite ?Hbk. reflexivity.
Qed.

Lemma C4_remove_failed_delete_witness :
  result_of (run (Remove "KEY1") be_cached fake_delete_fails)
  = Some (Some (fmt_Errorf "couldn't delete file version: %v" [inr boom]))
  /\ lastList (be (state_of (run (Remove "KEY1") be_cached fake_delete_fails))) = cleared.
Proof.
  pose (s := {| be := be_cached; world := fake_delete_fails; log := [] |}).
  assert (Hlookup : listFileCached (prefix (be s) ++ "KEY1")%string s
                    = Done (true, "v1", None) s) by (vm_compute; reflexivity).
  assert (Hbk : bucket (be s) = Some mydata) by reflexivity.
  assert (Hdel : bucket_DeleteFileVersion mydata (prefix (be s) ++ "KEY1")%string "v1"
                   (world s) = (Some boom, fake_delete_fails)) by reflexivity.
  pose proof (C4_remove_failed_delete Fake Fake_World s s "KEY1" "v1" mydata boom
                fake_delete_fails Hlookup Hbk Hdel) as HRemove.
  unfold run. fold s. rewrite HRemove. split; reflexivity.
Defined.

(** C4 as stated fails: the lookup reports [raw/KEY1] present (from the
    slot), the delete fails, [Remove] reports the failure, and the slot that
    held the entry for [raw/KEY1] is no longer what it was. *)
Lemma C4_slot_not_left_untouched :
  listFileCached "raw/KEY1" {| be := be_cached; world := fake_delete_fails; log := [] |}
  = Done (true, "v1", None) {| be := be_cached; world := fake_delete_fails; log := [] |}
  /\ bucket_DeleteFileVersion mydata "raw/KEY1" "v1" fake_delete_fails
     = (Some boom, fake_delete_fails)
  /\ result_of (run (Remove "KEY1") be_cached fake_delete_fails)
     = Some (Some (fmt_Errorf "couldn't delete file version: %v" [inr boom]))
  /\ lastList (be (state_of (run (Remove "KEY1") be_cached fake_delete_fails)))
     <> lastList be_cached.
Proof.
  repeat split; try (vm_compute; reflexivity).
  vm_compute. discriminate.
Qed.

(** *** Store *)

Section StoreFacts.

Context {W : Type} `{World W}.

Lemma call_frame {A} (ev : Event) (f : W -> A * W) (s s' : St W) (a : A) :
  call ev f s = Done a s' -> be s' = be s /\ log s' = log s ++ [ev].
Proof.
  unfold call. destruct (f (world s)) as [a' w']. intros Heq.
  inversion Heq; subst. split; reflexivity.
Qed.

(** The hashing task leaves the receiver alone and makes no remote call. *)
Lemma hashTask_frame (fh : osFile) (s s' : St W) (sha : shaVars) :
  hashTask fh s = Done sha s' ->
  be s' = be s
  /\ exists pre, log s' = log s ++ pre
                 /\ existsb is_upload pre = false /\ existsb is_delete pre = false.
Proof.
  unfold hashTask, bind, call, ret.
  destruct (io_Copy_sha1 fh (world s)) as [[[n digest] [e|]] w1]; cbn.
  - intros Heq; inversion Heq; subst; cbn. split; [reflexivity|].
    exists [EvCopySha1 fh]. repeat split.
  - destruct (file_Seek fh 0 0 w1) as [serr w2].
    intros Heq; inversion Heq; subst; cbn. split; [reflexivity|].
    exists [EvCopySha1 fh; EvSeek fh 0 0]. rewrite <- app_assoc. repeat split.
Qed.

(** [listFileCached] keeps bucket and prefix, and makes no upload or delete
    call. *)
Lemma listFileCached_frame (name : string) (s s' : St W) r :
  listFileCached name s = Done r s' ->
  bucket (be s') = bucket (be s) /\ prefix (be s') = prefix (be s)
  /\ exists pre, log s' = log s ++ pre
                 /\ existsb is_upload pre = false /\ existsb is_delete pre = false.
Proof.
  unfold listFileCached, bind, getBe, ask, the_bucket, bind, getBe, call, setBe, ret.
  destruct (negb _ || _).
  - destruct (bucket (be s)) as [bk|] eqn:Hbk; [|discriminate].
    destruct (bucket_ListFileNames bk name 1 (world s)) as [[[res|] [e|]] w']; cbn;
      try discriminate;
      intros Heq; inversion Heq; subst; cbn; repeat split; auto;
      exists [EvListFileNames bk name 1]; repeat split.
  - intros Heq; inversion Heq; subst. repeat split.
    exists []. rewrite app_nil_r. repeat split.
Qed.

End StoreFacts.

(** C1 (as the code has it).  For a [Store] call in which the local file
    opens, hashing succeeds and the existence lookup answers without error
    (none of these steps makes an upload or delete call):
    - when the lookup reports no object of that name, [Store] calls upload and
      makes no delete call;
    - when it reports one, and get-info answers with its stored hash: if that
      hash equals the local one, [Store] returns success with no upload (and
      no delete); if it differs, [Store] calls delete on that version, and
      then calls upload when the delete succeeded, whereas a failed delete
      ends [Store] with that failure and no upload. *)
Theorem C1_store_dedup :
  forall (W : Type) (HW : World W) (s s1 s2 s3 : St W) (key file : string)
         (fh : osFile) (sha : shaVars) (fnd : bool) (fileID : string),
    call (EvOpen file) (os_Open file) s = Done (inl fh) s1 ->
    hashTask fh s1 = Done sha s2 ->
    shaError sha = None ->
    listFileCached (prefix (be s) ++ key)%string s2 = Done (fnd, fileID, None) s3 ->
    let name := (prefix (be s) ++ key)%string in
    let upload bk :=
      EvUploadHashedFile bk name fh (hex_EncodeToString (haveSHA sha)) (contentLength sha) in
    (exists pre, log s3 = log s ++ pre
                 /\ existsb is_upload pre = false /\ existsb is_delete pre = false)
    /\ (fnd = false ->
        forall bk, bucket (be s3) = Some bk ->
        exists r s', Store key file s = Done r s'
                     /\ log s' = log s3 ++ [upload bk; EvClose fh])
    /\ (fnd = true ->
        forall bk f w4,
          bucket (be s3) = Some bk ->
          bucket_GetFileInfo bk fileID (world s3) = ((Some f, None), w4) ->
          (stored_hash_is f (haveSHA sha) ->
           exists s', Store key file s = Done None s'
                      /\ log s' = log s3 ++ [EvGetFileInfo bk fileID; EvClose fh])
          /\ (~ stored_hash_is f (haveSHA sha) ->
              forall derr w5,
                bucket_DeleteFileVersion bk name (File_ID f) w4 = (derr, w5) ->
                match derr with
                | None =>
                    exists r s', Store key file s = Done r s'
                                 /\ log s' = log s3
                                             ++ [EvGetFileInfo bk fileID;
                                                 EvDeleteFileVersion bk name (File_ID f);
                                                 upload bk; EvClose fh]
                | Some e =>
                    exists s',
                      Store key file s
                      = Done (Some (fmt_Errorf "couldn't delete old file version: %v"
                                               [inr e])) s'
                      /\ log s' = log s3
                                  ++ [EvGetFileInfo bk fileID;
                                      EvDeleteFileVersion bk name (File_ID f);
                                      EvClose fh]
                end)).
Proof.
  intros W HW s s1 s2 s3 key file fh sha fnd fileID Hopen Hhash Hsha Hlookup name upload.
  destruct (call_frame _ _ _ _ _ Hopen) as [Hbe1 Hlog1].
  destruct (hashTask_frame _ _ _ _ Hhash) as [Hbe2 [pre2 [Hlog2 [Hup2 Hdel2]]]].
  destruct (listFileCached_frame _ _ _ _ Hlookup) as [Hbk3 [Hpfx3 [pre3 [Hlog3 [Hup3 Hdel3]]]]].
  assert (Hpfx : prefix (be s3) = prefix (be s)) by congruence.
  assert (Hbes2 : prefix (be s2) = prefix (be s)) by congruence.
  split.
  { exists ([EvOpen file] ++ pre2 ++ pre3).
    rewrite Hlog3, Hlog2, Hlog1, <- !app_assoc.
    rewrite !existsb_app, Hup2, Hup3, Hdel2, Hdel3. repeat split. }
  split.
  - intros -> bk Hbk.
    store_to_lookup Hopen Hhash Hbes2 Hlookup. rewrite Hsha.
    unfold getBe, the_bucket, bind, getBe. rewrite Hbk. cbn [ret].
    unfold call, clearListFileCache, bind, getBe, setBe.
    rewrite Hpfx.
    destruct (bucket_UploadHashedFile bk _ fh _ _ (world s3)) as [[e|] w6];
      cbn; do 2 eexists; (split; [reflexivity|]); cbn; rewrite <- !app_assoc; reflexivity.
  - intros -> bk f w4 Hbk Hinfo.
    split.
    + intros Hsame.
      store_to_lookup Hopen Hhash Hbes2 Hlookup.
      unfold the_bucket, bind, getBe. rewrite Hbk. cbn [ret].
      unfold call at 1. rewrite Hinfo. cbn iota beta.
      apply compare_stored_hash in Hsame.
      destruct (hex_DecodeString (ContentSha1 f)) as [want err]. rewrite Hsame.
      cbn. eexists. split; [reflexivity|]. cbn. rewrite <- !app_assoc. reflexivity.
    + intros Hdiff derr w5 Hdelete.
      assert (Hcmp : (let '(want, err) := hex_DecodeString (ContentSha1 f) in
                      is_nil err && bytes_Equal (haveSHA sha) want) = false).
      { destruct (let '(want, err) := hex_DecodeString (ContentSha1 f) in
                  is_nil err && bytes_Equal (haveSHA sha) want) eqn:Hc; [|reflexivity].
        exfalso. apply Hdiff. apply compare_stored_hash. exact Hc. }
      destruct derr as [e|];
        store_to_lookup Hopen Hhash Hbes2 Hlookup;
        unfold the_bucket, bind, getBe; rewrite Hbk; cbn [ret];
        unfold call at 1; rewrite Hinfo; cbn iota beta;
        destruct (hex_DecodeString (ContentSha1 f)) as [want err]; rewrite Hcmp;
        cbn [be world log]; rewrite Hbk; cbn [ret]; rewrite Hpfx;
        unfold call at 1; cbn [be world log]; fold name; rewrite Hdelete;
        cbn iota beta.
      * cbn. eexists. split; [reflexivity|]. cbn. rewrite <- !app_assoc. reflexivity.
      * rewrite Hsha. cbn [be world log]. rewrite Hbk. cbn [ret].
        unfold call, clearListFileCache, bind, getBe, setBe. cbn [be world log].
        rewrite Hpfx.
        destruct (bucket_UploadHashedFile bk _ fh _ _ w5) as [[e|] w6];
          cbn; do 2 eexists; (split; [reflexivity|]); cbn; rewrite <- !app_assoc;
          reflexivity.
Qed.

Lemma C1_store_dedup_witness :
  (exists s', run (Store "KEY1" "/tmp/f") be_ready fake_ok = Done None s'
              /\ log s' = [EvOpen "/tmp/f"; EvCopySha1 {| fd := 3 |};
                           EvSeek {| fd := 3 |} 0 0;
                           EvListFileNames mydata "raw/KEY1" 1;
                           EvGetFileInfo mydata "v1"; EvClose {| fd := 3 |}])
  /\ (exists r s', run (Store "KEY1" "/tmp/f") be_ready fake_differs = Done r s'
                   /\ log s' = [EvOpen "/tmp/f"; EvCopySha1 {| fd := 3 |};
                                EvSeek {| fd := 3 |} 0 0;
                                EvListFileNames mydata "raw/KEY1" 1;
                                EvGetFileInfo mydata "v1";
                                EvDeleteFileVersion mydata "raw/KEY1" "v1";
                                EvUploadHashedFile mydata "raw/KEY1" {| fd := 3 |}
                                  sha_empty_hex 0;
                                EvClose {| fd := 3 |}]).
Proof.
  pose (fh := {| fd := 3 |}).
  pose (sha := {| haveSHA := sha_empty; contentLength := 0; shaError := None |}).
  pose (info := {| File_ID := "v1"; ContentSha1 := sha_empty_hex |}).
  pose (info' := {| File_ID := "v1"; ContentSha1 := sha_a_hex |}).
  pose (st := fun (w : Fake) (b : B2Ext) (l : list Event) =>
                {| be := b; world := w; log := l |}).
  pose (l1 := [EvOpen "/tmp/f"]).
  pose (l2 := [EvOpen "/tmp/f"; EvCopySha1 fh; EvSeek fh 0 0]).
  pose (l3 := [EvOpen "/tmp/f"; EvCopySha1 fh; EvSeek fh 0 0;
               EvListFileNames mydata "raw/KEY1" 1]).
  split.
  - assert (Hopen : call (EvOpen "/tmp/f") (os_Open "/tmp/f") (st fake_ok be_ready [])
                    = Done (inl fh) (st fake_ok be_ready l1)) by reflexivity.
    assert (Hhash : hashTask fh (st fake_ok be_ready l1)
                    = Done sha (st fake_ok be_ready l2)) by reflexivity.
    assert (Hsha : shaError sha = None) by reflexivity.
    assert (Hlookup :
      listFileCached (prefix (be (st fake_ok be_ready [])) ++ "KEY1")%string
                     (st fake_ok be_ready l2)
      = Done (true, "v1", None) (st fake_ok be_cached l3)) by (vm_compute; reflexivity).
    destruct (C1_store_dedup Fake Fake_World _ _ _ _ "KEY1" "/tmp/f" fh sha true "v1"
                Hopen Hhash Hsha Hlookup) as [_ [_ Hfound]].
    destruct (Hfound eq_refl mydata info fake_ok eq_refl eq_refl) as [Hsame _].
    destruct Hsame as [s' [HStore Hlog]]; [vm_compute; reflexivity|].
    exists s'. split; [exact HStore | exact Hlog].
  - assert (Hopen : call (EvOpen "/tmp/f") (os_Open "/tmp/f") (st fake_differs be_ready [])
                    = Done (inl fh) (st fake_differs be_ready l1)) by reflexivity.
    assert (Hhash : hashTask fh (st fake_differs be_ready l1)
                    = Done sha (st fake_differs be_ready l2)) by reflexivity.
    assert (Hsha : shaError sha = None) by reflexivity.
    assert (Hlookup :
      listFileCached (prefix (be (st fake_differs be_ready [])) ++ "KEY1")%string
                     (st fake_differs be_ready l2)
      = Done (true, "v1", None) (st fake_differs be_cached l3))
      by (vm_compute; reflexivity).
    destruct (C1_store_dedup Fake Fake_World _ _ _ _ "KEY1" "/tmp/f" fh sha true "v1"
                Hopen Hhash Hsha Hlookup) as [_ [_ Hfound]].
    destruct (Hfound eq_refl mydata info' fake_differs eq_refl eq_refl) as [_ Hdiff].
    assert (Hne : ~ stored_hash_is info' (haveSHA sha)).
    { unfold stored_hash_is. vm_compute. discriminate. }
    pose proof (Hdiff Hne None fake_differs eq_refl) as [r [s' [HStore Hlog]]].
    exists r, s'. split; [exact HStore | exact Hlog].
Defined.

(** C1 as stated fails where the delete fails: the file opens, hashing
    succeeds, the object [raw/KEY1] exists with a stored hash other than the
    local one, [Store] calls delete on its version, and then makes no upload
    call at all. *)
Lemma C1_no_upload_after_failed_delete :
  os_Open "/tmp/f" fake_delete_fails = (inl {| fd := 3 |}, fake_delete_fails)
  /\ io_Copy_sha1 {| fd := 3 |} fake_delete_fails = ((0, sha_empty, None), fake_delete_fails)
  /\ file_Seek {| fd := 3 |} 0 0 fake_delete_fails = (None, fake_delete_fails)
  /\ bucket_ListFileNames mydata "raw/KEY1" 1 fake_delete_fails
     = ((Some {| Files := [ {| Name := "raw/KEY1"; ID := "v1" |} ] |}, None),
        fake_delete_fails)
  /\ bucket_GetFileInfo mydata "v1" fake_delete_fails
     = ((Some {| File_ID := "v1"; ContentSha1 := sha_a_hex |}, None), fake_delete_fails)
  /\ ~ stored_hash_is {| File_ID := "v1"; ContentSha1 := sha_a_hex |} sha_empty
  /\ existsb is_delete
       (log (state_of (run (Store "KEY1" "/tmp/f") be_ready fake_delete_fails))) = true
  /\ existsb is_upload
       (log (state_of (run (Store "KEY1" "/tmp/f") be_ready fake_delete_fails))) = false
  /\ result_of (run (Store "KEY1" "/tmp/f") be_ready fake_delete_fails)
     = Some (Some (fmt_Errorf "couldn't delete old file version: %v" [inr boom])).
Proof.
  repeat split; try (vm_compute; reflexivity).
  unfold stored_hash_is. vm_compute. discriminate.
Qed.

(** C2, evaluated where it fails.  Reading the local file fails while it is
    hashed, so no hash of it exists ([haveSHA] stays nil and [shaError] is
    set); the remote object [raw/KEY1] is found and carries an empty stored
    hash; [Store] compares nil against the empty decoding, takes the "already
    stored" exit and reports success without an upload.  Likewise when the
    hashing task fails in its last step, the rewind: [shaError] is set, and
    [Store] still takes that exit. *)
Theorem C2_skip_after_failed_hash :
  (result_of (hashTask {| fd := 3 |}
                       {| be := be_ready; world := fake_hash_fails; log := [] |})
   = Some {| haveSHA := []; contentLength := 0;
             shaError := Some (errors_New "read /tmp/f: input/output error") |}
   /\ result_of (run (Store "KEY1" "/tmp/f") be_ready fake_hash_fails) = Some None
   /\ log (state_of (run (Store "KEY1" "/tmp/f") be_ready fake_hash_fails))
      = [EvOpen "/tmp/f"; EvCopySha1 {| fd := 3 |};
         EvListFileNames mydata "raw/KEY1" 1; EvGetFileInfo mydata "v1";
         EvClose {| fd := 3 |}])
  /\ (result_of (hashTask {| fd := 3 |}
                          {| be := be_ready; world := fake_seek_fails; log := [] |})
      = Some {| haveSHA := sha_empty; contentLength := 0;
                shaError := Some (errors_New "seek /tmp/f: illegal seek") |}
      /\ result_of (run (Store "KEY1" "/tmp/f") be_ready fake_seek_fails) = Some None
      /\ existsb is_upload
           (log (state_of (run (Store "KEY1" "/tmp/f") be_ready fake_seek_fails)))
         = false).
Proof.
  split; repeat split.
Qed.

(** The same missing check on the other exit of that branch: with a failed
    hash and an ordinary stored hash, [Store] deletes the remote version
    first and only then reports that the local file could not be hashed. *)
Example Store_deletes_before_hash_check :
  result_of (run (Store "KEY1" "/tmp/f") be_ready fake_hash_fails_stored)
  = Some (Some (fmt_Errorf "couldn't hash local file %v: %v"
                           [inl "/tmp/f";
                            inr (errors_New "read /tmp/f: input/output error")]))
  /\ log (state_of (run (Store "KEY1" "/tmp/f") be_ready fake_hash_fails_stored))
     = [EvOpen "/tmp/f"; EvCopySha1 {| fd := 3 |};
        EvListFileNames mydata "raw/KEY1" 1; EvGetFileInfo mydata "v1";
        EvDeleteFileVersion mydata "raw/KEY1" "v1"; EvClose {| fd := 3 |}].
Proof.
  split; vm_compute; reflexivity.
Qed.

(** *** The cache across calls *)

Section CacheFacts.

Context {W : Type} `{World W}.

(** A [Store] that makes the upload call ends with the slot cleared, bucket
    and prefix as before; the bucket was bound. *)
Lemma Store_upload_clears (key file : string) (b : B2Ext) (w : W) :
  existsb is_upload (log (state_of (run (Store key file) b w))) = true ->
  exists bk,
    bucket b = Some bk
    /\ be (state_of (run (Store key file) b w))
       = {| bucket := Some bk; prefix := prefix b; lastList := cleared |}.
Proof.
  run_cases b; try discriminate; intros _; eexists; split; reflexivity.
Qed.

(** A [Remove] that makes the delete call ends with the slot cleared. *)
Lemma Remove_delete_clears (key : string) (b : B2Ext) (w : W) :
  existsb is_delete (log (state_of (run (Remove key) b w))) = true ->
  exists bk,
    bucket b = Some bk
    /\ be (state_of (run (Remove key) b w))
       = {| bucket := Some bk; prefix := prefix b; lastList := cleared |}.
Proof.
  run_cases b; try discriminate; intros _; eexists; split; reflexivity.
Qed.

Lemma cache_guard_cases (b : B2Ext) (now : Time) (name : string) :
  (ll_file (lastList b) = name /\ elapsed b now <= time_Second * 15)
  \/ (ll_file (lastList b) <> name \/ time_Second * 15 < elapsed b now).
Proof.
  destruct (string_dec (ll_file (lastList b)) name) as [Heq|Hne]; [|right; left; exact Hne].
  destruct (Z_le_gt_dec (elapsed b now) (time_Second * 15)) as [Hle|Hgt].
  - left. split; assumption.
  - right. right. lia.
Qed.

(** [CheckPresent] is the lookup, with its error wrapped. *)
Lemma CheckPresent_lookup (key : string) (s : St W) :
  CheckPresent key s
  = match listFileCached (prefix (be s) ++ key)%string s with
    | Done (fnd, _, None) s' => Done (fnd, None) s'
    | Done (_, _, Some e) s' =>
        Done (false, Some (fmt_Errorf "couldn't list filenames: %v" [inr e])) s'
    | Panic s' => Panic s'
    end.
Proof.
  unfold CheckPresent, bind, getBe.
  destruct (listFileCached _ s) as [[[fnd fid] [e|]] s'|s']; reflexivity.
Qed.

(** With the slot cleared and the clock past its first 15 s, every presence
    check asks the bucket, once. *)
Lemma CheckPresent_after_clear (b : B2Ext) (bk : Bucket) (w : W) (key : string) :
  lastList b = cleared ->
  bucket b = Some bk ->
  time_Second * 15 < time_Now w ->
  log (state_of (run (CheckPresent key) b w))
  = [EvListFileNames bk (prefix b ++ key)%string 1].
Proof.
  intros Hclear Hbk Hclock. unfold run. rewrite CheckPresent_lookup.
  cbn [be]. rewrite (listFileCached_miss _ _ bk); [| |exact Hbk].
  - cbn [world log app].
    destruct (bucket_ListFileNames bk _ 1 w) as [[[res|] [e|]] w']; reflexivity.
  - right. cbn [be world]. unfold elapsed. rewrite Hclear. cbn [ll_setAt cleared].
    apply Z.gtb_lt. apply since_zeroTime. exact Hclock.
Qed.

End CacheFacts.

(** C10.  A [Store] call that makes the upload call ends with the cache slot
    cleared, whatever the upload answered; read by a clock past the first
    15 s of year 1, a presence check made on the adapter right afterwards,
    for any key, asks the bucket for a fresh listing. *)
Theorem C10_store_clears_cache :
  forall (W : Type) (HW : World W) (key file : string) (b : B2Ext) (w : W),
    existsb is_upload (log (state_of (run (Store key file) b w))) = true ->
    lastList (be (state_of (run (Store key file) b w))) = cleared
    /\ exists bk,
         bucket b = Some bk
         /\ forall (w' : W) (key' : string),
              time_Second * 15 < time_Now w' ->
              log (state_of (run (CheckPresent key')
                                 (be (state_of (run (Store key file) b w))) w'))
              = [EvListFileNames bk (prefix b ++ key')%string 1].
Proof.
  intros W HW key file b w Hupload.
  destruct (Store_upload_clears key file b w Hupload) as [bk [Hbk Hbe]].
  rewrite Hbe. split; [reflexivity|].
  exists bk. split; [exact Hbk|].
  intros w' key' Hclock.
  exact (CheckPresent_after_clear
           {| bucket := Some bk; prefix := prefix b; lastList := cleared |}
           bk w' key' eq_refl eq_refl Hclock).
Qed.

Lemma C10_store_clears_cache_witness :
  result_of (run (Store "KEY2" "/tmp/f") be_cached fake_upload_fails)
  = Some (Some (fmt_Errorf "couldn't upload file: %v" [inr boom]))
  /\ lastList (be (state_of (run (Store "KEY2" "/tmp/f") be_cached fake_upload_fails)))
     = cleared
  /\ log (state_of (run (CheckPresent "KEY2")
                        (be (state_of (run (Store "KEY2" "/tmp/f") be_cached
                                           fake_upload_fails)))
                        fake_upload_fails))
     = [EvListFileNames mydata "raw/KEY2" 1].
Proof.
  assert (Hupload :
    existsb is_upload
      (log (state_of (run (Store "KEY2" "/tmp/f") be_cached fake_upload_fails))) = true)
    by (vm_compute; reflexivity).
  destruct (C10_store_clears_cache Fake Fake_World "KEY2" "/tmp/f" be_cached
              fake_upload_fails Hupload) as [Hclear [bk [Hbk Hcheck]]].
  split; [vm_compute; reflexivity|].
  split; [exact Hclear|].
  assert (Hclock : time_Second * 15 < time_Now fake_upload_fails)
    by (vm_compute; reflexivity).
  rewrite (Hcheck fake_upload_fails "KEY2" Hclock).
  cbn in Hbk. inversion Hbk; subst. reflexivity.
Defined.

Lemma append_inj_r (p a b : string) : (p ++ a = p ++ b)%string -> a = b.
Proof.
  induction p as [|c p IH]; cbn; intros Heq; [exact Heq|].
  inversion Heq. apply IH. assumption.
Qed.

Lemma slot_of_file (now : Time) (name : string) (res : ListFilesResponse) :
  ll_file (slot_of now name res) = name /\ ll_setAt (slot_of now name res) = now.
Proof.
  unfold slot_of. destruct (Files res) as [|f fs]; [split; reflexivity|].
  destruct (Name f =? name)%string; split; reflexivity.
Qed.

(** C3 (as the code has it).  On an adapter with a bucket bound:
    - [listFileCached name] reuses the slot exactly when the slot's name is
      [name] and the time since it was set is at most 15 s (not more than
      15 s); in that case nothing is asked of the world; otherwise one
      listing of exactly [name] is issued and its answer, if there is one,
      replaces the slot;
    - of two presence checks for the same key, the first answered without
      error and the second made no later than 15 s after the slot was set, the
      second issues no remote lookup and gives the same answer, and the first
      issued at most one;
    - a presence check for a key other than the one the slot is for issues a
      remote lookup;
    - read by a clock past the first 15 s of year 1, a presence check made
      right after a [Store] that made the upload call, or after a [Remove]
      that made the delete call, issues a fresh remote lookup. *)
Theorem C3_existence_cache :
  forall (W : Type) (HW : World W) (b : B2Ext) (w : W) (bk : Bucket),
    bucket b = Some bk ->
    (forall name : string,
        (ll_file (lastList b) = name /\ elapsed b (time_Now w) <= time_Second * 15 ->
         run (listFileCached name) b w
         = Done (ll_found (lastList b), ll_id (lastList b), None)
                {| be := b; world := w; log := [] |})
        /\ (~ (ll_file (lastList b) = name /\ elapsed b (time_Now w) <= time_Second * 15) ->
            log (state_of (run (listFileCached name) b w)) = [EvListFileNames bk name 1]
            /\ forall res w',
                 bucket_ListFileNames bk name 1 w = ((Some res, None), w') ->
                 lastList (be (state_of (run (listFileCached name) b w)))
                 = slot_of (time_Now w') name res))
    /\ (forall (key : string) (fnd : bool) (s1 : St W) (w2 : W),
           run (CheckPresent key) b w = Done (fnd, None) s1 ->
           elapsed (be s1) (time_Now w2) <= time_Second * 15 ->
           (count is_lookup (log s1) <= 1)%nat
           /\ run (CheckPresent key) (be s1) w2
              = Done (fnd, None) {| be := be s1; world := w2; log := [] |})
    /\ (forall key key' : string,
           key' <> key ->
           ll_file (lastList b) = (prefix b ++ key)%string ->
           log (state_of (run (CheckPresent key') b w))
           = [EvListFileNames bk (prefix b ++ key')%string 1])
    /\ (forall (key file key' : string) (w' : W),
           time_Second * 15 < time_Now w' ->
           (existsb is_upload (log (state_of (run (Store key file) b w))) = true ->
            log (state_of (run (CheckPresent key')
                               (be (state_of (run (Store key file) b w))) w'))
            = [EvListFileNames bk (prefix b ++ key')%string 1])
           /\ (existsb is_delete (log (state_of (run (Remove key) b w))) = true ->
               log (state_of (run (CheckPresent key')
                                  (be (state_of (run (Remove key) b w))) w'))
               = [EvListFileNames bk (prefix b ++ key')%string 1])).
Proof.
  intros W HW b w bk Hbk.
  split; [|split; [|split]].
  - intros name. split.
    + intros [Hname Hage]. unfold run.
      apply (listFileCached_hit {| be := b; world := w; log := [] |} name Hname Hage).
    + intros Hnot.
      assert (Hmiss : ll_file (lastList b) <> name
                      \/ time_Second * 15 < elapsed b (time_Now w)).
      { destruct (cache_guard_cases b (time_Now w) name) as [Hhit|Hmiss];
          [contradiction | exact Hmiss]. }
      unfold run.
      rewrite (listFileCached_miss {| be := b; world := w; log := [] |} name bk Hmiss Hbk).
      cbn [be world log app].
      destruct (bucket_ListFileNames bk name 1 w) as [[[res|] [e|]] w1];
        (split; [reflexivity|]); intros res' w' Heq; inversion Heq; subst; reflexivity.
  - intros key fnd s1 w2 Hfirst Hage.
    unfold run in *. rewrite CheckPresent_lookup in Hfirst. cbn [be] in Hfirst.
    destruct (cache_guard_cases b (time_Now w) (prefix b ++ key)%string)
      as [[Hname Hold]|Hmiss].
    + rewrite (listFileCached_hit {| be := b; world := w; log := [] |} _ Hname Hold)
        in Hfirst.
      inversion Hfirst; subst; clear Hfirst. cbn [be log] in *.
      split; [cbn; lia|].
      rewrite CheckPresent_lookup. cbn [be].
      rewrite (listFileCached_hit {| be := b; world := w2; log := [] |} _ Hname Hage).
      reflexivity.
    + rewrite (listFileCached_miss {| be := b; world := w; log := [] |} _ bk Hmiss Hbk)
        in Hfirst.
      cbn [be world log app] in Hfirst.
      destruct (bucket_ListFileNames bk (prefix b ++ key)%string 1 w)
        as [[[res|] [e|]] w1]; try discriminate Hfirst.
      cbv zeta in Hfirst. inversion Hfirst; subst; clear Hfirst.
      cbn [be log] in *.
      destruct (slot_of_file (time_Now w1) (prefix b ++ key)%string res) as [Hfile _].
      split; [cbn; lia|].
      rewrite CheckPresent_lookup. cbn [be prefix].
      rewrite (listFileCached_hit
                 {| be := {| bucket := bucket b; prefix := prefix b;
                             lastList := slot_of (time_Now w1) (prefix b ++ key)%string res |};
                    world := w2; log := [] |} _ Hfile Hage).
      reflexivity.
  - intros key key' Hne Hslot.
    unfold run. rewrite CheckPresent_lookup. cbn [be].
    rewrite (listFileCached_miss {| be := b; world := w; log := [] |} _ bk); [| |exact Hbk].
    + cbn [be world log app].
      destruct (bucket_ListFileNames bk _ 1 w) as [[[res|] [e|]] w1]; reflexivity.
    + left. cbn [be]. rewrite Hslot. intros Heq. apply append_inj_r in Heq.
      apply Hne. symmetry. exact Heq.
  - intros key file key' w' Hclock. split.
    + intros Hupload.
      destruct (Store_upload_clears key file b w Hupload) as [bk' [Hbk' Hbe]].
      rewrite Hbe. assert (bk' = bk) by congruence. subst bk'.
      exact (CheckPresent_after_clear
               {| bucket := Some bk; prefix := prefix b; lastList := cleared |}
               bk w' key' eq_refl eq_refl Hclock).
    + intros Hdelete.
      destruct (Remove_delete_clears key b w Hdelete) as [bk' [Hbk' Hbe]].
      rewrite Hbe. assert (bk' = bk) by congruence. subst bk'.
      exact (CheckPresent_after_clear
               {| bucket := Some bk; prefix := prefix b; lastList := cleared |}
               bk w' key' eq_refl eq_refl Hclock).
Qed.

Lemma C3_existence_cache_witness :
  run (listFileCached "raw/KEY1") be_cached (later (time_Second * 15) fake_ok)
  = Done (true, "v1", None)
         {| be := be_cached; world := later (time_Second * 15) fake_ok; log := [] |}
  /\ log (state_of (run (CheckPresent "KEY2") be_cached (later (time_Second * 15) fake_ok)))
     = [EvListFileNames mydata "raw/KEY2" 1]
  /\ log (state_of (run (CheckPresent "KEY1")
                        (be (state_of (run (Remove "KEY1") be_cached fake_ok)))
                        (later 1 fake_ok)))
     = [EvListFileNames mydata "raw/KEY1" 1].
Proof.
  destruct (C3_existence_cache Fake Fake_World be_cached (later (time_Second * 15) fake_ok)
              mydata eq_refl) as [Hrule [_ [Hother _]]].
  destruct (C3_existence_cache Fake Fake_World be_cached fake_ok mydata eq_refl)
    as [_ [_ [_ Hafter]]].
  split; [|split].
  - apply (proj1 (Hrule "raw/KEY1")). split; [reflexivity|].
    vm_compute. discriminate.
  - apply (Hother "KEY1" "KEY2"); [discriminate | reflexivity].
  - assert (Hclock : time_Second * 15 < time_Now (later 1 fake_ok))
      by (vm_compute; reflexivity).
    apply (proj2 (Hafter "KEY1" "/tmp/f" "KEY1" (later 1 fake_ok) Hclock)).
    vm_compute. reflexivity.
Defined.

(** C3 as stated fails twice.  Exactly 15 s after the slot was set for
    [raw/KEY1], the time elapsed is not strictly less than 15 s, and yet the
    slot is reused: no listing is issued.  And right after a [Store] of
    [KEY1] that succeeded (by finding the content already stored), a presence
    check for [KEY1] is answered from the slot: no fresh lookup is issued. *)
Lemma C3_reuse_at_15s_and_after_dedup :
  (ll_file (lastList be_cached) = "raw/KEY1"
   /\ ~ (elapsed be_cached (time_Now (later (time_Second * 15) fake_ok)) < time_Second * 15)
   /\ result_of (run (listFileCached "raw/KEY1") be_cached
                     (later (time_Second * 15) fake_ok))
      = Some (true, "v1", None)
   /\ log (state_of (run (listFileCached "raw/KEY1") be_cached
                         (later (time_Second * 15) fake_ok))) = [])
  /\ (result_of (run (Store "KEY1" "/tmp/f") be_ready fake_ok) = Some None
      /\ result_of (run (CheckPresent "KEY1")
                        (be (state_of (run (Store "KEY1" "/tmp/f") be_ready fake_ok)))
                        (later 1 fake_ok))
         = Some (true, None)
      /\ log (state_of (run (CheckPresent "KEY1")
                            (be (state_of (run (Store "KEY1" "/tmp/f") be_ready fake_ok)))
                            (later 1 fake_ok))) = []).
Proof.
  split.
  - repeat split; try (vm_compute; reflexivity).
    vm_compute. intros Hlt. discriminate Hlt.
  - repeat split; vm_compute; reflexivity.
Qed.

(** *** The two revisions of Store

    Whenever the slot is for another name, so that the cached [Store] has to
    ask the bucket, both revisions answer the same, make the same calls in the
    same order and leave the same world; what is said of [Store] in C1, C2
    and C10 about results and calls then holds of the earlier revision too. *)
Lemma Store_revisions_agree
  (W : Type) (HW : World W) (key file : string) (s : St W) :
  ll_file (lastList (be s)) <> (prefix (be s) ++ key)%string ->
  result_of (Uncached.Store key file s) = result_of (Store key file s)
  /\ log (state_of (Uncached.Store key file s)) = log (state_of (Store key file s))
  /\ world (state_of (Uncached.Store key file s)) = world (state_of (Store key file s)).
Proof.
  destruct s as [b w l]. intros Hother. apply String.eqb_neq in Hother.
  revert Hother. run_cases b; intros Hother; repeat split; congruence.
Qed.

(** * Further properties *)


(** ** Further properties of setup *)

Lemma length_append_slash (p : string) :
  String.length (p ++ "/") = S (String.length p).
Proof. induction p as [|c p IH]; cbn; [reflexivity | rewrite IH; reflexivity]. Qed.

Lemma substring_last_slash (p : string) :
  substring (String.length p) 1 (p ++ "/") = "/".
Proof. induction p as [|c p IH]; cbn; [reflexivity | exact IH]. Qed.

Lemma HasSuffix_append_slash (p : string) : strings_HasSuffix (p ++ "/") "/" = true.
Proof.
  unfold strings_HasSuffix. rewrite length_append_slash.
  cbn [String.length Nat.leb Nat.sub andb]. rewrite Nat.sub_0_r.
  rewrite substring_last_slash. reflexivity.
Qed.

Lemma getBucketConfig_result
  (W : Type) (HW : World W) (s s' : St W) (bucketName pfx : string) :
  getBucketConfig s = Done (bucketName, pfx, None) s' ->
  bucketName <> "" /\ (pfx = "" \/ strings_HasSuffix pfx "/" = true).
Proof.
  unfold getBucketConfig, GetConfig, bind, call, ret.
  destruct (external_GetConfig "bucket" (world s)) as [[b [e|]] w1]; cbn;
    [discriminate|].
  destruct (b =? "")%string eqn:Hb; cbn; [discriminate|].
  destruct (external_GetConfig "prefix" w1) as [[p err] w2].
  intros Heq. inversion Heq; subst. split; [apply String.eqb_neq; exact Hb|].
  destruct (p =? "")%string eqn:Hp; cbn.
  - left. apply String.eqb_eq. exact Hp.
  - right. destruct (strings_HasSuffix p "/") eqn:Hs; cbn;
      [exact Hs | apply HasSuffix_append_slash].
Qed.

(** X1.  A setup call that succeeds on an unconfigured adapter binds a prefix
    that is empty or ends with the separator [/]. *)
Theorem X1_setup_binds_normal_prefix :
  forall (W : Type) (HW : World W) (s s' : St W) (canCreateBucket : bool),
    bucket (be s) = None ->
    setup canCreateBucket s = Done None s' ->
    prefix (be s') = "" \/ strings_HasSuffix (prefix (be s')) "/" = true.
Proof.
  intros W HW s s' c Hnone. unfold setup, bind, getBe. rewrite Hnone.
  destruct (authenticate s) as [[b2 [e|]] s1|s1]; try discriminate.
  destruct (getBucketConfig s1) as [[[bn p] [e|]] s2|s2] eqn:Hcfg; try discriminate.
  apply getBucketConfig_result in Hcfg. destruct Hcfg as [_ Hp].
  destruct b2 as [b2|]; [|discriminate].
  unfold call. destruct (b2_Bucket b2 bn (world s2)) as [[[bk|] [e|]] w3]; cbn;
    try discriminate.
  - intros Heq. inversion Heq; subst. exact Hp.
  - destruct c; cbn; [|discriminate].
    destruct (b2_CreateBucket b2 bn AllPrivate w3) as [[bk [e|]] w4]; cbn;
      [discriminate|].
    intros Heq. inversion Heq; subst. exact Hp.
Qed.

Lemma X1_setup_binds_normal_prefix_witness :
  prefix (be {| be := be_ready; world := fake_ok;
                log := [EvGetConfig "accountid"; EvGetConfig "appkey";
                        EvNewB2 {| AccountID := "0123456789ab";
                                   ApplicationKey := "K001secret" |};
                        EvGetConfig "bucket"; EvGetConfig "prefix";
                        EvBucket "mydata"] |}) = ""
  \/ strings_HasSuffix
       (prefix (be {| be := be_ready; world := fake_ok;
                      log := [EvGetConfig "accountid"; EvGetConfig "appkey";
                              EvNewB2 {| AccountID := "0123456789ab";
                                         ApplicationKey := "K001secret" |};
                              EvGetConfig "bucket"; EvGetConfig "prefix";
                              EvBucket "mydata"] |})) "/" = true.
Proof.
  apply (X1_setup_binds_normal_prefix Fake Fake_World
           {| be := B2Ext_zero; world := fake_ok; log := [] |} _ true).
  - reflexivity.
  - vm_compute. reflexivity.
Defined.

(** X2.  Whenever [authenticate] asks the client library for a session, the
    credentials it passes are non-empty and come from the configuration
    answers where those are non-empty, from the environment variables
    [B2_ACCOUNT_ID] and [B2_APP_KEY] otherwise; both queries had answered
    without error. *)
Theorem X2_authenticate_credentials :
  forall (W : Type) (HW : World W) (b : B2Ext) (w : W) (c : Credentials),
    In (EvNewB2 c) (log (state_of (run authenticate b w))) ->
    exists a w1 k w2,
      external_GetConfig "accountid" w = ((a, None), w1)
      /\ external_GetConfig "appkey" w1 = ((k, None), w2)
      /\ AccountID c = (if (a =? "")%string then os_Getenv "B2_ACCOUNT_ID" w1 else a)
      /\ ApplicationKey c = (if (k =? "")%string then os_Getenv "B2_APP_KEY" w2 else k)
      /\ AccountID c <> "" /\ ApplicationKey c <> "".
Proof.
  intros W HW b w c. setup_cases; cbn [In]; intros HIn;
    repeat (destruct HIn as [HIn|HIn]; try discriminate HIn); try contradiction;
    inversion HIn; subst; clear HIn;
    match goal with
    | H1 : external_GetConfig "accountid" _ = (?a, None, ?w1),
      H2 : external_GetConfig "appkey" _ = (?k, None, ?w2) |- _ =>
        exists a, w1, k, w2
    end;
    cbn [AccountID ApplicationKey];
    repeat match goal with H : (_ =? _)%string = _ |- _ => rewrite H end;
    repeat split; try assumption; try reflexivity;
    try (apply String.eqb_neq; assumption).
Qed.

Lemma X2_authenticate_credentials_witness :
  exists a w1 k w2,
    external_GetConfig "accountid" fake_ok = ((a, None), w1)
    /\ external_GetConfig "appkey" w1 = ((k, None), w2)
    /\ "0123456789ab" = (if (a =? "")%string then os_Getenv "B2_ACCOUNT_ID" w1 else a)
    /\ "K001secret" = (if (k =? "")%string then os_Getenv "B2_APP_KEY" w2 else k)
    /\ "0123456789ab" <> "" /\ "K001secret" <> "".
Proof.
  apply (X2_authenticate_credentials Fake Fake_World B2Ext_zero fake_ok
           {| AccountID := "0123456789ab"; ApplicationKey := "K001secret" |}).
  vm_compute. right. right. left. reflexivity.
Defined.

(** X3.  A setup call that fails leaves the receiver as it was, so the
    adapter stays unconfigured and the next setup call starts over; and
    [Prepare] never asks for a bucket to be created. *)
Theorem X3_failed_setup_changes_nothing :
  forall (W : Type) (HW : World W) (b : B2Ext) (w : W) (canCreateBucket : bool),
    (forall e, result_of (run (setup canCreateBucket) b w) = Some (Some e) ->
               be (state_of (run (setup canCreateBucket) b w)) = b)
    /\ existsb is_create (log (state_of (run Prepare b w))) = false.
Proof.
  intros W HW b w c. split.
  - intros e. unfold run, setup, bind, getBe. cbn [be].
    set (s := {| be := b; world := w; log := [] |}).
    destruct (bucket b); [discriminate|].
    pose proof (authenticate_be s) as Ha.
    destruct (authenticate s) as [[b2 [e1|]] s1|s1]; cbn in Ha |- *;
      [intros _; exact Ha | | discriminate].
    pose proof (getBucketConfig_be s1) as Hc.
    destruct (getBucketConfig s1) as [[[bn p] [e2|]] s2|s2]; cbn in Hc |- *;
      [intros _; congruence | | discriminate].
    destruct b2 as [b2|]; [|discriminate].
    unfold call.
    destruct (b2_Bucket b2 bn (world s2)) as [[[bk|] [e3|]] w3]; cbn;
      try discriminate; try (intros _; congruence).
    destruct c; cbn; [|intros _; congruence].
    destruct (b2_CreateBucket b2 bn AllPrivate w3) as [[bk' [e4|]] w4]; cbn;
      [intros _; congruence | discriminate].
  - destruct b as [bko pfx ll]. setup_cases; reflexivity.
Qed.

Lemma X3_failed_setup_changes_nothing_witness :
  be (state_of (run (setup false) B2Ext_zero fake_no_bucket)) = B2Ext_zero.
Proof.
  apply (proj1 (X3_failed_setup_changes_nothing Fake Fake_World B2Ext_zero
                  fake_no_bucket false)
               (fmt_Errorf "bucket %#v does not exist anymore" [inl "mydata"])).
  vm_compute. reflexivity.
Defined.

(** ** Further properties of the lookups *)

(** X4.  [Remove] on a configured adapter whose slot cannot answer for the
    name: one listing is made.  When it shows no file of exactly that name
    (nothing, or a first entry with another name), [Remove] returns success
    and makes no delete call.  When its first entry has exactly that name,
    [Remove] makes one delete call, for that name and the version id the
    listing gave, clears the slot, and returns success or the wrapped delete
    error. *)
Theorem X4_remove_outcomes :
  forall (W : Type) (HW : World W) (b : B2Ext) (w w' : W) (bk : Bucket)
         (key : string) (res : ListFilesResponse),
    bucket b = Some bk ->
    ll_file (lastList b) <> (prefix b ++ key)%string
    \/ time_Second * 15 < elapsed b (time_Now w) ->
    bucket_ListFileNames bk (prefix b ++ key)%string 1 w = ((Some res, None), w') ->
    (Files res = []
     \/ (exists f fs, Files res = f :: fs /\ Name f <> (prefix b ++ key)%string) ->
     result_of (run (Remove key) b w) = Some None
     /\ log (state_of (run (Remove key) b w))
        = [EvListFileNames bk (prefix b ++ key)%string 1])
    /\ (forall f fs derr w2,
          Files res = f :: fs ->
          Name f = (prefix b ++ key)%string ->
          bucket_DeleteFileVersion bk (prefix b ++ key)%string (ID f) w' = (derr, w2) ->
          result_of (run (Remove key) b w)
          = Some (match derr with
                  | None => None
                  | Some e =>
                      Some (fmt_Errorf "couldn't delete file version: %v" [inr e])
                  end)
          /\ log (state_of (run (Remove key) b w))
             = [EvListFileNames bk (prefix b ++ key)%string 1;
                EvDeleteFileVersion bk (prefix b ++ key)%string (ID f)]
          /\ lastList (be (state_of (run (Remove key) b w))) = cleared).
Proof.
  intros W HW b w w' bk key res Hbk Hmiss Hlist.
  unfold run, Remove, bind, getBe. cbn [be].
  rewrite (listFileCached_miss {| be := b; world := w; log := [] |} _ bk Hmiss Hbk).
  cbn [be world log app]. rewrite Hlist. cbv zeta. unfold slot_of.
  split.
  - intros [Hnil | [f [fs [Hcons Hname]]]].
    + rewrite Hnil. cbn. split; reflexivity.
    + rewrite Hcons. apply String.eqb_neq in Hname. rewrite Hname. cbn.
      split; reflexivity.
  - intros f fs derr w2 Hcons Hname Hdel.
    rewrite Hcons. apply String.eqb_eq in Hname. rewrite Hname.
    cbn [ll_found ll_id negb].
    unfold the_bucket, bind, getBe, call, clearListFileCache, setBe.
    cbn [be world log bucket prefix]. rewrite Hbk. cbn [ret]. cbn [world log be].
    rewrite Hdel. destruct derr; cbn; repeat split; reflexivity.
Qed.

Lemma X4_remove_outcomes_witness :
  result_of (run (Remove "KEY1") be_ready fake_ok) = Some None
  /\ log (state_of (run (Remove "KEY1") be_ready fake_ok))
     = [EvListFileNames mydata "raw/KEY1" 1; EvDeleteFileVersion mydata "raw/KEY1" "v1"]
  /\ lastList (be (state_of (run (Remove "KEY1") be_ready fake_ok))) = cleared.
Proof.
  assert (Hmiss : ll_file (lastList be_ready) <> (prefix be_ready ++ "KEY1")%string
                  \/ time_Second * 15 < elapsed be_ready (time_Now fake_ok)).
  { left. vm_compute. discriminate. }
  exact (proj2 (X4_remove_outcomes Fake Fake_World be_ready fake_ok fake_ok mydata "KEY1"
                  {| Files := [ {| Name := "raw/KEY1"; ID := "v1" |} ] |}
                  eq_refl Hmiss eq_refl)
               {| Name := "raw/KEY1"; ID := "v1" |} [] None fake_ok
               eq_refl eq_refl eq_refl).
Defined.

(** X5.  [CheckPresent] on a configured adapter whose slot cannot answer for
    the name: one listing is made.  When it answers, the key is reported
    present exactly when the first entry listed has exactly the name
    [prefix + key] (the listing may begin at a later name), with a nil
    error.  When it fails, [CheckPresent] reports the wrapped error, not
    absence, and the slot is left as it was, so the failure is not
    remembered. *)
Theorem X5_checkpresent_outcomes :
  forall (W : Type) (HW : World W) (b : B2Ext) (w w' : W) (bk : Bucket)
         (key : string),
    bucket b = Some bk ->
    ll_file (lastList b) <> (prefix b ++ key)%string
    \/ time_Second * 15 < elapsed b (time_Now w) ->
    (forall res,
        bucket_ListFileNames bk (prefix b ++ key)%string 1 w = ((Some res, None), w') ->
        result_of (run (CheckPresent key) b w)
        = Some (match Files res with
                | [] => false
                | f :: _ => (Name f =? prefix b ++ key)%string
                end, None))
    /\ (forall r e,
          bucket_ListFileNames bk (prefix b ++ key)%string 1 w = ((r, Some e), w') ->
          run (CheckPresent key) b w
          = Done (false, Some (fmt_Errorf "couldn't list filenames: %v" [inr e]))
                 {| be := b; world := w';
                    log := [EvListFileNames bk (prefix b ++ key)%string 1] |}).
Proof.
  intros W HW b w w' bk key Hbk Hmiss.
  unfold run. rewrite CheckPresent_lookup. cbn [be].
  rewrite (listFileCached_miss {| be := b; world := w; log := [] |} _ bk Hmiss Hbk).
  cbn [be world log app]. split.
  - intros res Hlist. rewrite Hlist. cbv zeta. unfold slot_of.
    destruct (Files res) as [|f fs]; [reflexivity|].
    destruct (Name f =? prefix b ++ key)%string; reflexivity.
  - intros r e Hlist. rewrite Hlist. destruct r; reflexivity.
Qed.

Lemma X5_checkpresent_outcomes_witness :
  result_of (run (CheckPresent "KEY2") be_ready fake_ok) = Some (false, None)
  /\ result_of (run (CheckPresent "KEY1") be_ready fake_ok) = Some (true, None).
Proof.
  assert (Hmiss : forall key, ll_file (lastList be_ready) <> (prefix be_ready ++ key)%string
                  \/ time_Second * 15 < elapsed be_ready (time_Now fake_ok)).
  { intros key. right. vm_compute. reflexivity. }
  split.
  - exact (proj1 (X5_checkpresent_outcomes Fake Fake_World be_ready fake_ok fake_ok
                    mydata "KEY2" eq_refl (Hmiss "KEY2"))
                 {| Files := [ {| Name := "raw/KEY1"; ID := "v1" |} ] |} eq_refl).
  - exact (proj1 (X5_checkpresent_outcomes Fake Fake_World be_ready fake_ok fake_ok
                    mydata "KEY1" eq_refl (Hmiss "KEY1"))
                 {| Files := [ {| Name := "raw/KEY1"; ID := "v1" |} ] |} eq_refl).
Defined.

(** X6.  The cache is transparent.  Whenever the slot cannot answer for the
    name, [CheckPresent] and [Remove] return what the revision without the
    cache returns, after the same calls in the same order, and leave the same
    world. *)
Theorem X6_cache_transparent :
  forall (W : Type) (HW : World W) (b : B2Ext) (w : W) (bk : Bucket) (key : string),
    bucket b = Some bk ->
    ll_file (lastList b) <> (prefix b ++ key)%string
    \/ time_Second * 15 < elapsed b (time_Now w) ->
    (result_of (run (CheckPresent key) b w) = result_of (run (Uncached.CheckPresent key) b w)
     /\ log (state_of (run (CheckPresent key) b w))
        = log (state_of (run (Uncached.CheckPresent key) b w))
     /\ world (state_of (run (CheckPresent key) b w))
        = world (state_of (run (Uncached.CheckPresent key) b w)))
    /\ (result_of (run (Remove key) b w) = result_of (run (Uncached.Remove key) b w)
        /\ log (state_of (run (Remove key) b w))
           = log (state_of (run (Uncached.Remove key) b w))
        /\ world (state_of (run (Remove key) b w))
           = world (state_of (run (Uncached.Remove key) b w))).
Proof.
  intros W HW b w bk key Hbk Hmiss. split.
  - unfold run. rewrite CheckPresent_lookup. cbn [be].
    rewrite (listFileCached_miss {| be := b; world := w; log := [] |} _ bk Hmiss Hbk).
    unfold Uncached.CheckPresent, the_bucket, bind, getBe, call, ret, panic.
    cbn [be world log app]. rewrite Hbk.
    destruct (bucket_ListFileNames bk (prefix b ++ key)%string 1 w)
      as [[[res|] [e|]] w'] eqn:Hlist; cbn; rewrite ?Hlist; cbn;
      try (repeat split; reflexivity).
    unfold slot_of. destruct (Files res) as [|f fs]; [repeat split|].
    destruct (Name f =? prefix b ++ key)%string; repeat split.
  - unfold run, Remove, bind, getBe. cbn [be].
    rewrite (listFileCached_miss {| be := b; world := w; log := [] |} _ bk Hmiss Hbk).
    unfold Uncached.Remove, the_bucket, bind, getBe, call, ret, panic.
    cbn [be world log app]. rewrite Hbk.
    destruct (bucket_ListFileNames bk (prefix b ++ key)%string 1 w)
      as [[[res|] [e|]] w'] eqn:Hlist; cbn; rewrite ?Hlist; cbn;
      try (repeat split; reflexivity).
    unfold slot_of. destruct (Files res) as [|f fs]; [repeat split|].
    destruct (Name f =? prefix b ++ key)%string eqn:Hname; cbn;
      [|repeat split].
    apply String.eqb_eq in Hname. rewrite Hname, Hbk. cbn.
    destruct (bucket_DeleteFileVersion bk (prefix b ++ key)%string (ID f) w')
      as [[e|] w2]; repeat split.
Qed.

Lemma X6_cache_transparent_witness :
  result_of (run (Remove "KEY1") be_ready fake_delete_fails)
  = result_of (run (Uncached.Remove "KEY1") be_ready fake_delete_fails)
  /\ log (state_of (run (Remove "KEY1") be_ready fake_delete_fails))
     = log (state_of (run (Uncached.Remove "KEY1") be_ready fake_delete_fails))
  /\ world (state_of (run (Remove "KEY1") be_ready fake_delete_fails))
     = world (state_of (run (Uncached.Remove "KEY1") be_ready fake_delete_fails)).
Proof.
  apply (X6_cache_transparent Fake Fake_World be_ready fake_delete_fails mydata "KEY1").
  - reflexivity.
  - left. vm_compute. discriminate.
Defined.

(** X7.  The two revisions of [Store].  Whenever the slot is for another
    name, [Store] returns what the revision without the cache returns, after
    the same calls in the same order, and leaves the same world. *)
Theorem X7_store_revisions :
  forall (W : Type) (HW : World W) (key file : string) (s : St W),
    ll_file (lastList (be s)) <> (prefix (be s) ++ key)%string ->
    result_of (Uncached.Store key file s) = result_of (Store key file s)
    /\ log (state_of (Uncached.Store key file s)) = log (state_of (Store key file s))
    /\ world (state_of (Uncached.Store key file s)) = world (state_of (Store key file s)).
Proof.
  intros W HW key file s Hother. exact (Store_revisions_agree W HW key file s Hother).
Qed.

Lemma X7_store_revisions_witness :
  result_of (Uncached.Store "KEY1" "/tmp/f"
               {| be := be_ready; world := fake_differs; log := [] |})
  = result_of (Store "KEY1" "/tmp/f" {| be := be_ready; world := fake_differs; log := [] |})
  /\ log (state_of (Uncached.Store "KEY1" "/tmp/f"
                      {| be := be_ready; world := fake_differs; log := [] |}))
     = log (state_of (Store "KEY1" "/tmp/f"
                        {| be := be_ready; world := fake_differs; log := [] |}))
  /\ world (state_of (Uncached.Store "KEY1" "/tmp/f"
                        {| be := be_ready; world := fake_differs; log := [] |}))
     = world (state_of (Store "KEY1" "/tmp/f"
                          {| be := be_ready; world := fake_differs; log := [] |})).
Proof.
  apply (X7_store_revisions Fake Fake_World "KEY1" "/tmp/f"
           {| be := be_ready; world := fake_differs; log := [] |}).
  vm_compute. discriminate.
Defined.

(** ** Further properties of Store *)

(** X8.  Whatever [Store] uploads, it has hashed: an upload call is made
    only after the local file was opened, copied through SHA-1 to its end
    without error and rewound without error, and it carries the name
    [prefix + key], the opened handle, the hex form of that digest, and the
    number of bytes copied. *)
Theorem X8_store_uploads_what_it_hashed :
  forall (W : Type) (HW : World W) (b : B2Ext) (w : W) (key file : string) (ev : Event),
    In ev (log (state_of (run (Store key file) b w))) ->
    is_upload ev = true ->
    exists bk fh w1 n digest w2 w3,
      bucket b = Some bk
      /\ os_Open file w = (inl fh, w1)
      /\ io_Copy_sha1 fh w1 = ((n, digest, None), w2)
      /\ file_Seek fh 0 0 w2 = (None, w3)
      /\ ev = EvUploadHashedFile bk (prefix b ++ key)%string fh
                                 (hex_EncodeToString digest) n.
Proof.
  intros W HW b w key file ev.
  run_cases_eq b; cbn [In]; intros HIn Hup;
    repeat (destruct HIn as [HIn|HIn]; [subst ev; try discriminate Hup|]);
    try contradiction;
    do 7 eexists; (split; [reflexivity|]); repeat split; eassumption || reflexivity.
Qed.

Lemma X8_store_uploads_what_it_hashed_witness :
  exists bk fh w1 n digest w2 w3,
    bucket be_ready = Some bk
    /\ os_Open "/tmp/f" fake_upload_fails = (inl fh, w1)
    /\ io_Copy_sha1 fh w1 = ((n, digest, None), w2)
    /\ file_Seek fh 0 0 w2 = (None, w3)
    /\ EvUploadHashedFile mydata "raw/KEY2" {| fd := 3 |} sha_empty_hex 0
       = EvUploadHashedFile bk (prefix be_ready ++ "KEY2")%string fh
                            (hex_EncodeToString digest) n.
Proof.
  apply (X8_store_uploads_what_it_hashed Fake Fake_World be_ready fake_upload_fails
           "KEY2" "/tmp/f").
  - vm_compute. do 4 right. left. reflexivity.
  - reflexivity.
Defined.

Lemma Store_discipline (W : Type) (HW : World W) (b : B2Ext) (w : W) (key file : string) :
  store_discipline (prefix b ++ key)%string (log (state_of (run (Store key file) b w)))
  = true.
Proof.
  run_cases b; unfold store_discipline, count; cbn;
    rewrite ?String.eqb_refl; reflexivity.
Qed.

(** X9.  The remote calls of one [Store], whatever the world answers: every
    listing, delete and upload call names [prefix + key] and no other object,
    a listing asks for one entry, there is at most one listing, at most one
    delete and at most one upload, and no delete is made after the upload. *)
Theorem X9_store_call_discipline :
  forall (W : Type) (HW : World W) (b : B2Ext) (w : W) (key file : string),
    forallb (names_only (prefix b ++ key)%string)
            (log (state_of (run (Store key file) b w))) = true
    /\ (count is_lookup (log (state_of (run (Store key file) b w))) <= 1)%nat
    /\ (count is_delete (log (state_of (run (Store key file) b w))) <= 1)%nat
    /\ (count is_upload (log (state_of (run (Store key file) b w))) <= 1)%nat
    /\ no_delete_after_upload (log (state_of (run (Store key file) b w))) = true.
Proof.
  intros W HW b w key file.
  pose proof (Store_discipline W HW b w key file) as Hd.
  unfold store_discipline in Hd.
  repeat (apply andb_true_iff in Hd; destruct Hd as [Hd ?]).
  repeat split; try assumption; apply Nat.leb_le; assumption.
Qed.

(** X10.  What [Store] sends as the hash of a content is what [Store]
    accepts as the hash of that content: when the lookup finds the object and
    get-info reports as stored hash the hex string [Store] puts in an upload
    of the local digest, [Store] returns success after the get-info call,
    with no delete and no upload. *)
Theorem X10_store_recognises_its_hash :
  forall (W : Type) (HW : World W) (s s1 s2 s3 : St W) (key file : string)
         (fh : osFile) (sha : shaVars) (fileID : string) (bk : Bucket)
         (f : File) (w4 : W),
    call (EvOpen file) (os_Open file) s = Done (inl fh) s1 ->
    hashTask fh s1 = Done sha s2 ->
    listFileCached (prefix (be s) ++ key)%string s2 = Done (true, fileID, None) s3 ->
    bucket (be s3) = Some bk ->
    bucket_GetFileInfo bk fileID (world s3) = ((Some f, None), w4) ->
    ContentSha1 f = hex_EncodeToString (haveSHA sha) ->
    Store key file s
    = Done None {| be := be s3; world := file_Close fh w4;
                   log := log s3 ++ [EvGetFileInfo bk fileID; EvClose fh] |}.
Proof.
  intros W HW s s1 s2 s3 key file fh sha fileID bk f w4
         Hopen Hhash Hlookup Hbk Hinfo Hhex.
  destruct (call_frame _ _ _ _ _ Hopen) as [Hbe1 _].
  destruct (hashTask_frame _ _ _ _ Hhash) as [Hbe2 _].
  assert (Hbes2 : prefix (be s2) = prefix (be s)) by congruence.
  assert (Hsame : stored_hash_is f (haveSHA sha)).
  { unfold stored_hash_is. rewrite Hhex. apply hex_roundtrip. }
  store_to_lookup Hopen Hhash Hbes2 Hlookup.
  unfold the_bucket, bind, getBe. rewrite Hbk. cbn [ret].
  unfold call at 1. rewrite Hinfo. cbn iota beta.
  apply compare_stored_hash in Hsame.
  destruct (hex_DecodeString (ContentSha1 f)) as [want err]. rewrite Hsame.
  cbn. rewrite <- !app_assoc. reflexivity.
Qed.

Lemma X10_store_recognises_its_hash_witness :
  result_of (run (Store "KEY1" "/tmp/f") be_ready fake_ok) = Some None
  /\ existsb is_upload (log (state_of (run (Store "KEY1" "/tmp/f") be_ready fake_ok)))
     = false.
Proof.
  pose (fh := {| fd := 3 |}).
  pose (sha := {| haveSHA := sha_empty; contentLength := 0; shaError := None |}).
  pose (st := fun (b : B2Ext) (l : list Event) =>
                {| be := b; world := fake_ok; log := l |}).
  assert (HStore :
    Store "KEY1" "/tmp/f" (st be_ready [])
    = Done None {| be := be_cached; world := fake_ok;
                   log := [EvOpen "/tmp/f"; EvCopySha1 fh; EvSeek fh 0 0;
                           EvListFileNames mydata "raw/KEY1" 1]
                          ++ [EvGetFileInfo mydata "v1"; EvClose fh] |}).
  { apply (X10_store_recognises_its_hash Fake Fake_World (st be_ready [])
             (st be_ready [EvOpen "/tmp/f"])
             (st be_ready [EvOpen "/tmp/f"; EvCopySha1 fh; EvSeek fh 0 0])
             (st be_cached [EvOpen "/tmp/f"; EvCopySha1 fh; EvSeek fh 0 0;
                            EvListFileNames mydata "raw/KEY1" 1])
             "KEY1" "/tmp/f" fh sha "v1" mydata
             {| File_ID := "v1"; ContentSha1 := sha_empty_hex |} fake_ok);
      try reflexivity; vm_compute; reflexivity. }
  unfold run. fold (st be_ready []). rewrite HStore. split; reflexivity.
Defined.

(** ** Further properties of Retrieve *)

(** X11.  [Retrieve] leaks no handle, whatever the world answers and also
    when it panics: the destination file, once created, is closed as the last
    act; the download body, whenever one is handed out (with or without an
    error), is closed before it; the copy runs only while both are open. *)
Theorem X11_retrieve_closes_what_it_opens :
  forall (W : Type) (HW : World W) (HD : Retrieval.Downloads W)
         (b : B2Ext) (key file : string) (w : W),
    Retrieval.balanced [] (snd (Retrieval.Retrieve b key file w)) = true.
Proof.
  intros W HW HD b key file w. unfold Retrieval.Retrieve.
  destruct (Retrieval.os_Create file w) as [[fh|err] w1]; [|reflexivity].
  destruct (bucket b) as [bk|]; [|cbn; rewrite Z.eqb_refl; reflexivity].
  destruct (Retrieval.bucket_DownloadFileByName bk (prefix b ++ key)%string w1)
    as [[[rc|] [e|]] w2];
    try destruct (Retrieval.io_Copy_progress fh rc w2) as [[n cerr] w3];
    cbn; rewrite ?Z.eqb_refl; reflexivity.
Qed.

(** X12.  [Retrieve] creates (and so truncates) the destination before it
    asks for the download, and asks at most once, for the name
    [prefix + key].  When the destination cannot be created, no download is
    asked for.  When the download fails, its error is returned as it is, no
    copy is made, and the destination stays created: nothing removes it. *)
Theorem X12_retrieve_order_and_failure :
  forall (W : Type) (HW : World W) (HD : Retrieval.Downloads W)
         (b : B2Ext) (key file : string) (w : W),
    (forall err w1,
        Retrieval.os_Create file w = (inr err, w1) ->
        existsb Retrieval.is_download (snd (Retrieval.Retrieve b key file w)) = false)
    /\ (forall ev,
          In ev (snd (Retrieval.Retrieve b key file w)) ->
          Retrieval.is_download ev = true ->
          exists bk fh w1 rc err tr,
            bucket b = Some bk
            /\ Retrieval.os_Create file w = (inl fh, w1)
            /\ ev = Retrieval.EvDownloadFileByName bk (prefix b ++ key)%string rc err
            /\ snd (Retrieval.Retrieve b key file w)
               = Retrieval.EvCreate file (inl fh) :: ev :: tr
            /\ existsb Retrieval.is_download tr = false
            /\ (forall e, err = Some e ->
                          fst (fst (Retrieval.Retrieve b key file w)) = Some (Some e)
                          /\ forall fh' rc', ~ In (Retrieval.EvCopy fh' rc') tr)).
Proof.
  intros W HW HD b key file w. unfold Retrieval.Retrieve. split.
  - intros err w1 Hcreate. rewrite Hcreate. reflexivity.
  - intros ev.
    destruct (Retrieval.os_Create file w) as [[fh|err] w1];
      [|cbn; intros [<-|[]]; discriminate].
    destruct (bucket b) as [bk|];
      [|cbn; intros [<-|[<-|[]]]; discriminate].
    destruct (Retrieval.bucket_DownloadFileByName bk (prefix b ++ key)%string w1)
      as [[[rc|] [e|]] w2];
      try destruct (Retrieval.io_Copy_progress fh rc w2) as [[n cerr] w3];
      cbn [snd fst In]; intros HIn Hdl;
      repeat (destruct HIn as [HIn|HIn]; [subst ev; try discriminate Hdl|]);
      try contradiction;
      do 6 eexists; (split; [reflexivity|]); (split; [reflexivity|]);
      (split; [reflexivity|]); (split; [reflexivity|]); (split; [reflexivity|]);
      intros e' He'; try discriminate He'; inversion He'; subst;
      (split; [reflexivity|]);
      intros fh' rc' HIn'; cbn in HIn';
      repeat (destruct HIn' as [HIn'|HIn']; try discriminate HIn'); contradiction.
Qed.

Lemma X12_retrieve_order_and_failure_witness :
  existsb Retrieval.is_download
    (snd (Retrieval.Retrieve be_ready "KEY1" "/tmp/g"
            {| Retrieval.fd_create := inr (errors_New "permission denied");
               Retrieval.fd_download := (None, None);
               Retrieval.fd_copy := (0, None) |})) = false
  /\ fst (fst (Retrieval.Retrieve be_ready "KEY1" "/tmp/g" Retrieval.download_fails))
     = Some (Some (errors_New "404 not_found")).
Proof.
  split.
  - apply (proj1 (X12_retrieve_order_and_failure Retrieval.FakeDownloads _ _
                    be_ready "KEY1" "/tmp/g" _)
                 (errors_New "permission denied")
                 {| Retrieval.fd_create := inr (errors_New "permission denied");
                    Retrieval.fd_download := (None, None);
                    Retrieval.fd_copy := (0, None) |}).
    reflexivity.
  - destruct (proj2 (X12_retrieve_order_and_failure Retrieval.FakeDownloads _ _
                       be_ready "KEY1" "/tmp/g" Retrieval.download_fails)
                    (Retrieval.EvDownloadFileByName mydata "raw/KEY1" None
                       (Some (errors_New "404 not_found"))))
      as [bk [fh [w1 [rc [err [tr [_ [_ [Hev [_ [_ Hfail]]]]]]]]]]].
    + vm_compute. right. left. reflexivity.
    + reflexivity.
    + inversion Hev; subst. exact (proj1 (Hfail _ eq_refl)).
Defined.

Example Retrieve_disk_full :
  Retrieval.Retrieve be_ready "KEY1" "/tmp/g" Retrieval.disk_full
  = (Some (Some (errors_New "write /tmp/g: no space left on device")),
     Retrieval.disk_full,
     [Retrieval.EvCreate "/tmp/g" (inl {| fd := 4 |});
      Retrieval.EvDownloadFileByName mydata "raw/KEY1" (Some {| Retrieval.body_id := 9 |})
        None;
      Retrieval.EvCopy {| fd := 4 |} {| Retrieval.body_id := 9 |};
      Retrieval.EvCloseBody {| Retrieval.body_id := 9 |};
      Retrieval.EvCloseFile {| fd := 4 |}]).
Proof. reflexivity. Qed.


(** ** Further properties of the progress reader *)

Lemma spec_notifications_count chunks :
  forall total baseline,
    Forall (fun c => 0 <= c) chunks ->
    baseline <= total ->
    (Progress.spec_notifications total baseline chunks = []
     \/ Z.of_nat (List.length (Progress.spec_notifications total baseline chunks))
        * Progress.progressByteLimit
        < total + Progress.sum chunks - baseline)
    /\ (List.length (Progress.spec_notifications total baseline chunks)
        <= List.length chunks)%nat.
Proof.
  induction chunks as [|c rest IH]; intros total baseline Hpos Hle;
    cbn [Progress.spec_notifications].
  - cbn. split; [left; reflexivity | lia].
  - inversion Hpos as [|? ? Hc Hrest]; subst.
    pose proof (ProgressFacts.sum_nonneg rest Hrest) as Hsum.
    rewrite ProgressFacts.sum_cons.
    destruct (total + c - baseline >? Progress.progressByteLimit) eqn:Hcmp.
    + apply Z.gtb_lt in Hcmp.
      destruct (IH (total + c) (total + c) Hrest (Z.le_refl _)) as [IH1 IH2].
      cbn [List.length]. split; [right|lia].
      rewrite Nat2Z.inj_succ.
      destruct IH1 as [Hnil|Hlt]; [rewrite Hnil; cbn [List.length]|]; lia.
    + destruct (IH (total + c) baseline Hrest ltac:(lia)) as [IH1 IH2].
      cbn [List.length]. split; [|lia].
      destruct IH1 as [Hnil|Hlt]; [left; exact Hnil | right; lia].
Qed.

Lemma reads_raw_length (R : Type) (HR : Progress.Reader R) (sizes : list nat) :
  forall r : R, List.length (fst (Progress.reads_raw r sizes)) = List.length sizes.
Proof.
  induction sizes as [|n rest IH]; intros r; cbn [Progress.reads_raw]; [reflexivity|].
  destruct (Progress.io_Read r n) as [out r1]. specialize (IH r1).
  destruct (Progress.reads_raw r1 rest) as [outs r2].
  cbn [fst List.length] in *. rewrite IH. reflexivity.
Qed.

(** X14.  The progress reader is sparing.  In a transfer of N bytes (N
    fitting the [int64] counter) it writes at most one line per [Read] call
    and, in all, no more lines than N holds whole limits of 256 KiB; so a
    transfer of at most 256 KiB writes no line at all. *)
Theorem X14_progress_is_sparing :
  forall (R : Type) (HR : Progress.Reader R) (r0 : R) (sizes : list nat),
    let outs := fst (Progress.reads (Progress.NewProgressReader r0 []) sizes) in
    let lines :=
      Progress.pr_progress (snd (Progress.reads (Progress.NewProgressReader r0 []) sizes)) in
    Progress.transferred outs <= maxInt64 ->
    (List.length lines <= List.length sizes)%nat
    /\ Z.of_nat (List.length lines) * Progress.progressByteLimit
       <= Progress.transferred outs
    /\ (Progress.transferred outs <= Progress.progressByteLimit -> lines = []).
Proof.
  intros R HR r0 sizes outs lines Hfit.
  assert (Hreads : Progress.reads (Progress.NewProgressReader r0 []) sizes
                   = (outs, snd (Progress.reads (Progress.NewProgressReader r0 []) sizes))).
  { subst outs. apply surjective_pairing. }
  destruct (ProgressFacts.reads_spec sizes _ _ _ Hreads) as [_ Hprog].
  { cbn. lia. }
  { cbn. exact Hfit. }
  cbn in Hprog. fold lines in Hprog.
  destruct (spec_notifications_count (Progress.chunk_sizes outs) 0 0
              (ProgressFacts.chunk_sizes_nonneg outs) (Z.le_refl 0)) as [Hcount Hlen].
  rewrite ProgressFacts.sum_chunk_sizes in Hcount.
  assert (Hl : List.length lines
               = List.length (Progress.spec_notifications 0 0 (Progress.chunk_sizes outs))).
  { rewrite Hprog. apply length_map. }
  assert (Hsizes : List.length (Progress.chunk_sizes outs) = List.length sizes).
  { unfold Progress.chunk_sizes. rewrite length_map.
    pose proof (ProgressFacts.reads_passthrough sizes (Progress.NewProgressReader r0 []))
      as [Hout _].
    fold outs in Hout. rewrite Hout. apply reads_raw_length. }
  assert (Hnn : 0 <= Progress.transferred outs) by apply ProgressFacts.transferred_nonneg.
  rewrite Z.add_0_l, Z.sub_0_r in Hcount.
  rewrite Hl. split; [rewrite <- Hsizes; exact Hlen|]. split.
  - destruct Hcount as [Hnil|Hlt].
    + rewrite Hnil. cbn [List.length Z.of_nat]. rewrite Z.mul_0_l. exact Hnn.
    + apply Z.lt_le_incl. exact Hlt.
  - intros Hsmall. rewrite Hprog. clear Hprog Hreads Hlen Hsizes Hl.
    destruct (Progress.spec_notifications 0 0 (Progress.chunk_sizes outs))
      as [|t ts]; [reflexivity|].
    exfalso. destruct Hcount as [Hnil|Hlt]; [discriminate Hnil|].
    cbn [List.length] in Hlt. rewrite Nat2Z.inj_succ in Hlt.
    unfold Progress.progressByteLimit in *. lia.
Qed.

Lemma X14_progress_is_sparing_witness :
  (List.length
     (Progress.pr_progress
        (snd (Progress.reads (Progress.NewProgressReader Progress.three_chunks [])
                             Progress.three_calls)))
   <= List.length Progress.three_calls)%nat.
Proof.
  refine (proj1 (X14_progress_is_sparing _ _ Progress.three_chunks Progress.three_calls _)).
  apply Z.leb_le. vm_compute. reflexivity.
Defined.

(** ** The first revision *)

Lemma cut_append (c : ascii) (x rest : string) :
  cut c x = None -> cut c (x ++ String c rest) = Some (x, rest).
Proof.
  induction x as [|a x IH]; cbn.
  - intros _. rewrite Ascii.eqb_refl. reflexivity.
  - destruct (a =? c)%char; [discriminate|].
    destruct (cut c x) as [[? ?]|]; [discriminate|].
    intros _. rewrite IH; reflexivity.
Qed.

Lemma cut_shorter (c : ascii) (s x rest : string) :
  cut c s = Some (x, rest) -> (String.length rest < String.length s)%nat.
Proof.
  revert x rest. induction s as [|a s IH]; cbn; [discriminate|].
  intros x rest. destruct (a =? c)%char.
  - intros Heq. inversion Heq; subst. lia.
  - destruct (cut c s) as [[x' rest']|]; [|discriminate].
    intros Heq. inversion Heq; subst. specialize (IH _ _ eq_refl). lia.
Qed.

Lemma length_append (x y : string) :
  String.length (x ++ y) = (String.length x + String.length y)%nat.
Proof. induction x as [|a x IH]; cbn; [reflexivity | rewrite IH; reflexivity]. Qed.

Lemma substring_front (x y : string) : substring 0 (String.length x) (x ++ y) = x.
Proof.
  induction x as [|a x IH]; cbn.
  - destruct y; reflexivity.
  - rewrite IH. reflexivity.
Qed.

Lemma substring_back (x y : string) :
  substring (String.length x) (String.length y) (x ++ y) = y.
Proof.
  induction x as [|a x IH]; cbn; [|exact IH].
  induction y as [|b y IHy]; cbn; [reflexivity | rewrite IHy; reflexivity].
Qed.

Lemma drop_append (x y : string) : drop (String.length x) (x ++ y) = y.
Proof. induction x as [|a x IH]; cbn; [destruct y; reflexivity | exact IH]. Qed.

Lemma HasPrefix_append (p x : string) : strings_HasPrefix (p ++ x) p = true.
Proof.
  unfold strings_HasPrefix. rewrite substring_front, String.eqb_refl, length_append.
  rewrite andb_true_r. apply Nat.leb_le. lia.
Qed.

Lemma TrimPrefix_append (p x : string) : strings_TrimPrefix (p ++ x) p = x.
Proof. unfold strings_TrimPrefix. rewrite HasPrefix_append. apply drop_append. Qed.

Lemma HasSuffix_append (x y : string) : strings_HasSuffix (x ++ y) y = true.
Proof.
  unfold strings_HasSuffix. rewrite length_append.
  replace (String.length x + String.length y - String.length y)%nat
    with (String.length x) by lia.
  rewrite substring_back, String.eqb_refl, andb_true_r. apply Nat.leb_le. lia.
Qed.

Lemma TrimSuffix_append (x y : string) : strings_TrimSuffix (x ++ y) y = x.
Proof.
  unfold strings_TrimSuffix. rewrite HasSuffix_append, length_append.
  replace (String.length x + String.length y - String.length y)%nat
    with (String.length x) by lia.
  apply substring_front.
Qed.

Lemma append_assoc (x y z : string) : ((x ++ y) ++ z = x ++ (y ++ z))%string.
Proof. induction x as [|a x IH]; cbn; [reflexivity | rewrite IH; reflexivity]. Qed.

Import Legacy.

Lemma getConfig_value (W : Type) (g : G W) (name v rest : string) :
  cut newline v = None ->
  unread (g_in g) = ("VALUE " ++ v ++ nl ++ rest)%string ->
  getConfig name g = Ok v (answered name rest g).
Proof.
  intros Hv Hin.
  unfold getConfig, lbind, out_WriteString, out_Write, out_Flush, in_ReadString,
    bufio_ReadString, lret, answered.
  cbn [g_in g_pending g_stdout g_bucket g_prefix g_world g_calls g_logged].
  rewrite Hin.
  change ("VALUE " ++ v ++ nl ++ rest)%string
    with (String "V" (String "A" (String "L" (String "U" (String "E" (String " "
            (v ++ String newline rest))))))).
  assert (Hcut : cut newline
            (String "V" (String "A" (String "L" (String "U" (String "E" (String " "
               (v ++ String newline rest)))))))
          = Some (("VALUE " ++ v)%string, rest)).
  { cbn. rewrite (cut_append newline v rest Hv). reflexivity. }
  rewrite Hcut.
  rewrite (TrimSuffix_append ("VALUE " ++ v) nl).
  rewrite (HasPrefix_append "VALUE " v), (TrimPrefix_append "VALUE " v).
  cbn [at_end]. rewrite <- !app_assoc. reflexivity.
Qed.

(** X15.  [getConfig] sends its request, flushed with all that was pending,
    before it reads; the answer line [VALUE v] gives [v] as it stands, and
    only that line is taken from the input. *)
Theorem X15_getConfig_dialogue :
  forall (W : Type) (g : G W) (name v rest : string),
    cut newline v = None ->
    unread (g_in g) = ("VALUE " ++ v ++ nl ++ rest)%string ->
    exists g',
      getConfig name g = Ok v g' /\
      g_stdout g' = g_stdout g ++ g_pending g ++ [Str "GETCONFIG "; Str name; Str nl] /\
      g_pending g' = [] /\
      unread (g_in g') = rest /\
      g_calls g' = g_calls g /\ g_world g' = g_world g /\ g_logged g' = g_logged g.
Proof.
  intros W g name v rest Hv Hin. exists (answered name rest g).
  split; [exact (getConfig_value W g name v rest Hv Hin)|].
  repeat split; reflexivity.
Qed.

Lemma X15_getConfig_dialogue_witness :
  exists g',
    getConfig "bucket" (start {| unread := "VALUE my bucket" ++ nl ++ "PREPARE" ++ nl;
                                 at_end := io_EOF |} (sim fake_ok))
    = Ok "my bucket" g' /\
    g_stdout g' = [Str "GETCONFIG "; Str "bucket"; Str nl] /\
    unread (g_in g') = ("PREPARE" ++ nl)%string.
Proof.
  destruct (X15_getConfig_dialogue Sim
              (start {| unread := "VALUE my bucket" ++ nl ++ "PREPARE" ++ nl;
                        at_end := io_EOF |} (sim fake_ok))
              "bucket" "my bucket" ("PREPARE" ++ nl)%string)
    as [g' [Hrun [Hout [_ [Hin _]]]]]; [reflexivity | reflexivity |].
  exists g'. split; [exact Hrun|]. split; [exact Hout | exact Hin].
Defined.

(** X16.  A [TRANSFER] line is split at its first two spaces only: the key
    is the second word, the file name is all that follows, spaces
    included. *)
Theorem X16_transfer_line :
  forall (W : Type) (HW : World W) (HD : Retrieval.Downloads W) (HR : Reads W)
         (key file : string) (g : G W),
    cut " " key = None ->
    dispatch ("TRANSFER STORE " ++ key ++ " " ++ file) g = store key file g /\
    dispatch ("TRANSFER RETRIEVE " ++ key ++ " " ++ file) g = retrieve key file g.
Proof.
  intros W HW HD HR key file g Hkey.
  unfold dispatch.
  cbn [strings_HasPrefix String.length Nat.leb substring append String.eqb
       Ascii.eqb Bool.eqb andb strings_TrimPrefix drop].
  change (key ++ String " " file)%string with (key ++ String " " file)%string.
  split.
  - cbn [strings_SplitN cut Ascii.eqb Bool.eqb].
    rewrite (cut_append " " key file Hkey). reflexivity.
  - cbn [strings_SplitN cut Ascii.eqb Bool.eqb].
    rewrite (cut_append " " key file Hkey). reflexivity.
Qed.

Lemma X16_transfer_line_witness :
  dispatch ("TRANSFER STORE " ++ "SHA256--abc" ++ " " ++ ".git/annex/my file")
    (prepared "" (sim fake_ok))
  = store "SHA256--abc" ".git/annex/my file" (prepared "" (sim fake_ok)).
Proof.
  exact (proj1 (X16_transfer_line Sim Sim_World _ _
                  "SHA256--abc" ".git/annex/my file" (prepared "" (sim fake_ok))
                  eq_refl)).
Defined.

Lemma Legacy_write_lines (W : Type) (ls : list Progress.Line) (g : G W) :
  write_lines ls g = Ok tt (with_lines ls g).
Proof.
  revert g. induction ls as [|[n] ls IH]; intros g; [reflexivity|].
  cbn [write_lines]. unfold lbind, out_Write, out_Flush.
  cbn [g_in g_pending g_stdout g_bucket g_prefix g_world g_calls g_logged].
  rewrite IH. destruct ls as [|l ls]; cbn [with_lines map line_tok
    g_in g_pending g_stdout g_bucket g_prefix g_world g_calls g_logged].
  - reflexivity.
  - cbn [app]. rewrite <- !app_assoc. reflexivity.
Qed.

(** X17.  [checkPresent] and [remove] behave as the methods [CheckPresent]
    and [Remove] that replaced them: the same calls in the same world, and
    one reply line, the one the result of the method stands for; a panic of
    the method is a panic here, after the reply [UNKNOWN] or [FAILURE] was
    written. *)
Theorem X17_presence_and_removal_as_rewritten :
  forall (W : Type) (HW : World W) (HD : Retrieval.Downloads W) (HR : Reads W)
         (g : G W) (key : string),
    (let r := run (Uncached.CheckPresent key) (receiver g) (g_world g) in
     let l := checkPresent key g in
     same_run g l r /\
     written (final l)
     = written g
       ++ [Str ("CHECKPRESENT-" ++ checkPresent_reply (result_of r) ++ " " ++ key ++ nl)])
    /\
    (let r := run (Uncached.Remove key) (receiver g) (g_world g) in
     let l := remove key g in
     same_run g l r /\
     written (final l)
     = written g ++ [Str ("REMOVE-" ++ remove_reply (result_of r) ++ " " ++ key ++ nl)]).
Proof.
  intros W HW HD HR g key. unfold same_run. split.
  - legacy_cases g; repeat split; legacy_lists.
  - legacy_cases g; repeat split; legacy_lists.
Qed.

(** X18.  While rewinding the local file does not fail, [store] behaves as
    the method [Store] that replaced it: the same calls in the same world,
    and after the progress lines of the upload one reply, success exactly
    when the method returns no error. *)
Theorem X18_store_as_rewritten :
  forall (W : Type) (HW : World W) (HD : Retrieval.Downloads W) (HR : Reads W)
         (g : G W) (key file : string),
    rewind_fails file (g_world g) = false ->
    let r := run (Uncached.Store key file) (receiver g) (g_world g) in
    let l := store key file g in
    same_run g l r /\
    exists ns,
      written (final l)
      = written g ++ map line_tok ns
        ++ [Str (transfer_reply "STORE" (result_of r)); Str key; Str nl].
Proof.
  intros W HW HD HR g key file Hseek. unfold same_run.
  destruct g as [gin pend sout bko pfx w calls logged].
  unfold rewind_fails in Hseek. cbn [g_world] in Hseek.
  unfold run, Uncached.Store, hashTask, the_bucket, defer, effect, bind, call, ask,
    getBe, setBe, ret, panic, store, hashing, transfer_response, deferred,
    bucket_var, prefix_var, lbind, lret, crash, wcall, wask, log_Printf,
    out_WriteString, out_Write, progress_out.
  legacy_simpl.
  destruct (os_Open file w) as [[fh|e] w1]; legacy_simpl.
  2:{ split; [repeat split|]; try exists []; legacy_lists. }
  destruct (io_Copy_sha1 fh w1) as [[[n digest] [e|]] w2]; legacy_simpl.
  - destruct bko as [bk|]; legacy_simpl;
      repeat (legacy_answer; legacy_simpl);
      (split; [repeat split; legacy_lists|]);
      exists []; legacy_lists.
  - destruct (file_Seek fh 0 0 w2) as [[e|] w3]; [discriminate Hseek|].
    legacy_simpl.
    destruct bko as [bk|]; legacy_simpl;
      repeat (legacy_answer_with ltac:(rewrite Legacy_write_lines); legacy_simpl);
      (split; [repeat split; legacy_lists|]);
      first [ exists []; legacy_lists
            | match goal with
              | l : Progress.Line, ls : list Progress.Line |- _ =>
                  exists (l :: ls); legacy_lists
              end ].
Qed.

Lemma X18_store_as_rewritten_witness :
  same_run (prepared "" (sim_reading fake_differs))
    (store "KEY1" "/tmp/f" (prepared "" (sim_reading fake_differs)))
    (run (Uncached.Store "KEY1" "/tmp/f")
       (receiver (prepared "" (sim_reading fake_differs)))
       (sim_reading fake_differs))
  /\ written (final (store "KEY1" "/tmp/f" (prepared "" (sim_reading fake_differs))))
     = [Str ("VERSION 1" ++ nl)%string; ProgressLine 300000;
        Str "TRANSFER-SUCCESS STORE "; Str "KEY1"; Str nl].
Proof.
  destruct (X18_store_as_rewritten Sim Sim_World _ _
              (prepared "" (sim_reading fake_differs)) "KEY1" "/tmp/f" eq_refl)
    as [Hsame _].
  split; [exact Hsame | vm_compute; reflexivity].
Defined.

(** X25.  The case X18 leaves out.  When the local file is read to its end
    but cannot be rewound, the first revision has no digest: it does not
    recognise a stored object with the very content of the file, deletes
    that stored version, and answers failure without an upload.  The
    revision that replaced it keeps the digest and returns success there,
    with no delete. *)
Theorem X25_store_rewind_lost_digest :
  forall (W : Type) (HW : World W) (HD : Retrieval.Downloads W) (HR : Reads W)
         (g : G W) (key file : string) (bk : Bucket) (fh : osFile)
         (n : Z) (d : list byte) (e : error) (f : FileStatus) (fs : list FileStatus)
         (info : File) (derr : option error) (w1 w2 w3 w4 w5 w6 : W),
    g_bucket g = Some bk ->
    os_Open file (g_world g) = (inl fh, w1) ->
    io_Copy_sha1 fh w1 = ((n, d, None), w2) ->
    file_Seek fh 0 0 w2 = (Some e, w3) ->
    bucket_ListFileNames bk (g_prefix g ++ key) 1 w3
    = ((Some {| Files := f :: fs |}, None), w4) ->
    Name f = (g_prefix g ++ key)%string ->
    bucket_GetFileInfo bk (ID f) w4 = ((Some info, None), w5) ->
    ContentSha1 info = hex_EncodeToString d ->
    d <> [] ->
    bucket_DeleteFileVersion bk (g_prefix g ++ key) (File_ID info) w5 = (derr, w6) ->
    (g_calls (final (store key file g))
     = g_calls g
       ++ map inl [EvOpen file; EvCopySha1 fh; EvSeek fh 0 0;
                   EvListFileNames bk (g_prefix g ++ key) 1; EvGetFileInfo bk (ID f);
                   EvDeleteFileVersion bk (g_prefix g ++ key) (File_ID info);
                   EvClose fh]
     /\ written (final (store key file g))
        = written g ++ transfer_tokens "STORE" false key)
    /\ (result_of (run (Uncached.Store key file) (receiver g) (g_world g)) = Some None
        /\ log (state_of (run (Uncached.Store key file) (receiver g) (g_world g)))
           = [EvOpen file; EvCopySha1 fh; EvSeek fh 0 0;
              EvListFileNames bk (g_prefix g ++ key) 1; EvGetFileInfo bk (ID f);
              EvClose fh]).
Proof.
  intros W HW HD HR g key file bk fh n d e f fs info derr w1 w2 w3 w4 w5 w6
    Hbk Hopen Hcopy Hseek Hlist Hname Hinfo Hsha Hd Hdel.
  destruct g as [gin pend sout bko pfx w calls logged].
  cbn [g_bucket g_world g_prefix] in *. subst bko.
  assert (Hnil : bytes_Equal [] d = false) by (destruct d; [contradiction | reflexivity]).
  assert (Hsame : bytes_Equal d d = true) by (apply bytes_Equal_eq; reflexivity).
  split.
  - unfold store, hashing, transfer_response, deferred, bucket_var, prefix_var, lbind,
      lret, crash, wcall, wask, log_Printf, out_WriteString, out_Write.
    legacy_simpl. rewrite Hopen. legacy_simpl. rewrite Hcopy. legacy_simpl.
    rewrite Hseek. legacy_simpl. rewrite Hlist. legacy_simpl.
    cbn [Files]. rewrite Hname, String.eqb_refl. rewrite Hinfo. legacy_simpl.
    rewrite Hsha, hex_roundtrip, Hnil. legacy_simpl. rewrite Hdel.
    destruct derr as [de|]; legacy_simpl; split; legacy_lists.
  - unfold run, Uncached.Store, hashTask, the_bucket, defer, effect, bind, call, ask,
      getBe, setBe, ret, panic.
    legacy_simpl. rewrite Hopen. legacy_simpl. rewrite Hcopy. legacy_simpl.
    rewrite Hseek. legacy_simpl. rewrite Hlist. legacy_simpl.
    cbn [Files]. rewrite Hname, String.eqb_refl. rewrite Hinfo. legacy_simpl.
    rewrite Hsha, hex_roundtrip, Hsame. legacy_simpl. split; reflexivity.
Qed.

Lemma X25_store_rewind_lost_digest_witness :
  written (final (store "KEY1" "/tmp/f" (prepared "" (sim fake_seek_fails))))
  = [Str ("VERSION 1" ++ nl)%string; Str "TRANSFER-FAILURE STORE "; Str "KEY1"; Str nl]
  /\ result_of (run (Uncached.Store "KEY1" "/tmp/f")
                  (receiver (prepared "" (sim fake_seek_fails))) (sim fake_seek_fails))
     = Some None.
Proof.
  assert (Hd : sha_empty <> []) by (vm_compute; discriminate).
  destruct (X25_store_rewind_lost_digest Sim Sim_World _ _
              (prepared "" (sim fake_seek_fails)) "KEY1" "/tmp/f" mydata {| fd := 3 |}
              0 sha_empty (errors_New "seek /tmp/f: illegal seek")
              {| Name := "raw/KEY1"; ID := "v1" |} []
              {| File_ID := "v1"; ContentSha1 := sha_empty_hex |} None
              (sim fake_seek_fails) (sim fake_seek_fails) (sim fake_seek_fails)
              (sim fake_seek_fails) (sim fake_seek_fails) (sim fake_seek_fails)
              eq_refl eq_refl eq_refl eq_refl eq_refl eq_refl eq_refl eq_refl Hd eq_refl)
    as [[_ Hout] [Hres _]].
  split; [exact Hout | exact Hres].
Defined.

(** X19.  Every run of [store] and of [retrieve] writes its progress
    lines, each flushed at once with all that was pending, and then one
    reply of three writes; lines appear only if the upload, or the copy, was
    reached; neither function exits or reads input; when one panics, the
    reply written is that of a failure. *)
Theorem X19_transfer_output :
  forall (W : Type) (HW : World W) (HD : Retrieval.Downloads W) (HR : Reads W)
         (g : G W) (key file : string),
    (exists cs ns ok, transfer_output "STORE" key g (store key file g) cs ns ok)
    /\ (exists cs ns ok,
          transfer_output "RETRIEVE" key g (retrieve key file g) cs ns ok).
Proof.
  intros W HW HD HR g key file. split.
  - destruct g as [gin pend sout bko pfx w calls logged].
    unfold store, hashing, transfer_response, deferred, bucket_var, prefix_var, lbind,
      lret, crash, wcall, wask, log_Printf, out_WriteString, out_Write,
      progress_out.
    legacy_simpl.
    destruct (os_Open file w) as [[fh|e] w1]; legacy_simpl; [|transfer_cases].
    destruct (io_Copy_sha1 fh w1) as [[[n digest] [e|]] w2]; legacy_simpl;
      [|destruct (file_Seek fh 0 0 w2) as [[e|] w3]; legacy_simpl];
      (destruct bko as [bk|]; legacy_simpl;
       repeat (legacy_answer_with ltac:(rewrite Legacy_write_lines); legacy_simpl);
       transfer_cases).
  - destruct g as [gin pend sout [bk|] pfx w calls logged];
      unfold retrieve, transfer_response, deferred, bucket_var, prefix_var, lbind,
        lret, crash, wcall, wcall_answer, wask, log_Printf, out_WriteString,
        out_Write, progress_out;
      legacy_simpl;
      repeat (legacy_answer_with ltac:(rewrite Legacy_write_lines); legacy_simpl);
      transfer_cases.
Qed.

(** X20.  [retrieve] asks for the download before it touches the
    destination: a download that fails leaves the destination as it was.
    Whatever happens, a panic included, it closes the body and the file it
    was handed, the file last opened first, and makes no other call. *)
Theorem X20_retrieve_downloads_first :
  forall (W : Type) (HW : World W) (HD : Retrieval.Downloads W) (HR : Reads W)
         (g : G W) (key file : string),
    exists cs,
      g_calls (final (retrieve key file g)) = g_calls g ++ cs /\
      forallb is_local cs = true /\
      Retrieval.balanced [] (local_calls cs) = true /\
      downloads_first (g_bucket g) (g_prefix g ++ key) file (local_calls cs).
Proof.
  intros W HW HD HR g key file.
  destruct g as [gin pend sout [bk|] pfx w calls logged];
    unfold retrieve, transfer_response, deferred, bucket_var, prefix_var, lbind,
      lret, crash, wcall, wcall_answer, wask, log_Printf, out_WriteString,
      out_Write, progress_out;
    legacy_simpl;
    repeat (legacy_answer_with ltac:(rewrite Legacy_write_lines); legacy_simpl);
    eexists; (split; [legacy_lists|]);
    cbn [forallb is_local local_calls andb Retrieval.balanced Retrieval.same_handle
         existsb orb downloads_first Retrieval.is_download];
    rewrite ?Z.eqb_refl; cbn [andb orb];
    repeat split; eauto.
Qed.

Lemma getConfig_then (W : Type) (B : Type) (k : string -> LM W B)
  (g : G W) (name v rest : string) :
  cut newline v = None ->
  unread (g_in g) = ("VALUE " ++ v ++ nl ++ rest)%string ->
  lbind (getConfig name) k g = k v (answered name rest g).
Proof.
  intros Hv Hin. unfold lbind. rewrite (getConfig_value W g name v rest Hv Hin).
  reflexivity.
Qed.

Lemma prepareInternal_configured (W : Type) (HW : World W)
  (g : G W) (a k b p rest : string) :
  cut newline a = None -> cut newline k = None ->
  cut newline b = None -> cut newline p = None ->
  a <> "" -> k <> "" -> b <> "" ->
  unread (g_in g)
  = ("VALUE " ++ a ++ nl ++ "VALUE " ++ k ++ nl ++ "VALUE " ++ b ++ nl
     ++ "VALUE " ++ p ++ nl ++ rest)%string ->
  prepareInternal g = connect a k b (configured p rest g).
Proof.
  intros Ha Hk Hb Hp Hane Hkne Hbne Hin.
  apply String.eqb_neq in Hane, Hkne, Hbne.
  destruct g as [gin pend sout bko pfx w calls logged].
  unfold prepareInternal, configured.
  rewrite (getConfig_then W _ _ _ "accountid" a _ Ha Hin). unfold answered.
  cbn [g_in g_pending g_stdout g_bucket g_prefix g_world g_calls g_logged at_end].
  rewrite Hane. unfold lbind at 1, lret at 1. rewrite Hane.
  erewrite (getConfig_then W _ _ _ "appkey" k); [ | exact Hk | reflexivity ].
  unfold answered.
  cbn [g_in g_pending g_stdout g_bucket g_prefix g_world g_calls g_logged at_end].
  rewrite Hkne. unfold lbind at 1, lret at 1. rewrite Hkne.
  erewrite (getConfig_then W _ _ _ "bucket" b); [ | exact Hb | reflexivity ].
  unfold answered.
  cbn [g_in g_pending g_stdout g_bucket g_prefix g_world g_calls g_logged at_end].
  rewrite Hbne.
  erewrite (getConfig_then W _ _ _ "prefix" p); [ | exact Hp | reflexivity ].
  unfold answered.
  cbn [g_in g_pending g_stdout g_bucket g_prefix g_world g_calls g_logged at_end].
  unfold lbind at 1, set_prefix at 1.
  cbn [g_in g_pending g_stdout g_bucket g_prefix g_world g_calls g_logged].
  unfold lbind at 1.
  destruct (negb (p =? "")%string && negb (strings_HasSuffix p "/"));
    cbv beta iota delta [set_prefix lret];
    cbn [g_in g_pending g_stdout g_bucket g_prefix g_world g_calls g_logged app];
    rewrite <- !app_assoc; reflexivity.
Qed.

(** X23.  When the four configuration values are answered, the first three
    not empty, [prepareInternal] sends exactly the four requests, in the
    order accountid, appkey, bucket, prefix, each flushed before its answer
    is read, and reads exactly the four answers.  Only then does it call the
    client library: first for a session, with the two credentials as
    answered, then only to resolve or create the bucket of the name
    answered.  The prefix variable is left as answered, with [/] appended
    where a non-empty prefix lacks it, whatever the calls answer. *)
Theorem X23_prepare_dialogue :
  forall (W : Type) (HW : World W) (g : G W) (a k b p rest : string),
    cut newline a = None -> cut newline k = None ->
    cut newline b = None -> cut newline p = None ->
    a <> "" -> k <> "" -> b <> "" ->
    unread (g_in g)
    = ("VALUE " ++ a ++ nl ++ "VALUE " ++ k ++ nl ++ "VALUE " ++ b ++ nl
       ++ "VALUE " ++ p ++ nl ++ rest)%string ->
    let r := prepareInternal g in
    exists cs,
      g_calls (final r)
      = g_calls g ++ inl (EvNewB2 {| AccountID := a; ApplicationKey := k |}) :: cs /\
      forallb (binds_bucket b) cs = true /\
      g_stdout (final r) = g_stdout g ++ g_pending g ++ prepare_requests /\
      g_pending (final r) = [] /\
      unread (g_in (final r)) = rest /\
      (g_prefix (final r) = p \/ g_prefix (final r) = (p ++ "/")%string) /\
      (g_prefix (final r) = "" \/ strings_HasSuffix (g_prefix (final r)) "/" = true) /\
      match r with
      | Fatal _ => False
      | _ => True
      end.
Proof.
  intros W HW g a k b p rest Ha Hk Hb Hp Hane Hkne Hbne Hin r.
  subst r.
  rewrite (prepareInternal_configured W HW g a k b p rest Ha Hk Hb Hp Hane Hkne Hbne Hin).
  assert (Hnormal :
            (g_prefix (configured p rest g) = p
             \/ g_prefix (configured p rest g) = (p ++ "/")%string)
            /\ (g_prefix (configured p rest g) = ""
                \/ strings_HasSuffix (g_prefix (configured p rest g)) "/" = true)).
  { cbn [configured g_prefix].
    destruct (p =? "")%string eqn:Hpe; cbn [negb andb].
    - apply String.eqb_eq in Hpe. subst p. split; left; reflexivity.
    - destruct (strings_HasSuffix p "/") eqn:Hs; cbn [negb].
      + split; [left; reflexivity | right; exact Hs].
      + split; [right; reflexivity | right; apply HasSuffix_append]. }
  destruct Hnormal as [Hq1 Hq2].
  assert (Hframe :
            g_stdout (configured p rest g) = g_stdout g ++ g_pending g ++ prepare_requests
            /\ g_pending (configured p rest g) = []
            /\ unread (g_in (configured p rest g)) = rest
            /\ g_calls (configured p rest g) = g_calls g) by (repeat split).
  destruct Hframe as [Hout [Hpend [Hrest Hcalls]]].
  revert Hq1 Hq2 Hout Hpend Hrest Hcalls.
  generalize (configured p rest g). intros c.
  destruct c as [gin pend sout bko pfx w calls logged].
  cbn [g_in g_pending g_stdout g_bucket g_prefix g_world g_calls g_logged].
  intros Hq1 Hq2 Hout Hpend Hrest Hcalls. subst pend calls sout.
  unfold connect, lbind, set_bucket, wcall, lret, crash.
  cbn [g_in g_pending g_stdout g_bucket g_prefix g_world g_calls g_logged].
  destruct (backblaze_NewB2 {| AccountID := a; ApplicationKey := k |} w)
    as [[[b2|] [e|]] w1];
    cbn [g_in g_pending g_stdout g_bucket g_prefix g_world g_calls g_logged final];
    try (exists []; rewrite String.eqb_refl || idtac; repeat split; assumption).
  destruct (b2_Bucket b2 b w1) as [[[bk|] [e|]] w2];
    cbn [g_in g_pending g_stdout g_bucket g_prefix g_world g_calls g_logged final];
    try (eexists; (split; [rewrite <- ?app_assoc; cbn [app]; reflexivity|]);
         cbn [forallb binds_bucket andb]; rewrite ?String.eqb_refl;
         repeat split; assumption).
  destruct (b2_CreateBucket b2 b AllPrivate w2) as [[bk [e|]] w3];
    cbn [g_in g_pending g_stdout g_bucket g_prefix g_world g_calls g_logged final];
    eexists; (split; [rewrite <- ?app_assoc; cbn [app]; reflexivity|]);
    cbn [forallb binds_bucket andb]; rewrite ?String.eqb_refl;
    repeat split; assumption.
Qed.

Lemma X23_prepare_dialogue_witness :
  unread (g_in (final (prepareInternal (start session_input (sim fake_ok)))))
  = ("CHECKPRESENT KEY1" ++ nl)%string
  /\ g_stdout (final (prepareInternal (start session_input (sim fake_ok))))
     = prepare_requests
  /\ (g_prefix (final (prepareInternal (start session_input (sim fake_ok)))) = ""
      \/ strings_HasSuffix
           (g_prefix (final (prepareInternal (start session_input (sim fake_ok)))))
           "/" = true).
Proof.
  assert (Ha : "0123456789ab" <> "") by discriminate.
  assert (Hk : "K001secret" <> "") by discriminate.
  assert (Hb : "mydata" <> "") by discriminate.
  pose proof (X23_prepare_dialogue Sim Sim_World (start session_input (sim fake_ok))
                "0123456789ab" "K001secret" "mydata" "raw"
                ("CHECKPRESENT KEY1" ++ nl)%string
                eq_refl eq_refl eq_refl eq_refl Ha Hk Hb eq_refl) as Hrun.
  destruct Hrun as [cs [_ [_ [Hout [_ [Hin [_ [Hnormal _]]]]]]]].
  split; [exact Hin|]. split; [exact Hout | exact Hnormal].
Defined.

(** *** The command loop *)

Section Tidy.

Context {W : Type} `{World W} `{Retrieval.Downloads W} `{Reads W}.

Lemma tidy_bind {A B} (m : LM W A) (k : A -> LM W B) :
  tidy m -> (forall a, tidy (k a)) -> tidy (lbind m k).
Proof.
  intros Hm Hk g. unfold lbind. specialize (Hm g).
  destruct (m g) as [a g1|g1|g1]; cbn [final] in *.
  - specialize (Hk a g1). destruct Hm as [Hlen _]. destruct Hk as [Hlen' Hfatal].
    split; [lia | exact Hfatal].
  - exact Hm.
  - exact Hm.
Qed.

Lemma tidy_deferred {A} (dflt : A) (cleanup : A -> LM W unit) (body : LM W A) :
  tidy body -> (forall a, tidy (cleanup a)) -> tidy (deferred dflt cleanup body).
Proof.
  intros Hb Hc g. unfold deferred. specialize (Hb g).
  destruct (body g) as [a g1|g1|g1]; cbn [final] in *.
  - specialize (Hc a g1). destruct (cleanup a g1) as [u g2|g2|g2]; cbn [final] in *;
      (split; [lia | tauto]).
  - exact Hb.
  - specialize (Hc dflt g1). destruct (cleanup dflt g1) as [u g2|g2|g2];
      cbn [final] in *; (split; [lia | tauto]).
Qed.

Lemma tidy_lret {A} (a : A) : tidy (lret (W := W) a).
Proof. intros g. split; [apply Nat.le_refl | exact I]. Qed.

Lemma tidy_crash {A} : tidy (crash (W := W) (A := A)).
Proof. intros g. split; [apply Nat.le_refl | exact I]. Qed.

Lemma tidy_prefix_var : tidy (prefix_var (W := W)).
Proof. intros g. split; [apply Nat.le_refl | exact I]. Qed.

Lemma tidy_out_Write ts : tidy (out_Write (W := W) ts).
Proof. intros g. split; [apply Nat.le_refl | exact I]. Qed.

Lemma tidy_out_WriteString s : tidy (out_WriteString (W := W) s).
Proof. apply tidy_out_Write. Qed.

Lemma tidy_out_Flush : tidy (out_Flush (W := W)).
Proof. intros g. split; [apply Nat.le_refl | exact I]. Qed.

Lemma tidy_log_Printf format args : tidy (log_Printf (W := W) format args).
Proof. intros g. split; [apply Nat.le_refl | exact I]. Qed.

Lemma tidy_set_prefix p : tidy (set_prefix (W := W) p).
Proof. intros g. split; [apply Nat.le_refl | exact I]. Qed.

Lemma tidy_set_bucket b : tidy (set_bucket (W := W) b).
Proof. intros g. split; [apply Nat.le_refl | exact I]. Qed.

Lemma tidy_bucket_var : tidy (bucket_var (W := W)).
Proof.
  intros g. unfold bucket_var. destruct (g_bucket g);
    (split; [apply Nat.le_refl | exact I]).
Qed.

Lemma tidy_wask {A} (f : W -> A) : tidy (wask f).
Proof. intros g. split; [apply Nat.le_refl | exact I]. Qed.

Lemma tidy_wcall {A} ev (f : W -> A * W) : tidy (wcall ev f).
Proof.
  intros g. unfold wcall. destruct (f (g_world g)) as [a w'].
  split; [apply Nat.le_refl | exact I].
Qed.

Lemma tidy_wcall_answer {A} (ev : A -> AnyEvent) (f : W -> A * W) :
  tidy (wcall_answer ev f).
Proof.
  intros g. unfold wcall_answer. destruct (f (g_world g)) as [a w'].
  split; [apply Nat.le_refl | exact I].
Qed.

Lemma tidy_write_lines ls : tidy (write_lines (W := W) ls).
Proof.
  intros g. rewrite Legacy_write_lines. cbn [final].
  split; [|exact I]. destruct ls; cbn [with_lines g_in]; apply Nat.le_refl.
Qed.

Lemma read_shrinks (i : Stdin) :
  (String.length (unread (snd (bufio_ReadString i))) <= String.length (unread i))%nat.
Proof.
  unfold bufio_ReadString. destruct (cut newline (unread i)) as [[line rest]|] eqn:Hcut.
  - cbn [snd unread]. apply cut_shorter in Hcut. lia.
  - cbn. lia.
Qed.

(** [getConfig] exits only when its request has been flushed. *)
Lemma tidy_getConfig name : tidy (getConfig (W := W) name).
Proof.
  intros g. unfold getConfig, lbind, out_WriteString, out_Write, out_Flush,
    in_ReadString, log_Fatalf, lret.
  cbn [g_in g_pending g_stdout g_bucket g_prefix g_world g_calls g_logged].
  pose proof (read_shrinks (g_in g)) as Hlen.
  destruct (bufio_ReadString (g_in g)) as [[line [e|]] i]; cbn [snd] in Hlen.
  - cbn [final g_in g_pending]. split; [exact Hlen | reflexivity].
  - destruct (strings_HasPrefix (strings_TrimSuffix line nl) "VALUE ");
      cbn [final g_in]; (split; [exact Hlen | exact I]).
Qed.

Create HintDb tidy.

#[local] Hint Resolve tidy_lret tidy_crash tidy_prefix_var tidy_out_Write
  tidy_out_WriteString tidy_out_Flush tidy_log_Printf tidy_set_prefix
  tidy_set_bucket tidy_bucket_var tidy_wask tidy_wcall tidy_wcall_answer
  tidy_write_lines tidy_getConfig : tidy.

Lemma tidy_prepare mode : tidy (prepare (W := W) mode).
Proof.
  unfold prepare, prepareInternal, connect.
  repeat walk_step (@tidy_bind) (@tidy_deferred) ltac:(solve [auto with tidy]).
Qed.

Lemma tidy_store key file : tidy (store (W := W) key file).
Proof.
  unfold store, hashing, transfer_response, progress_out.
  repeat walk_step (@tidy_bind) (@tidy_deferred) ltac:(solve [auto with tidy]).
Qed.

Lemma tidy_retrieve key file : tidy (retrieve (W := W) key file).
Proof.
  unfold retrieve, transfer_response, progress_out.
  repeat walk_step (@tidy_bind) (@tidy_deferred) ltac:(solve [auto with tidy]).
Qed.

Lemma tidy_checkPresent key : tidy (checkPresent (W := W) key).
Proof.
  unfold checkPresent.
  repeat walk_step (@tidy_bind) (@tidy_deferred) ltac:(solve [auto with tidy]).
Qed.

Lemma tidy_remove key : tidy (remove (W := W) key).
Proof.
  unfold remove.
  repeat walk_step (@tidy_bind) (@tidy_deferred) ltac:(solve [auto with tidy]).
Qed.

Lemma tidy_dispatch line : tidy (dispatch (W := W) line).
Proof.
  unfold dispatch.
  repeat match goal with
         | |- tidy (if ?c then _ else _) => destruct c
         | |- tidy (let '(_, _) := ?x in _) => destruct x
         end;
    lazymatch goal with
    | |- tidy (prepare _) => apply tidy_prepare
    | |- tidy (store _ _) => apply tidy_store
    | |- tidy (retrieve _ _) => apply tidy_retrieve
    | |- tidy (checkPresent _) => apply tidy_checkPresent
    | |- tidy (remove _) => apply tidy_remove
    | |- _ => apply tidy_out_WriteString
    end.
Qed.

Lemma loop_more (fuel : nat) :
  forall (g : G W) (r : LRes W unit),
    loop fuel g = Some r ->
    forall fuel', (fuel <= fuel')%nat -> loop fuel' g = Some r.
Proof.
  induction fuel as [|fuel IH]; intros g r Hrun fuel' Hle; [discriminate Hrun|].
  destruct fuel' as [|fuel']; [lia|].
  cbn [loop] in *.
  destruct (lbind out_Flush (fun _ => in_ReadString) g) as [[line [e|]] g1|g1|g1];
    try exact Hrun.
  destruct (dispatch (strings_TrimSuffix line nl) g1) as [u g2|g2|g2];
    try exact Hrun.
  apply (IH g2 r Hrun). lia.
Qed.

Lemma loop_ends (fuel : nat) :
  forall g : G W,
    (String.length (unread (g_in g)) < fuel)%nat ->
    exists r, loop fuel g = Some r.
Proof.
  induction fuel as [|fuel IH]; intros g Hlen; [lia|].
  cbn [loop]. unfold lbind at 1, out_Flush, in_ReadString, bufio_ReadString.
  cbn [g_in g_pending g_stdout g_bucket g_prefix g_world g_calls g_logged].
  destruct (cut newline (unread (g_in g))) as [[line rest]|] eqn:Hcut.
  - apply cut_shorter in Hcut.
    match goal with
    | |- context [dispatch ?l ?g1] =>
        pose proof (tidy_dispatch l g1) as [Hd _]; destruct (dispatch l g1) as [u g2|g2|g2]
    end; try (eexists; reflexivity).
    cbn [final g_in unread] in Hd. apply IH. lia.
  - destruct (is_EOF (at_end (g_in g))); eexists; reflexivity.
Qed.

Lemma loop_exits (fuel : nat) :
  forall (g : G W) (r : LRes W unit),
    loop fuel g = Some r ->
    match r with
    | Ok _ g' => g_pending g' = [] /\ unread (g_in g') = ""
    | Fatal g' => g_pending g' = []
    | Crash _ => True
    end.
Proof.
  induction fuel as [|fuel IH]; intros g r Hrun; [discriminate Hrun|].
  cbn [loop] in Hrun. unfold lbind at 1, out_Flush, in_ReadString, bufio_ReadString in Hrun.
  cbn [g_in g_pending g_stdout g_bucket g_prefix g_world g_calls g_logged] in Hrun.
  destruct (cut newline (unread (g_in g))) as [[line rest]|].
  - match type of Hrun with
    | context [dispatch ?l ?g1] =>
        pose proof (tidy_dispatch l g1) as [_ Hd]; destruct (dispatch l g1) as [u g2|g2|g2]
    end.
    + exact (IH g2 r Hrun).
    + inversion Hrun; subst. exact Hd.
    + inversion Hrun; subst. exact I.
  - destruct (is_EOF (at_end (g_in g))); inversion Hrun; subst.
    + split; reflexivity.
    + reflexivity.
Qed.

End Tidy.

(** X21.  The program ends on every input: the loop reads a whole line in
    each round and no function adds to the input, so more rounds than the
    input has bytes reach its end, an exit or a panic, and more rounds than
    that change nothing. *)
Theorem X21_main_ends :
  forall (W : Type) (HW : World W) (HD : Retrieval.Downloads W) (HR : Reads W)
         (input : Stdin) (w : W),
  exists r,
    forall fuel,
      (String.length (unread input) < fuel)%nat ->
      main fuel (start input w) = Some r.
Proof.
  intros W HW HD HR input w. unfold main, out_WriteString, out_Write, start.
  cbn [g_in g_pending g_stdout g_bucket g_prefix g_world g_calls g_logged].
  match goal with
  | |- context [loop _ ?g1] =>
      destruct (loop_ends (S (String.length (unread input))) g1) as [r Hr];
        [cbn [g_in]; lia|]; exists r; intros fuel Hfuel;
        apply (loop_more _ g1 r Hr); lia
  end.
Qed.

Lemma X21_main_ends_witness :
  exists r,
    main 40 (start {| unread := "CHECKPRESENT KEY1" ++ nl; at_end := io_EOF |}
               (sim fake_ok))
    = Some r.
Proof.
  destruct (X21_main_ends Sim Sim_World _ _
              {| unread := "CHECKPRESENT KEY1" ++ nl; at_end := io_EOF |} (sim fake_ok))
    as [r Hr].
  exists r. apply Hr. cbn. lia.
Defined.

(** X22.  When the program ends by reaching the end of its input, or exits
    through [log.Fatal], everything it wrote has been flushed; at the end of
    the input nothing is left unread.  Only a panic can lose output. *)
Theorem X22_exits_flush_everything :
  forall (W : Type) (HW : World W) (HD : Retrieval.Downloads W) (HR : Reads W)
         (fuel : nat) (input : Stdin) (w : W) (r : LRes W unit),
    main fuel (start input w) = Some r ->
    match r with
    | Ok _ g' => g_pending g' = [] /\ unread (g_in g') = ""
    | Fatal g' => g_pending g' = []
    | Crash _ => True
    end.
Proof.
  intros W HW HD HR fuel input w r. unfold main, out_WriteString, out_Write, start.
  cbn [g_in g_pending g_stdout g_bucket g_prefix g_world g_calls g_logged].
  apply loop_exits.
Qed.

Lemma X22_exits_flush_everything_witness :
  exists g',
    main 10 (start {| unread := "GETCOST" ++ nl ++ "CHECKPRESENT"; at_end := io_EOF |}
               (sim fake_ok))
    = Some (Ok tt g')
    /\ g_pending g' = [] /\ unread (g_in g') = "".
Proof.
  assert (Hrun : { g' | main 10 (start {| unread := "GETCOST" ++ nl ++ "CHECKPRESENT";
                                          at_end := io_EOF |} (sim fake_ok))
                        = Some (Ok tt g') })
    by (eexists; vm_compute; reflexivity).
  destruct Hrun as [g' Hrun]. exists g'. split; [exact Hrun|].
  exact (X22_exits_flush_everything Sim Sim_World _ _ 10 _ _ (Ok tt g') Hrun).
Defined.

(** *** A last line without its newline *)

Lemma cut_append_tail (c : ascii) (u x rest t : string) :
  cut c u = Some (x, rest) -> cut c (u ++ t) = Some (x, (rest ++ t)%string).
Proof.
  revert x rest. induction u as [|a u IH]; cbn; [discriminate|].
  intros x rest. destruct (a =? c)%char.
  - intros Heq. inversion Heq; subst. reflexivity.
  - destruct (cut c u) as [[x' rest']|]; [|discriminate].
    intros Heq. inversion Heq; subst. rewrite (IH _ _ eq_refl). reflexivity.
Qed.

Lemma ends_lines_cut (u x rest : string) :
  ends_lines u = true -> cut newline u = Some (x, rest) -> ends_lines rest = true.
Proof.
  revert x rest. induction u as [|a u IH]; cbn [cut]; [discriminate|].
  intros x rest Hu. destruct (a =? newline)%char eqn:Ha.
  - intros Heq. inversion Heq; subst. destruct rest; [reflexivity | exact Hu].
  - destruct (cut newline u) as [[x' rest']|] eqn:Hcut; [|discriminate].
    intros Heq. inversion Heq; subst.
    destruct u as [|b u]; [discriminate Hcut|].
    exact (IH _ _ Hu eq_refl).
Qed.

Lemma ends_lines_no_newline (u : string) :
  ends_lines u = true -> cut newline u = None -> u = "".
Proof.
  induction u as [|a u IH]; [reflexivity|].
  cbn [cut]. intros Hu. destruct (a =? newline)%char eqn:Ha; [discriminate|].
  destruct (cut newline u) as [[x rest]|] eqn:Hcut; [discriminate|].
  intros _. destruct u as [|b u].
  - cbn in Hu. rewrite Ha in Hu. discriminate Hu.
  - specialize (IH Hu eq_refl). discriminate IH.
Qed.

Section Tail.

Context {W : Type} `{World W} `{Retrieval.Downloads W} `{Reads W}.

Lemma with_input_own (g : G W) : with_input (g_in g) g = g.
Proof. destruct g; reflexivity. Qed.

Lemma blind_keeps {A} (m : LM W A) :
  blind m -> forall g, g_in (final (m g)) = g_in g.
Proof.
  intros Hb g. specialize (Hb (g_in g) g). rewrite with_input_own in Hb.
  destruct (m g) as [a g'|g'|g']; cbn [lift_input final] in *;
    inversion Hb as [Hg]; rewrite Hg at 1; reflexivity.
Qed.

Lemma tail_of_refl (last : string) (g : G W) : tail_of last g g.
Proof.
  exists (unread (g_in g)). split; [|left; reflexivity].
  destruct g as [[u e] ? ? ? ? ? ? ?]; reflexivity.
Qed.

Lemma blind_tailed {A} (last : string) (m : LM W A) : blind m -> tailed last m.
Proof.
  intros Hb g1 g2 [u1 [-> Hu]]. rewrite Hb.
  pose proof (blind_keeps m Hb g2) as Hin.
  destruct (m g2) as [a g'|g'|g']; cbn [lift_input tail_res final] in *;
    try split; try reflexivity;
    (exists u1; rewrite Hin; split; [reflexivity | exact Hu]).
Qed.

Lemma tailed_bind {A B} (last : string) (m : LM W A) (k : A -> LM W B) :
  tailed last m -> (forall a, tailed last (k a)) -> tailed last (lbind m k).
Proof.
  intros Hm Hk g1 g2 HR. unfold lbind. specialize (Hm g1 g2 HR).
  destruct (m g1) as [a g1'|g1'|g1'], (m g2) as [b g2'|g2'|g2'];
    cbn [tail_res] in *; try contradiction; try exact Hm.
  destruct Hm as [<- HR']. exact (Hk a g1' g2' HR').
Qed.

Lemma blind_bind {A B} (m : LM W A) (k : A -> LM W B) :
  blind m -> (forall a, blind (k a)) -> blind (lbind m k).
Proof.
  intros Hm Hk i g. unfold lbind. rewrite Hm.
  destruct (m g) as [a g'|g'|g']; cbn [lift_input]; [apply Hk | reflexivity | reflexivity].
Qed.

Lemma blind_deferred {A} (dflt : A) (cleanup : A -> LM W unit) (body : LM W A) :
  blind body -> (forall a, blind (cleanup a)) -> blind (deferred dflt cleanup body).
Proof.
  intros Hb Hc i g. unfold deferred. rewrite Hb.
  destruct (body g) as [a g'|g'|g']; cbn [lift_input]; [| reflexivity |].
  - rewrite Hc. destruct (cleanup a g'); reflexivity.
  - rewrite Hc. destruct (cleanup dflt g'); reflexivity.
Qed.

Lemma blind_lret {A} (a : A) : blind (lret (W := W) a).
Proof. intros i g. reflexivity. Qed.

Lemma blind_crash {A} : blind (crash (W := W) (A := A)).
Proof. intros i g. reflexivity. Qed.

Lemma blind_prefix_var : blind (prefix_var (W := W)).
Proof. intros i g. reflexivity. Qed.

Lemma blind_bucket_var : blind (bucket_var (W := W)).
Proof. intros i g. unfold bucket_var. cbn [with_input g_bucket]. destruct (g_bucket g); reflexivity. Qed.

Lemma blind_out_Write ts : blind (out_Write (W := W) ts).
Proof. intros i g. reflexivity. Qed.

Lemma blind_out_WriteString s : blind (out_WriteString (W := W) s).
Proof. intros i g. reflexivity. Qed.

Lemma blind_out_Flush : blind (out_Flush (W := W)).
Proof. intros i g. reflexivity. Qed.

Lemma blind_log_Printf format args : blind (log_Printf (W := W) format args).
Proof. intros i g. reflexivity. Qed.

Lemma blind_set_prefix p : blind (set_prefix (W := W) p).
Proof. intros i g. reflexivity. Qed.

Lemma blind_set_bucket b : blind (set_bucket (W := W) b).
Proof. intros i g. reflexivity. Qed.

Lemma blind_wask {A} (f : W -> A) : blind (wask f).
Proof. intros i g. reflexivity. Qed.

Lemma blind_wcall {A} ev (f : W -> A * W) : blind (wcall ev f).
Proof.
  intros i g. unfold wcall. cbn [with_input g_world].
  destruct (f (g_world g)) as [a w']. reflexivity.
Qed.

Lemma blind_wcall_answer {A} (ev : A -> AnyEvent) (f : W -> A * W) :
  blind (wcall_answer ev f).
Proof.
  intros i g. unfold wcall_answer. cbn [with_input g_world].
  destruct (f (g_world g)) as [a w']. reflexivity.
Qed.

Lemma blind_write_lines ls : blind (write_lines (W := W) ls).
Proof.
  intros i g. rewrite !Legacy_write_lines. destruct ls; reflexivity.
Qed.

Create HintDb blind.

#[local] Hint Resolve blind_lret blind_crash blind_prefix_var blind_bucket_var
  blind_out_Write blind_out_WriteString blind_out_Flush blind_log_Printf
  blind_set_prefix blind_set_bucket blind_wask blind_wcall blind_wcall_answer
  blind_write_lines : blind.

Lemma blind_store key file : blind (store (W := W) key file).
Proof.
  unfold store, hashing, transfer_response, progress_out.
  repeat walk_step (@blind_bind) (@blind_deferred) ltac:(solve [auto with blind]).
Qed.

Lemma blind_retrieve key file : blind (retrieve (W := W) key file).
Proof.
  unfold retrieve, transfer_response, progress_out.
  repeat walk_step (@blind_bind) (@blind_deferred) ltac:(solve [auto with blind]).
Qed.

Lemma blind_checkPresent key : blind (checkPresent (W := W) key).
Proof.
  unfold checkPresent.
  repeat walk_step (@blind_bind) (@blind_deferred) ltac:(solve [auto with blind]).
Qed.

Lemma blind_remove key : blind (remove (W := W) key).
Proof.
  unfold remove.
  repeat walk_step (@blind_bind) (@blind_deferred) ltac:(solve [auto with blind]).
Qed.

Lemma blind_connect a k b : blind (connect (W := W) a k b).
Proof.
  unfold connect.
  repeat walk_step (@blind_bind) (@blind_deferred) ltac:(solve [auto with blind]).
Qed.

(** Reading a line: the same line from both, or the end of the input for
    both. *)
Lemma read_tail (last : string) (i1 i2 : Stdin) :
  cut newline last = None ->
  at_end i1 = at_end i2 ->
  unread i1 = (unread i2 ++ last)%string ->
  ends_lines (unread i2) = true ->
  (exists line rest,
      bufio_ReadString i1
      = ((line, None), {| unread := (rest ++ last)%string; at_end := at_end i2 |})
      /\ bufio_ReadString i2 = ((line, None), {| unread := rest; at_end := at_end i2 |})
      /\ ends_lines rest = true)
  \/ (exists l1 l2,
        bufio_ReadString i1
        = ((l1, Some (at_end i2)), {| unread := ""; at_end := at_end i2 |})
        /\ bufio_ReadString i2
           = ((l2, Some (at_end i2)), {| unread := ""; at_end := at_end i2 |})).
Proof.
  intros Hlast He Hu Hlines. unfold bufio_ReadString. rewrite Hu, He.
  destruct (cut newline (unread i2)) as [[line rest]|] eqn:Hcut.
  - left. exists (line ++ nl)%string, rest.
    rewrite (cut_append_tail newline _ _ _ last Hcut).
    split; [reflexivity|]. split; [reflexivity|].
    exact (ends_lines_cut _ _ _ Hlines Hcut).
  - right. rewrite (ends_lines_no_newline _ Hlines Hcut). cbn [append].
    rewrite Hlast. exists last, "". split; reflexivity.
Qed.

Lemma tailed_getConfig (last name : string) :
  cut newline last = None -> tailed last (getConfig (W := W) name).
Proof.
  intros Hlast. unfold getConfig.
  apply tailed_bind; [apply blind_tailed; apply blind_out_WriteString | intros _].
  apply tailed_bind; [apply blind_tailed; apply blind_out_WriteString | intros _].
  apply tailed_bind; [apply blind_tailed; apply blind_out_WriteString | intros _].
  apply tailed_bind; [apply blind_tailed; apply blind_out_Flush | intros _].
  intros g1 g2 [u1 [-> [->|[-> Hlines]]]].
  - replace (with_input {| unread := unread (g_in g2); at_end := at_end (g_in g2) |} g2)
      with g2 by (destruct g2 as [[u e] ? ? ? ? ? ? ?]; reflexivity).
    match goal with
    | |- tail_res _ ?r _ =>
        destruct r as [a g'|g'|g']; cbn [tail_res];
          try split; try reflexivity; apply tail_of_refl
    end.
  - destruct g2 as [i2 pend sout bko pfx w calls logged].
    unfold lbind, in_ReadString, log_Fatalf, lret, with_input.
    cbn [g_in g_pending g_stdout g_bucket g_prefix g_world g_calls g_logged].
    destruct (read_tail last {| unread := unread i2 ++ last; at_end := at_end i2 |} i2
                Hlast eq_refl eq_refl Hlines)
      as [[line [rest [-> [-> Hrest]]]]|[l1 [l2 [-> ->]]]].
    + destruct (strings_HasPrefix (strings_TrimSuffix line nl) "VALUE ");
        cbn [tail_res]; (split; [reflexivity|]);
        (exists (rest ++ last)%string; split; [reflexivity|]; right;
         split; [reflexivity | exact Hrest]).
    + cbn [tail_res]. exists "". split; [reflexivity | left; reflexivity].
Qed.

Lemma tailed_prepare (last mode : string) :
  cut newline last = None -> tailed last (prepare (W := W) mode).
Proof.
  intros Hlast. unfold prepare, prepareInternal.
  repeat walk_step (@tailed_bind) (@tailed_bind)
    ltac:(idtac;
          lazymatch goal with
          | |- tailed _ (getConfig _) => apply (tailed_getConfig last _ Hlast)
          | |- tailed _ (connect _ _ _) => apply blind_tailed; apply blind_connect
          | |- _ => apply blind_tailed; solve [auto with blind]
          end).
Qed.

Lemma tailed_dispatch (last line : string) :
  cut newline last = None -> tailed last (dispatch (W := W) line).
Proof.
  intros Hlast. unfold dispatch.
  repeat match goal with
         | |- tailed _ (if ?c then _ else _) => destruct c
         | |- tailed _ (let '(_, _) := ?x in _) => destruct x
         end;
    lazymatch goal with
    | |- tailed _ (prepare _) => apply (tailed_prepare last _ Hlast)
    | |- tailed _ (store _ _) => apply blind_tailed; apply blind_store
    | |- tailed _ (retrieve _ _) => apply blind_tailed; apply blind_retrieve
    | |- tailed _ (checkPresent _) => apply blind_tailed; apply blind_checkPresent
    | |- tailed _ (remove _) => apply blind_tailed; apply blind_remove
    | |- _ => apply blind_tailed; apply blind_out_WriteString
    end.
Qed.

Lemma loop_S (fuel : nat) (g : G W) :
  loop (S fuel) g
  = let '(answer, i) := bufio_ReadString (g_in g) in
    let g1 := {| g_in := i; g_pending := []; g_stdout := g_stdout g ++ g_pending g;
                 g_bucket := g_bucket g; g_prefix := g_prefix g;
                 g_world := g_world g; g_calls := g_calls g;
                 g_logged := g_logged g |} in
    match answer with
    | (line, Some e) =>
        if is_EOF e then Some (Ok tt g1) else Some (log_Fatalf "%v" [inr e] g1)
    | (line, None) =>
        match dispatch (strings_TrimSuffix line nl) g1 with
        | Ok _ g2 => loop fuel g2
        | Fatal g2 => Some (Fatal g2)
        | Crash g2 => Some (Crash g2)
        end
    end.
Proof.
  cbn [loop]. unfold lbind, out_Flush, in_ReadString.
  cbn [g_in g_pending g_stdout g_bucket g_prefix g_world g_calls g_logged].
  destruct (bufio_ReadString (g_in g)) as [[line [e|]] i]; reflexivity.
Qed.

Lemma loop_tail (last : string) (fuel : nat) :
  cut newline last = None ->
  forall g1 g2 : G W,
    tail_of last g1 g2 ->
    match loop fuel g1, loop fuel g2 with
    | Some r1, Some r2 => tail_res last r1 r2
    | None, None => True
    | _, _ => False
    end.
Proof.
  intros Hlast. induction fuel as [|fuel IH]; intros g1 g2 HR; [exact I|].
  destruct HR as [u1 [-> [->|[-> Hlines]]]].
  - replace (with_input {| unread := unread (g_in g2); at_end := at_end (g_in g2) |} g2)
      with g2 by (destruct g2 as [[u e] ? ? ? ? ? ? ?]; reflexivity).
    destruct (loop (S fuel) g2) as [[a g'|g'|g']|]; cbn [tail_res];
      try split; try reflexivity; try apply tail_of_refl.
  - destruct g2 as [i2 pend sout bko pfx w calls logged].
    rewrite !loop_S. unfold with_input.
    cbn [g_in g_pending g_stdout g_bucket g_prefix g_world g_calls g_logged] in *.
    destruct (read_tail last {| unread := unread i2 ++ last; at_end := at_end i2 |} i2
                Hlast eq_refl eq_refl Hlines)
      as [[line [rest [-> [-> Hrest]]]]|[l1 [l2 [-> ->]]]].
    + match goal with
      | |- match match dispatch ?l ?ga with _ => _ end with _ => _ end =>
          match goal with
          | |- context [dispatch l ?gb] =>
              lazymatch gb with
              | ga => fail
              | _ =>
                  assert (Hd : tail_res last (dispatch l ga) (dispatch l gb))
                    by (apply (tailed_dispatch last l Hlast);
                        exists (rest ++ last)%string; split; [reflexivity|]; right;
                        split; [reflexivity | exact Hrest]);
                  destruct (dispatch l ga) as [a ga'|ga'|ga'],
                           (dispatch l gb) as [b gb'|gb'|gb'];
                  cbn [tail_res] in Hd; try contradiction; try exact Hd
              end
          end
      end.
      destruct Hd as [_ Hd]. exact (IH _ _ Hd).
    + unfold log_Fatalf.
      destruct (is_EOF (at_end i2)); cbn [tail_res];
        try split; try reflexivity;
        (exists ""; split; [reflexivity | left; reflexivity]).
Qed.

End Tail.

(** X24.  A last line that lacks its newline is never carried out: with the
    same world, the program run on whole lines followed by such a line does
    what it does on the whole lines alone, and ends the same way; the two
    runs differ at most in the input left when they stop early. *)
Theorem X24_unterminated_line_is_dropped :
  forall (W : Type) (HW : World W) (HD : Retrieval.Downloads W) (HR : Reads W)
         (fuel : nat) (u last : string) (e : error) (w : W),
    ends_lines u = true ->
    cut newline last = None ->
    option_map (lift_input {| unread := ""; at_end := e |})
      (main fuel (start {| unread := u ++ last; at_end := e |} w))
    = option_map (lift_input {| unread := ""; at_end := e |})
        (main fuel (start {| unread := u; at_end := e |} w)).
Proof.
  intros W HW HD HR fuel u last e w Hu Hlast.
  unfold main, out_WriteString, out_Write, start.
  cbn [g_in g_pending g_stdout g_bucket g_prefix g_world g_calls g_logged].
  match goal with
  | |- option_map _ (loop _ ?g1) = option_map _ (loop _ ?g2) =>
      assert (HR0 : tail_of last g1 g2)
        by (exists (u ++ last)%string; split; [reflexivity|]; right;
            split; [reflexivity | exact Hu]);
      pose proof (loop_tail last fuel Hlast g1 g2 HR0) as Hrun;
      destruct (loop fuel g1) as [r1|], (loop fuel g2) as [r2|];
      try contradiction; [|reflexivity]
  end.
  cbn [option_map]. f_equal.
  destruct r1 as [a g1'|g1'|g1'], r2 as [b g2'|g2'|g2'];
    cbn [tail_res] in Hrun; try contradiction;
    try destruct Hrun as [<- Hrun];
    destruct Hrun as [u1 [-> _]]; reflexivity.
Qed.

Lemma X24_unterminated_line_is_dropped_witness :
  option_map (lift_input {| unread := ""; at_end := io_EOF |})
    (main 10 (start {| unread := ("GETCOST" ++ nl) ++ "CHECKPRESENT KEY1";
                       at_end := io_EOF |} (sim fake_ok)))
  = option_map (lift_input {| unread := ""; at_end := io_EOF |})
      (main 10 (start {| unread := "GETCOST" ++ nl; at_end := io_EOF |} (sim fake_ok))).
Proof.
  apply (X24_unterminated_line_is_dropped Sim Sim_World _ _ 10
           ("GETCOST" ++ nl)%string "CHECKPRESENT KEY1" io_EOF (sim fake_ok));
    reflexivity.
Defined.

